(** * Token-holder aggregation: pagination fetcher, threshold and
      intersection policies, request rate limiter.

    Shallow embedding of [src/src/script.ts] (module [Script]) and of the
    earlier intersection script [src/unnamed/part_000] (module [Part000]).

    Conventions of the model.
    - Modules [Script], [Part000], [RateLimiter] and [Report] follow the
      control flow, the maps and the effects of the code.  In them a raw
      token balance, a page index or a millisecond count is an integer [Z]
      and a USD price or value a rational [Q], with exact arithmetic: they
      are used for what does not depend on rounding.
    - Module [Doubles] repeats the two fetchers and the threshold
      aggregation with balances, prices and USD values as IEEE-754 binary64
      values (primitive [float]s), and is used for what the code computes
      numerically.
    - A JavaScript [Map] is an association list in insertion order
      ([Map.set] on a present key keeps its position), because
      [Array.from(m.values())] followed by a stable [sort] observes it.
    - The remote API is a script: the list of responses the fetcher
      receives, in the order of its requests.  A fetcher that needs a
      response the script does not hold is [Stalled]. *)

From Stdlib Require Import List ZArith QArith Qminmax Lqa Lia Bool String Ascii.
From Stdlib Require Import Permutation Sorted.
From Stdlib Require Import PrimFloat SpecFloat FloatOps.
Import ListNotations.
Open Scope string_scope.
Open Scope list_scope.
Open Scope Z_scope.

Set Implicit Arguments.
Set Warnings "-inexact-float".

(* ------------------------------------------------------------------ *)
(** ** JavaScript runtime pieces used by both scripts *)

Module JsMap.
Section WithValue.
Variable V : Type.

(** [Map<string, V>]: entries in insertion order, keys pairwise distinct. *)
Definition t := list (string * V).

Definition empty : t := [].

Fixpoint get (m : t) (k : string) : option V :=
  match m with
  | [] => None
  | (k', v) :: m' => if String.eqb k' k then Some v else get m' k
  end.

Definition has (m : t) (k : string) : bool :=
  match get m k with Some _ => true | None => false end.

(** [m.set(k, v)]: overwrite in place, or append a new last entry. *)
Fixpoint set (m : t) (k : string) (v : V) : t :=
  match m with
  | [] => [(k, v)]
  | (k', v') :: m' =>
      if String.eqb k' k then (k, v) :: m' else (k', v') :: set m' k v
  end.

Definition keys (m : t) : list string := map fst m.
Definition values (m : t) : list V := map snd m.
End WithValue.
End JsMap.

Arguments JsMap.empty {V}.

(** [Array.prototype.sort(cmp)]: a stable sort.  [le a b] stands for
    [cmp(a, b) <= 0].  For a comparator that is a total preorder every stable
    sort returns the same array, so insertion from the right is used. *)
Section StableSort.
Variable A : Type.
Variable le : A -> A -> bool.

Fixpoint sort_insert (x : A) (l : list A) : list A :=
  match l with
  | [] => [x]
  | y :: l' => if le x y then x :: y :: l' else y :: sort_insert x l'
  end.

Fixpoint array_sort (l : list A) : list A :=
  match l with
  | [] => []
  | x :: l' => sort_insert x (array_sort l')
  end.
End StableSort.

(** [x || 0] on numbers. *)
Definition or0 (x : Z) : Z := if x =? 0 then 0 else x.
Definition qor0 (x : Q) : Q := if Qeq_bool x 0 then 0%Q else x.

(* ------------------------------------------------------------------ *)
(** ** Data shared by the two scripts *)

Record TokenAccount := mkTokenAccount {
  ta_address : string;
  ta_mint : string;
  ta_owner : string;
  ta_amount : Z
}.

(** [interface TokenHolder]; [valueUsd] is optional ([None] in part_000,
    whose interface has no such field). *)
Record TokenHolder := mkTokenHolder {
  th_address : string;
  th_amount : Z;
  th_valueUsd : option Q
}.

(** What the fetcher reads of a [fetch] response: the HTTP status and, once
    the body is parsed, [data.result]: absent, or an object carrying the
    [token_accounts] array. *)
Record Response := mkResponse {
  status : Z;
  result : option (list TokenAccount)
}.

(** [response.ok] as node-fetch defines it: status in the range 200-299. *)
Definition ok (r : Response) : bool :=
  (200 <=? status r) && (status r <? 300).

Inductive Error :=
| HttpError (st : Z)      (* new Error(`Error: ${response.status}, ...`) *)
| ConfigError             (* 'Minimum tokens required cannot exceed total number of tokens' *)
| TypeError.              (* raised by the runtime *)

(** Observable effects: an API request for one page of one mint, and a
    [setTimeout] pause.  Console output is not traced. *)
Inductive Event :=
| Request (mint : string) (page : Z)
| Sleep (ms : Z).

Inductive Outcome (A : Type) :=
| Returned (a : A)
| Thrown (e : Error)
| Stalled.
Arguments Thrown {A} e.
Arguments Stalled {A}.

(** The result of running an asynchronous function against a script:
    how it ended, what it did, and the responses it left unread. *)
Record Run (A : Type) := mkRun {
  outcome : Outcome A;
  events : list Event;
  rest : list Response
}.

Definition before {A} (evs : list Event) (r : Run A) : Run A :=
  mkRun (outcome r) (evs ++ events r) (rest r).

Definition requestedPages (evs : list Event) : list Z :=
  flat_map (fun e => match e with Request _ p => [p] | Sleep _ => [] end) evs.

(** Classification of responses, used to state properties. *)
Definition isRateLimited (r : Response) : bool :=
  negb (ok r) && (status r =? 429).
Definition isFatal (r : Response) : bool :=
  negb (ok r) && negb (status r =? 429).
Definition isEndPage (r : Response) : bool :=
  ok r && match result r with
          | None => true
          | Some accts => (Z.of_nat (List.length accts) =? 0)
          end.
Definition isDataPage (r : Response) : bool :=
  ok r && match result r with
          | None => false
          | Some accts => negb (Z.of_nat (List.length accts) =? 0)
          end.

(** The records a response hands to the accumulation. *)
Definition pageRecords (r : Response) : list TokenAccount :=
  if isDataPage r then match result r with Some a => a | None => [] end else [].

(** Sum of [amount] over the records owned by [a]. *)
Fixpoint ownedSum (a : string) (recs : list TokenAccount) : Z :=
  match recs with
  | [] => 0
  | r :: recs' =>
      (if String.eqb (ta_owner r) a then ta_amount r else 0) + ownedSum a recs'
  end.

(** The page index the [j]-th request of a run must carry when the counter
    starts at [p] and advances by one per page of records received: [p] plus
    the number of such pages among the first [j] responses. *)
Definition pagesFrom (p : Z) (script : list Response) : list Z :=
  map (fun j => p + Z.of_nat (List.length (filter isDataPage (firstn j script))))
    (seq 0 (List.length script)).

(* ------------------------------------------------------------------ *)
(** ** src/src/script.ts *)

Module Script.

(** Body of the [forEach] over [data.result.token_accounts]. *)
Definition accumulate (priceUsd : Q) (holders : JsMap.t TokenHolder)
    (account : TokenAccount) : JsMap.t TokenHolder :=
  let currentHolder := JsMap.get holders (ta_owner account) in
  let newAmount :=
    or0 (match currentHolder with Some h => th_amount h | None => 0 end)
    + ta_amount account in
  JsMap.set holders (ta_owner account)
    (mkTokenHolder (ta_owner account) newAmount
       (Some (inject_Z newAmount * priceUsd)%Q)).

(** One pass through the body of [while (true)], given the response to the
    request for [page]. *)
Inductive Step :=
| Continue (page : Z) (holders : JsMap.t TokenHolder) (evs : list Event)
| Break
| Throw (e : Error).

Definition iteration (priceUsd : Q) (page : Z) (holders : JsMap.t TokenHolder)
    (response : Response) : Step :=
  if negb (ok response) then
    if status response =? 429 then Continue page holders [Sleep 1000]
    else Throw (HttpError (status response))
  else
    match result response with
    | None => Break
    | Some token_accounts =>
        if Z.of_nat (List.length token_accounts) =? 0 then Break
        else Continue (page + 1)
               (fold_left (accumulate priceUsd) token_accounts holders) []
    end.

(** [(a, b) => b.amount - a.amount], as the test [cmp(a, b) <= 0]. *)
Definition byAmountDesc (a b : TokenHolder) : bool :=
  th_amount b - th_amount a <=? 0.

(** The [while (true)] loop followed by the final sort.  Each turn issues the
    request for [page] and consumes the next response of the script. *)
Fixpoint fetchLoop (mintAddress : string) (priceUsd : Q) (rs : list Response)
    (page : Z) (holders : JsMap.t TokenHolder) : Run (list TokenHolder) :=
  match rs with
  | [] => mkRun Stalled [Request mintAddress page] []
  | response :: rs' =>
      before [Request mintAddress page]
        match iteration priceUsd page holders response with
        | Continue page' holders' evs =>
            before evs (fetchLoop mintAddress priceUsd rs' page' holders')
        | Break =>
            mkRun (Returned (array_sort byAmountDesc (JsMap.values holders)))
              [] rs'
        | Throw e => mkRun (Thrown e) [] rs'
        end
  end.

(** The API key only enters the request URL and is left out. *)
Definition getTokenHolders (mintAddress : string) (priceUsd : Q)
    (rs : list Response) : Run (list TokenHolder) :=
  fetchLoop mintAddress priceUsd rs 1 JsMap.empty.

Record TokenInfo := mkTokenInfo {
  ti_address : string;
  ti_priceUsd : Q
}.

Record HolderSummary := mkHolderSummary {
  hs_address : string;
  hs_tokenCount : Z;
  hs_holdings : JsMap.t TokenHolder;
  hs_totalValueUsd : Q
}.

(** [holder.valueUsd || 0]. *)
Definition valueOr0 (v : option Q) : Q :=
  match v with Some q => qor0 q | None => 0%Q end.

(** Body of [holders.forEach] in [findHoldersWithMinTokens].  The summary is
    a shared object: the three assignments update the entry stored in
    [holderCounts] in place.  The [None] branch stands for the non-null
    assertion and is never taken, the key being present by then. *)
Definition tally (tokenAddress : string) (holderCounts : JsMap.t HolderSummary)
    (holder : TokenHolder) : JsMap.t HolderSummary :=
  let holderCounts1 :=
    if negb (JsMap.has holderCounts (th_address holder)) then
      JsMap.set holderCounts (th_address holder)
        (mkHolderSummary (th_address holder) 0 JsMap.empty 0%Q)
    else holderCounts in
  match JsMap.get holderCounts1 (th_address holder) with
  | Some summary =>
      JsMap.set holderCounts1 (th_address holder)
        (mkHolderSummary (hs_address summary)
           (hs_tokenCount summary + 1)
           (JsMap.set (hs_holdings summary) tokenAddress holder)
           (hs_totalValueUsd summary + valueOr0 (th_valueUsd holder))%Q)
  | None => holderCounts1
  end.

(** The [for (const token of tokens)] loop, threading the two maps and the
    script. *)
Fixpoint forTokens (tokens : list TokenInfo) (rs : list Response)
    (holderDetails : JsMap.t (list TokenHolder))
    (holderCounts : JsMap.t HolderSummary)
    : Run (JsMap.t (list TokenHolder) * JsMap.t HolderSummary) :=
  match tokens with
  | [] => mkRun (Returned (holderDetails, holderCounts)) [] rs
  | token :: tokens' =>
      let r := getTokenHolders (ti_address token) (ti_priceUsd token) rs in
      match outcome r with
      | Returned holders =>
          before (events r ++ [Sleep 100])
            (forTokens tokens' (rest r)
               (JsMap.set holderDetails (ti_address token) holders)
               (fold_left (tally (ti_address token)) holders holderCounts))
      | Thrown e => mkRun (Thrown e) (events r) (rest r)
      | Stalled => mkRun Stalled (events r) (rest r)
      end
  end.

(** [(a, b) => b.totalValueUsd - a.totalValueUsd], as [cmp(a, b) <= 0]. *)
Definition byTotalValueDesc (a b : HolderSummary) : bool :=
  Qle_bool (hs_totalValueUsd b - hs_totalValueUsd a) 0.

Definition qualify (minTokensRequired : Z) (holderCounts : JsMap.t HolderSummary)
    : list HolderSummary :=
  array_sort byTotalValueDesc
    (filter (fun summary => hs_tokenCount summary >=? minTokensRequired)
       (JsMap.values holderCounts)).

Definition findHoldersWithMinTokens (tokens : list TokenInfo)
    (minTokensRequired : Z) (rs : list Response)
    : Run (list HolderSummary * JsMap.t (list TokenHolder)) :=
  if minTokensRequired >? Z.of_nat (List.length tokens) then
    mkRun (Thrown ConfigError) [] rs
  else
    let r := forTokens tokens rs JsMap.empty JsMap.empty in
    match outcome r with
    | Returned (holderDetails, holderCounts) =>
        mkRun (Returned (qualify minTokensRequired holderCounts, holderDetails))
          (events r) (rest r)
    | Thrown e => mkRun (Thrown e) (events r) (rest r)
    | Stalled => mkRun Stalled (events r) (rest r)
    end.

(** The per-token holder lists of a run, in token order: what the successive
    [getTokenHolders] calls of the loop return.  Used to state what the
    aggregation computes from them. *)
Fixpoint fetchAll (tokens : list TokenInfo) (rs : list Response)
    : Run (list (TokenInfo * list TokenHolder)) :=
  match tokens with
  | [] => mkRun (Returned []) [] rs
  | token :: tokens' =>
      let r := getTokenHolders (ti_address token) (ti_priceUsd token) rs in
      match outcome r with
      | Returned holders =>
          let r' := fetchAll tokens' (rest r) in
          mkRun
            match outcome r' with
            | Returned l => Returned ((token, holders) :: l)
            | Thrown e => Thrown e
            | Stalled => Stalled
            end
            (events r ++ [Sleep 100] ++ events r') (rest r')
      | Thrown e => mkRun (Thrown e) (events r) (rest r)
      | Stalled => mkRun Stalled (events r) (rest r)
      end
  end.

(** The cross-token summary built from given per-token holder lists. *)
Definition summarize (results : list (TokenInfo * list TokenHolder))
    : JsMap.t HolderSummary :=
  fold_left (fun hc tr => fold_left (tally (ti_address (fst tr))) (snd tr) hc)
    results JsMap.empty.

(** [holderDetails] built from given per-token holder lists. *)
Definition detailsOf (results : list (TokenInfo * list TokenHolder))
    : JsMap.t (list TokenHolder) :=
  fold_left (fun hd tr => JsMap.set hd (ti_address (fst tr)) (snd tr))
    results JsMap.empty.

Definition holds (a : string) (holders : list TokenHolder) : bool :=
  existsb (fun h => String.eqb (th_address h) a) holders.

(** Number of entries of the token list whose holder list contains [a]. *)
Definition entryCount (a : string)
    (results : list (TokenInfo * list TokenHolder)) : Z :=
  Z.of_nat (List.length (filter (fun tr => holds a (snd tr)) results)).


(** USD value recorded for [a] in one holder list (0 when absent). *)
Definition valueIn (a : string) (holders : list TokenHolder) : Q :=
  match find (fun h => String.eqb (th_address h) a) holders with
  | Some h => valueOr0 (th_valueUsd h)
  | None => 0%Q
  end.

(** Sum of the USD values of [a] over the entries whose list contains it. *)
Fixpoint cumulativeUsd (a : string)
    (results : list (TokenInfo * list TokenHolder)) : Q :=
  match results with
  | [] => 0%Q
  | tr :: results' => (valueIn a (snd tr) + cumulativeUsd a results')%Q
  end.

End Script.

(** *** class RateLimiter

    The dispatch loop [processQueue] runs on an event loop: between two
    [await]s its code is instantaneous, and it is resumed by the expiry of a
    timer or the completion of the awaited task.  The model is a machine
    over a millisecond clock.  [Pc] records where [processQueue] is
    suspended; the environment submits tasks, lets time pass, fires a due
    timer and completes the running task.  A timer never fires before its
    delay has elapsed. *)
Module RateLimiter.

Definition MAX_REQUESTS_PER_SECOND : Z := 8.
Definition MIN_TIME_BETWEEN_REQUESTS : Z := 1000 / MAX_REQUESTS_PER_SECOND.

(** The private fields; a queued task is named by a number. *)
Record Fields := mkFields {
  queue : list nat;
  processing : bool;
  lastRequestTime : Z;
  requestsInLastSecond : Z
}.

Inductive Pc :=
| Idle                            (* no call of processQueue is suspended *)
| Throttled (wake : Z) (now : Z)  (* at the setTimeout(timeToWait) await *)
| Running (task : nat)            (* at await task() *)
| Spacing (wake : Z).             (* at the MIN_TIME_BETWEEN_REQUESTS await *)

Record Sys := mkSys {
  clock : Z;                      (* Date.now() *)
  this : Fields;
  pc : Pc;
  dispatched : list (nat * Z)     (* task and start time, latest first *)
}.

Inductive Input :=
| Submit (task : nat)             (* addToQueue(task) *)
| Elapse (ms : N)
| Fire                            (* the pending timer callback runs *)
| Complete.                       (* the awaited task settles *)

(** [processQueue] from the counter reset to [await task()]; [now] is the
    reading taken when the call started. *)
Definition dispatch (now : Z) (s : Sys) : Sys :=
  let f := this s in
  let count :=
    if now - lastRequestTime f >=? 1000 then 0 else requestsInLastSecond f in
  match queue f with
  | task :: q =>
      mkSys (clock s) (mkFields q (processing f) (clock s) (count + 1))
        (Running task) ((task, clock s) :: dispatched s)
  | [] =>
      mkSys (clock s) (mkFields [] (processing f) (lastRequestTime f) count)
        Idle (dispatched s)
  end.

(** [processQueue] from its entry to its first [await]. *)
Definition processQueue (s : Sys) : Sys :=
  let f := this s in
  match queue f with
  | [] =>
      mkSys (clock s)
        (mkFields [] false (lastRequestTime f) (requestsInLastSecond f))
        Idle (dispatched s)
  | _ :: _ =>
      let s1 :=
        mkSys (clock s)
          (mkFields (queue f) true (lastRequestTime f) (requestsInLastSecond f))
          (pc s) (dispatched s) in
      let now := clock s in
      if requestsInLastSecond f >=? MAX_REQUESTS_PER_SECOND then
        let timeToWait := 1000 - (now - lastRequestTime f) in
        if timeToWait >? 0 then
          mkSys (clock s1) (this s1) (Throttled (now + timeToWait) now)
            (dispatched s1)
        else dispatch now s1
      else dispatch now s1
  end.

Definition addToQueue (task : nat) (s : Sys) : Sys :=
  let f := this s in
  let s1 :=
    mkSys (clock s)
      (mkFields (queue f ++ [task]) (processing f) (lastRequestTime f)
         (requestsInLastSecond f))
      (pc s) (dispatched s) in
  if negb (processing f) then processQueue s1 else s1.

Definition step (s : Sys) (i : Input) : Sys :=
  match i with
  | Submit task => addToQueue task s
  | Elapse ms => mkSys (clock s + Z.of_N ms) (this s) (pc s) (dispatched s)
  | Fire =>
      match pc s with
      | Throttled wake now =>
          if wake <=? clock s then
            let f := this s in
            dispatch now
              (mkSys (clock s)
                 (mkFields (queue f) (processing f) (lastRequestTime f) 0)
                 (pc s) (dispatched s))
          else s
      | Spacing wake => if wake <=? clock s then processQueue s else s
      | _ => s
      end
  | Complete =>
      match pc s with
      | Running _ =>
          mkSys (clock s) (this s)
            (Spacing (clock s + MIN_TIME_BETWEEN_REQUESTS)) (dispatched s)
      | _ => s
      end
  end.

Definition init (t0 : Z) : Sys := mkSys t0 (mkFields [] false 0 0) Idle [].

Definition run (t0 : Z) (inputs : list Input) : Sys :=
  fold_left step inputs (init t0).

(** Start times of the dispatched tasks, latest first. *)
Definition dispatchTimes (s : Sys) : list Z := map snd (dispatched s).

(** Number of dispatches in the one-second window starting at [a]. *)
Definition dispatchedIn (a : Z) (s : Sys) : nat :=
  List.length
    (filter (fun t => (a <=? t) && (t <=? a + 1000)) (dispatchTimes s)).

End RateLimiter.

(* ------------------------------------------------------------------ *)
(** ** src/unnamed/part_000 *)

(** [new Set(array)] and [set.has]: members in insertion order. *)
Module JsSet.
Definition t := list string.
Definition has (s : t) (x : string) : bool := existsb (String.eqb x) s.
Definition add (s : t) (x : string) : t := if has s x then s else (s ++ [x])%list.
Definition of_array (l : list string) : t := fold_left add l [].
End JsSet.

Module Part000.

(** Body of the [forEach] over [data.result.token_accounts]; the map holds
    bare amounts. *)
Definition accumulate (holders : JsMap.t Z) (account : TokenAccount)
    : JsMap.t Z :=
  let currentAmount :=
    match JsMap.get holders (ta_owner account) with
    | Some x => or0 x
    | None => 0
    end in
  JsMap.set holders (ta_owner account) (currentAmount + ta_amount account).

Inductive Step :=
| Continue (page : Z) (holders : JsMap.t Z)
| Break
| Throw (e : Error).

Definition iteration (page : Z) (holders : JsMap.t Z) (response : Response)
    : Step :=
  if negb (ok response) then Throw (HttpError (status response))
  else
    match result response with
    | None => Break
    | Some token_accounts =>
        if Z.of_nat (List.length token_accounts) =? 0 then Break
        else Continue (page + 1) (fold_left accumulate token_accounts holders)
    end.

Definition byAmountDesc (a b : TokenHolder) : bool :=
  th_amount b - th_amount a <=? 0.

Fixpoint fetchLoop (mintAddress : string) (rs : list Response) (page : Z)
    (holders : JsMap.t Z) : Run (list TokenHolder) :=
  match rs with
  | [] => mkRun Stalled [Request mintAddress page] []
  | response :: rs' =>
      before [Request mintAddress page]
        match iteration page holders response with
        | Continue page' holders' => fetchLoop mintAddress rs' page' holders'
        | Break =>
            let holderArray :=
              map (fun e => mkTokenHolder (fst e) (snd e) None) holders in
            mkRun (Returned (array_sort byAmountDesc holderArray)) [] rs'
        | Throw e => mkRun (Thrown e) [] rs'
        end
  end.

Definition getTokenHolders (mintAddress : string) (rs : list Response)
    : Run (list TokenHolder) :=
  fetchLoop mintAddress rs 1 JsMap.empty.

(** [Promise.all]: rejected as soon as one promise is; which rejection comes
    first depends on arrival times, the leftmost stands for it. *)
Fixpoint promiseAll {A} (ps : list (Outcome A)) : Outcome (list A) :=
  match ps with
  | [] => Returned []
  | p :: ps' =>
      match p, promiseAll ps' with
      | Thrown e, _ => Thrown e
      | _, Thrown e => Thrown e
      | Returned a, Returned l => Returned (a :: l)
      | _, _ => Stalled
      end
  end.

(** The intersection loop over [holdersArrays].  Spreading
    [holdersArrays[0]] when the array is empty spreads [undefined], which
    raises a TypeError. *)
Definition intersect (holdersArrays : list JsSet.t) : Outcome (list string) :=
  match nth_error holdersArrays 0 with
  | None => Thrown TypeError
  | Some first =>
      Returned
        (fold_left
           (fun commonHolders s => filter (fun holder => JsSet.has s holder)
                                     commonHolders)
           (skipn 1 holdersArrays) first)
  end.

(** [findCommonHolders]: the fetchers run concurrently, so each call comes
    with the responses its own requests receive.  [holderDetails] is filled
    in completion order; token order stands for it. *)
Definition findCommonHolders (calls : list (string * list Response))
    : Outcome (list string * JsMap.t (list TokenHolder)) :=
  let fetched :=
    map (fun c => (fst c, outcome (getTokenHolders (fst c) (snd c)))) calls in
  match promiseAll (map snd fetched) with
  | Returned holdersLists =>
      let holderDetails :=
        fold_left (fun m e => JsMap.set m (fst e) (snd e))
          (combine (map fst calls) holdersLists) JsMap.empty in
      let holdersArrays :=
        map (fun holders => JsSet.of_array (map th_address holders))
          holdersLists in
      match intersect holdersArrays with
      | Returned commonHolders => Returned (commonHolders, holderDetails)
      | Thrown e => Thrown e
      | Stalled => Stalled
      end
  | Thrown e => Thrown e
  | Stalled => Stalled
  end.

(** The intersection policy applied to given per-token holder lists. *)
Definition commonHoldersOf (results : list (list TokenHolder))
    : Outcome (list string) :=
  intersect (map (fun holders => JsSet.of_array (map th_address holders)) results).

End Part000.

(* ------------------------------------------------------------------ *)
(** ** src/src/script.ts: the JSON report *)

(** The [jsonOutput] object that [saveOutputToFiles] builds and serializes.
    The timestamp is a parameter.  The text report, whose numbers go through
    [toLocaleString], and the file writes are left out. *)
Module Report.

Record Holding := mkHolding {
  h_tokenAddress : string;
  h_amount : Z;
  h_valueUsd : Q
}.

Record HolderEntry := mkHolderEntry {
  e_rank : Z;
  e_address : string;
  e_tokenCount : Z;
  e_totalValueUsd : Q;
  e_holdings : list Holding
}.

Record OutputData := mkOutputData {
  o_timestamp : string;
  o_totalHolders : Z;
  o_minTokensRequired : Z;
  o_holders : list HolderEntry
}.

(** The object pushed onto [holderHoldings] for one token:
    [holding?.amount || 0] and [holding?.valueUsd || 0]. *)
Definition holdingOf (holder : Script.HolderSummary) (token : Script.TokenInfo)
    : Holding :=
  let holding :=
    JsMap.get (Script.hs_holdings holder) (Script.ti_address token) in
  mkHolding (Script.ti_address token)
    (or0 (match holding with Some h => th_amount h | None => 0 end))
    (match holding with
     | Some h => Script.valueOr0 (th_valueUsd h)
     | None => 0%Q
     end).

(** [qualifiedHolders.forEach((holder, index) => ...)], from [index] on. *)
Fixpoint entriesFrom (index : Z) (qualifiedHolders : list Script.HolderSummary)
    (tokens : list Script.TokenInfo) : list HolderEntry :=
  match qualifiedHolders with
  | [] => []
  | holder :: others =>
      mkHolderEntry (index + 1) (Script.hs_address holder)
        (Script.hs_tokenCount holder) (Script.hs_totalValueUsd holder)
        (map (holdingOf holder) tokens)
      :: entriesFrom (index + 1) others tokens
  end.

Definition jsonOutput (timestamp : string)
    (qualifiedHolders : list Script.HolderSummary)
    (tokens : list Script.TokenInfo) (minTokensRequired : Z) : OutputData :=
  mkOutputData timestamp (Z.of_nat (List.length qualifiedHolders))
    minTokensRequired (entriesFrom 0 qualifiedHolders tokens).

End Report.

(* ------------------------------------------------------------------ *)
(** ** The two scripts over IEEE doubles *)

(** The two [getTokenHolders] and the threshold aggregation with [amount],
    [priceUsd], [valueUsd] and [totalValueUsd] as binary64 values.  The
    loops read the script of responses exactly as those of [Script] and
    [Part000] do and return, with the outcome, the responses left unread.
    The trace of requests, which no number enters, is not repeated here, and
    the mint address, which only enters the requests, is left out. *)
Module Doubles.

Definition isNaN (x : float) : bool := negb (PrimFloat.eqb x x).

(** [x || 0]: [0], [-0] and [NaN] are falsy. *)
Definition or0 (x : float) : float :=
  if PrimFloat.eqb x 0%float || isNaN x then 0%float else x.

Record TokenAccount := mkTokenAccount {
  ta_address : string;
  ta_mint : string;
  ta_owner : string;
  ta_amount : float
}.

Record TokenHolder := mkTokenHolder {
  th_address : string;
  th_amount : float;
  th_valueUsd : option float
}.

Record Response := mkResponse {
  status : Z;
  result : option (list TokenAccount)
}.

Definition ok (r : Response) : bool :=
  (200 <=? status r) && (status r <? 300).

(** [(a, b) => b.amount - a.amount] as the test [cmp(a, b) <= 0]; [sort]
    reads a [NaN] result as [0]. *)
Definition byAmountDesc (a b : TokenHolder) : bool :=
  let v := PrimFloat.sub (th_amount b) (th_amount a) in
  isNaN v || PrimFloat.leb v 0%float.

Inductive Step (H : Type) :=
| Continue (page : Z) (holders : H)
| Break
| Throw (e : Error).
Arguments Break {H}.
Arguments Throw {H} e.

(** script.ts *)
Module Script.

Definition accumulate (priceUsd : float) (holders : JsMap.t TokenHolder)
    (account : TokenAccount) : JsMap.t TokenHolder :=
  let currentHolder := JsMap.get holders (ta_owner account) in
  let newAmount :=
    PrimFloat.add
      (or0 (match currentHolder with
            | Some h => th_amount h
            | None => 0%float
            end))
      (ta_amount account) in
  JsMap.set holders (ta_owner account)
    (mkTokenHolder (ta_owner account) newAmount
       (Some (PrimFloat.mul newAmount priceUsd))).

Definition iteration (priceUsd : float) (page : Z)
    (holders : JsMap.t TokenHolder) (response : Response)
    : Step (JsMap.t TokenHolder) :=
  if negb (ok response) then
    if status response =? 429 then Continue page holders
    else Throw (HttpError (status response))
  else
    match result response with
    | None => Break
    | Some token_accounts =>
        if Z.of_nat (List.length token_accounts) =? 0 then Break
        else Continue (page + 1)
               (fold_left (accumulate priceUsd) token_accounts holders)
    end.

Fixpoint fetchLoop (priceUsd : float) (rs : list Response) (page : Z)
    (holders : JsMap.t TokenHolder)
    : Outcome (list TokenHolder) * list Response :=
  match rs with
  | [] => (Stalled, [])
  | response :: rs' =>
      match iteration priceUsd page holders response with
      | Continue page' holders' => fetchLoop priceUsd rs' page' holders'
      | Break =>
          (Returned (array_sort byAmountDesc (JsMap.values holders)), rs')
      | Throw e => (Thrown e, rs')
      end
  end.

Definition getTokenHolders (priceUsd : float) (rs : list Response)
    : Outcome (list TokenHolder) * list Response :=
  fetchLoop priceUsd rs 1 JsMap.empty.

Record TokenInfo := mkTokenInfo {
  ti_address : string;
  ti_priceUsd : float
}.

(** [tokenCount] only ever holds a small whole number and stays a [Z]. *)
Record HolderSummary := mkHolderSummary {
  hs_address : string;
  hs_tokenCount : Z;
  hs_holdings : JsMap.t TokenHolder;
  hs_totalValueUsd : float
}.

(** [holder.valueUsd || 0]. *)
Definition valueOr0 (v : option float) : float :=
  match v with Some x => or0 x | None => 0%float end.

(** Body of [holders.forEach] in [findHoldersWithMinTokens]; the [None]
    branch stands for the non-null assertion and is never taken. *)
Definition tally (tokenAddress : string) (holderCounts : JsMap.t HolderSummary)
    (holder : TokenHolder) : JsMap.t HolderSummary :=
  let holderCounts1 :=
    if negb (JsMap.has holderCounts (th_address holder)) then
      JsMap.set holderCounts (th_address holder)
        (mkHolderSummary (th_address holder) 0 JsMap.empty 0%float)
    else holderCounts in
  match JsMap.get holderCounts1 (th_address holder) with
  | Some summary =>
      JsMap.set holderCounts1 (th_address holder)
        (mkHolderSummary (hs_address summary)
           (hs_tokenCount summary + 1)
           (JsMap.set (hs_holdings summary) tokenAddress holder)
           (PrimFloat.add (hs_totalValueUsd summary)
              (valueOr0 (th_valueUsd holder))))
  | None => holderCounts1
  end.

(** The [for (const token of tokens)] loop. *)
Fixpoint forTokens (tokens : list TokenInfo) (rs : list Response)
    (holderDetails : JsMap.t (list TokenHolder))
    (holderCounts : JsMap.t HolderSummary)
    : Outcome (JsMap.t (list TokenHolder) * JsMap.t HolderSummary)
      * list Response :=
  match tokens with
  | [] => (Returned (holderDetails, holderCounts), rs)
  | token :: tokens' =>
      match getTokenHolders (ti_priceUsd token) rs with
      | (Returned holders, rs') =>
          forTokens tokens' rs'
            (JsMap.set holderDetails (ti_address token) holders)
            (fold_left (tally (ti_address token)) holders holderCounts)
      | (Thrown e, rs') => (Thrown e, rs')
      | (Stalled, rs') => (Stalled, rs')
      end
  end.

(** [(a, b) => b.totalValueUsd - a.totalValueUsd], as [cmp(a, b) <= 0]. *)
Definition byTotalValueDesc (a b : HolderSummary) : bool :=
  let v := PrimFloat.sub (hs_totalValueUsd b) (hs_totalValueUsd a) in
  isNaN v || PrimFloat.leb v 0%float.

Definition qualify (minTokensRequired : Z) (holderCounts : JsMap.t HolderSummary)
    : list HolderSummary :=
  array_sort byTotalValueDesc
    (filter (fun summary => hs_tokenCount summary >=? minTokensRequired)
       (JsMap.values holderCounts)).

Definition findHoldersWithMinTokens (tokens : list TokenInfo)
    (minTokensRequired : Z) (rs : list Response)
    : Outcome (list HolderSummary * JsMap.t (list TokenHolder))
      * list Response :=
  if minTokensRequired >? Z.of_nat (List.length tokens) then
    (Thrown ConfigError, rs)
  else
    match forTokens tokens rs JsMap.empty JsMap.empty with
    | (Returned (holderDetails, holderCounts), rs') =>
        (Returned (qualify minTokensRequired holderCounts, holderDetails), rs')
    | (Thrown e, rs') => (Thrown e, rs')
    | (Stalled, rs') => (Stalled, rs')
    end.

End Script.

(** part_000 *)
Module Part000.

Definition accumulate (holders : JsMap.t float) (account : TokenAccount)
    : JsMap.t float :=
  let currentAmount :=
    match JsMap.get holders (ta_owner account) with
    | Some x => or0 x
    | None => 0%float
    end in
  JsMap.set holders (ta_owner account)
    (PrimFloat.add currentAmount (ta_amount account)).

Definition iteration (page : Z) (holders : JsMap.t float)
    (response : Response) : Step (JsMap.t float) :=
  if negb (ok response) then Throw (HttpError (status response))
  else
    match result response with
    | None => Break
    | Some token_accounts =>
        if Z.of_nat (List.length token_accounts) =? 0 then Break
        else Continue (page + 1) (fold_left accumulate token_accounts holders)
    end.

Fixpoint fetchLoop (rs : list Response) (page : Z) (holders : JsMap.t float)
    : Outcome (list TokenHolder) * list Response :=
  match rs with
  | [] => (Stalled, [])
  | response :: rs' =>
      match iteration page holders response with
      | Continue page' holders' => fetchLoop rs' page' holders'
      | Break =>
          let holderArray :=
            map (fun e => mkTokenHolder (fst e) (snd e) None) holders in
          (Returned (array_sort byAmountDesc holderArray), rs')
      | Throw e => (Thrown e, rs')
      end
  end.

Definition getTokenHolders (rs : list Response)
    : Outcome (list TokenHolder) * list Response :=
  fetchLoop rs 1 JsMap.empty.

End Part000.

(** Classification of responses, as for the exact model. *)
Definition isRateLimited (r : Response) : bool :=
  negb (ok r) && (status r =? 429).
Definition isEndPage (r : Response) : bool :=
  ok r && match result r with
          | None => true
          | Some accts => (Z.of_nat (List.length accts) =? 0)
          end.
Definition isDataPage (r : Response) : bool :=
  ok r && match result r with
          | None => false
          | Some accts => negb (Z.of_nat (List.length accts) =? 0)
          end.
Definition pageRecords (r : Response) : list TokenAccount :=
  if isDataPage r then match result r with Some a => a | None => [] end else [].

(** The running total of owner [a] over records taken in order: each of its
    records is added, in double arithmetic, to the total so far, a total of
    [0] or [NaN] counting as [0].  [None] while [a] owns no record. *)
Definition addRecord (total : option float) (amount : float) : float :=
  PrimFloat.add
    (or0 (match total with Some x => x | None => 0%float end)) amount.

Definition runningBalance (a : string) (recs : list TokenAccount)
    : option float :=
  fold_left
    (fun total r =>
       if String.eqb (ta_owner r) a then Some (addRecord total (ta_amount r))
       else total)
    recs None.

(** The rational number a finite double stands for. *)
Definition exactQ (x : float) : option Q :=
  match Prim2SF x with
  | S754_zero _ => Some 0%Q
  | S754_finite s m e =>
      let n := if s then Z.neg m else Z.pos m in
      Some (Qred match e with
                 | Z0 => inject_Z n
                 | Zpos p => inject_Z (n * 2 ^ Zpos p)
                 | Zneg p => Qmake n (2 ^ p)
                 end)
  | S754_infinity _ => None
  | S754_nan => None
  end.

(** The exact sum of the amounts of the records owned by [a]. *)
Fixpoint exactOwnedSum (a : string) (recs : list TokenAccount) : option Q :=
  match recs with
  | [] => Some 0%Q
  | r :: recs' =>
      match exactOwnedSum a recs' with
      | None => None
      | Some s =>
          if String.eqb (ta_owner r) a then
            match exactQ (ta_amount r) with
            | Some x => Some (Qred (x + s))
            | None => None
            end
          else Some s
      end
  end.



End Doubles.

(* ------------------------------------------------------------------ *)
(** ** Sample data *)

Module Sample.

Definition account (owner : string) (amount : Z) : TokenAccount :=
  mkTokenAccount ("acct-" ++ owner)%string "MintA" owner amount.

Definition page1 : Response :=
  mkResponse 200 (Some [account "x" 100; account "y" 50; account "x" 5]).
Definition page2 : Response :=
  mkResponse 200 (Some [account "z" 7; account "y" 1]).
Definition zeroPage : Response := mkResponse 200 (Some [account "x" 0]).
Definition endPage : Response := mkResponse 200 (Some []).
Definition noResult : Response := mkResponse 200 None.
Definition tooMany : Response := mkResponse 429 None.
Definition serverError : Response := mkResponse 500 None.

Definition price : Q := 21 # 10000.

Definition daccount (owner : string) (amount : float) : Doubles.TokenAccount :=
  Doubles.mkTokenAccount ("acct-" ++ owner)%string "MintA" owner amount.

Definition dpage1 : Doubles.Response :=
  Doubles.mkResponse 200
    (Some [daccount "x" 9007199254740992%float; daccount "y" 100%float;
           daccount "x" 1%float]).
Definition dpage2 : Doubles.Response :=
  Doubles.mkResponse 200 (Some [daccount "y" 5%float; daccount "z" 7%float]).
Definition dendPage : Doubles.Response := Doubles.mkResponse 200 (Some []).
Definition dtooMany : Doubles.Response := Doubles.mkResponse 429 None.

Definition dprice : float := 0.0021%float.


Definition tokenA : Script.TokenInfo := Script.mkTokenInfo "MintA" (21 # 10000).
Definition tokenB : Script.TokenInfo := Script.mkTokenInfo "MintB" (25 # 10000).
Definition tokenC : Script.TokenInfo := Script.mkTokenInfo "MintC" (10 # 10000).

End Sample.

(* ------------------------------------------------------------------ *)
(** ** Facts about the runtime pieces *)

Section JsMapFacts.
Variable V : Type.
Implicit Types (m : JsMap.t V) (k : string) (v : V).

Lemma get_set_same m k v : JsMap.get (JsMap.set m k v) k = Some v.
Proof.
  induction m as [|[k' v'] m IH]; simpl.
  - now rewrite String.eqb_refl.
  - destruct (String.eqb k' k) eqn:E; simpl.
    + now rewrite String.eqb_refl.
    + now rewrite E.
Qed.

Lemma get_set_other m k k' v :
  k <> k' -> JsMap.get (JsMap.set m k v) k' = JsMap.get m k'.
Proof.
  intros Hne. induction m as [|[k0 v0] m IH]; simpl.
  - apply String.eqb_neq in Hne. now rewrite Hne.
  - destruct (String.eqb k0 k) eqn:E; simpl.
    + apply String.eqb_eq in E. subst k0.
      apply String.eqb_neq in Hne. now rewrite Hne.
    + now rewrite IH.
Qed.

Lemma keys_set m k v :
  JsMap.keys (JsMap.set m k v) =
  if JsMap.has m k then JsMap.keys m else (JsMap.keys m ++ [k])%list.
Proof.
  unfold JsMap.has, JsMap.keys.
  induction m as [|[k' v'] m IH]; simpl; auto.
  destruct (String.eqb k' k) eqn:E; simpl.
  - apply String.eqb_eq in E. now subst.
  - rewrite IH. now destruct (JsMap.get m k).
Qed.

Lemma has_In m k : JsMap.has m k = true <-> In k (JsMap.keys m).
Proof.
  unfold JsMap.has, JsMap.keys.
  induction m as [|[k' v'] m IH]; simpl.
  - split; [discriminate | tauto].
  - destruct (String.eqb k' k) eqn:E.
    + apply String.eqb_eq in E. tauto.
    + apply String.eqb_neq in E. rewrite IH. tauto.
Qed.

Lemma has_false_notin m k : JsMap.has m k = false <-> ~ In k (JsMap.keys m).
Proof.
  rewrite <- has_In. destruct (JsMap.has m k); split; congruence.
Qed.

Lemma In_keys_set m k v a :
  In a (JsMap.keys (JsMap.set m k v)) <-> a = k \/ In a (JsMap.keys m).
Proof.
  rewrite keys_set. destruct (JsMap.has m k) eqn:H.
  - apply has_In in H. split; [tauto|]. intros [->|]; auto.
  - rewrite in_app_iff. simpl. split; intros; intuition.
Qed.

Lemma NoDup_keys_set m k v :
  NoDup (JsMap.keys m) -> NoDup (JsMap.keys (JsMap.set m k v)).
Proof.
  intros Hnd. rewrite keys_set. destruct (JsMap.has m k) eqn:H; auto.
  apply has_false_notin in H.
  rewrite <- (rev_involutive (JsMap.keys m ++ [k])). apply NoDup_rev.
  rewrite rev_app_distr. simpl. constructor.
  - now rewrite <- in_rev.
  - now apply NoDup_rev.
Qed.

Lemma get_Some_In m k v : JsMap.get m k = Some v -> In (k, v) m.
Proof.
  induction m as [|[k' v'] m IH]; simpl; [discriminate|].
  destruct (String.eqb k' k) eqn:E.
  - apply String.eqb_eq in E. intros [= ->]. subst. now left.
  - auto.
Qed.

Lemma In_get_Some m k v :
  NoDup (JsMap.keys m) -> In (k, v) m -> JsMap.get m k = Some v.
Proof.
  unfold JsMap.keys.
  induction m as [|[k' v'] m IH]; simpl; [tauto|].
  intros Hnd [Heq|Hin].
  - inversion Heq; subst. now rewrite String.eqb_refl.
  - inversion Hnd; subst.
    destruct (String.eqb k' k) eqn:E.
    + apply String.eqb_eq in E. subst.
      exfalso. apply H1. apply in_map_iff. now exists (k, v).
    + auto.
Qed.

Lemma get_None_notin m k : JsMap.get m k = None <-> ~ In k (JsMap.keys m).
Proof.
  rewrite <- has_false_notin. unfold JsMap.has.
  destruct (JsMap.get m k); split; congruence.
Qed.
End JsMapFacts.

Section StableSortFacts.
Variable A : Type.
Variable le : A -> A -> bool.

Lemma sort_insert_perm x l : Permutation (x :: l) (sort_insert le x l).
Proof.
  induction l as [|y l IH]; simpl; auto.
  destruct (le x y); auto.
  rewrite perm_swap. now constructor.
Qed.

Lemma array_sort_perm l : Permutation l (array_sort le l).
Proof.
  induction l as [|x l IH]; simpl; auto.
  rewrite <- sort_insert_perm. now constructor.
Qed.

Lemma array_sort_In l x : In x (array_sort le l) <-> In x l.
Proof.
  split; apply Permutation_in;
    [symmetry|]; apply array_sort_perm.
Qed.

Hypothesis le_total : forall a b, le a b = false -> le b a = true.
Hypothesis le_trans : forall a b c,
  le a b = true -> le b c = true -> le a c = true.


End StableSortFacts.

Lemma or0_id x : or0 x = x.
Proof. unfold or0. destruct (Z.eqb_spec x 0); congruence. Qed.

Lemma qor0_eq x : (qor0 x == x)%Q.
Proof.
  unfold qor0. destruct (Qeq_bool x 0) eqn:E; [|reflexivity].
  apply Qeq_bool_iff in E. now symmetry.
Qed.

Lemma before_nil A (r : Run A) : before [] r = r.
Proof. now destruct r. Qed.

Lemma before_before A (e1 e2 : list Event) (r : Run A) :
  before e1 (before e2 r) = before (e1 ++ e2) r.
Proof. unfold before. simpl. now rewrite app_assoc. Qed.

Lemma requestedPages_app e1 e2 :
  requestedPages (e1 ++ e2) = (requestedPages e1 ++ requestedPages e2)%list.
Proof. unfold requestedPages. now rewrite flat_map_app. Qed.

Lemma ownedSum_app a l1 l2 :
  ownedSum a (l1 ++ l2) = ownedSum a l1 + ownedSum a l2.
Proof. induction l1; simpl; lia. Qed.

Lemma ownedSum_notin a recs : ~ In a (map ta_owner recs) -> ownedSum a recs = 0.
Proof.
  induction recs as [|r recs IH]; simpl; auto.
  intros H. destruct (String.eqb_spec (ta_owner r) a); [tauto|].
  rewrite IH; tauto.
Qed.

Lemma pagesFrom_cons p r script :
  pagesFrom p (r :: script) =
  p :: pagesFrom (if isDataPage r then p + 1 else p) script.
Proof.
  unfold pagesFrom. simpl. f_equal; [lia|].
  rewrite <- seq_shift, map_map. apply map_ext. intros j. simpl.
  destruct (isDataPage r); simpl; lia.
Qed.

Lemma pagesFrom_app p s1 s2 :
  pagesFrom p (s1 ++ s2) =
  (pagesFrom p s1 ++
   pagesFrom (p + Z.of_nat (List.length (filter isDataPage s1))) s2)%list.
Proof.
  revert p. induction s1 as [|r s1 IH]; intros p.
  - simpl. f_equal. lia.
  - rewrite <- app_comm_cons, !pagesFrom_cons, IH. simpl. do 3 f_equal.
    destruct (isDataPage r); simpl; lia.
Qed.

(* ------------------------------------------------------------------ *)
(** ** The fetcher of script.ts *)

Section ScriptFetcher.
Variable mintAddress : string.
Variable priceUsd : Q.

(** The holder map after the records [recs] have been accumulated. *)
Record HoldersInv (holders : JsMap.t TokenHolder) (recs : list TokenAccount)
    : Prop := {
  inv_nodup : NoDup (JsMap.keys holders);
  inv_keys : forall a, In a (JsMap.keys holders) <-> In a (map ta_owner recs);
  inv_entry : forall a h, JsMap.get holders a = Some h ->
    th_address h = a /\ th_amount h = ownedSum a recs /\
    th_valueUsd h = Some (inject_Z (th_amount h) * priceUsd)%Q
}.

Lemma HoldersInv_empty : HoldersInv JsMap.empty [].
Proof. split; simpl; [constructor | tauto | discriminate]. Qed.

Lemma accumulate_inv holders recs account :
  HoldersInv holders recs ->
  HoldersInv (Script.accumulate priceUsd holders account) (recs ++ [account]).
Proof.
  intros [Hnd Hkeys Hentry]. unfold Script.accumulate. split.
  - now apply NoDup_keys_set.
  - intros a. rewrite In_keys_set, map_app, in_app_iff, Hkeys. simpl.
    intuition.
  - intros a h. destruct (String.eqb_spec (ta_owner account) a) as [<-|Hne].
    + rewrite get_set_same. intros [= <-]. simpl.
      rewrite ownedSum_app, or0_id. simpl. rewrite String.eqb_refl.
      repeat split.
      destruct (JsMap.get holders (ta_owner account)) as [h0|] eqn:G.
      * destruct (Hentry _ _ G) as (_ & -> & _). lia.
      * apply get_None_notin in G. rewrite Hkeys in G.
        rewrite ownedSum_notin by assumption. lia.
    + rewrite get_set_other by assumption. intros G.
      destruct (Hentry _ _ G) as (Ha & Hb & Hc).
      rewrite ownedSum_app. simpl.
      apply String.eqb_neq in Hne. rewrite Hne. repeat split; auto. lia.
Qed.

Lemma accumulate_all_inv accts holders recs :
  HoldersInv holders recs ->
  HoldersInv (fold_left (Script.accumulate priceUsd) accts holders)
    (recs ++ accts).
Proof.
  revert holders recs. induction accts as [|a accts IH]; intros holders recs H.
  - now rewrite app_nil_r.
  - simpl. replace (recs ++ a :: accts)%list with ((recs ++ [a]) ++ accts)%list
      by now rewrite <- app_assoc.
    apply IH. now apply accumulate_inv.
Qed.

Lemma iteration_data page holders r :
  isDataPage r = true ->
  Script.iteration priceUsd page holders r =
  Script.Continue (page + 1)
    (fold_left (Script.accumulate priceUsd) (pageRecords r) holders) [].
Proof.
  unfold pageRecords. intros H. rewrite H. revert H.
  unfold isDataPage, Script.iteration.
  destruct (ok r); simpl; [|discriminate].
  destruct (result r) as [accts|]; [|discriminate].
  now destruct (Z.of_nat (List.length accts) =? 0).
Qed.

Lemma iteration_rate_limited page holders r :
  isRateLimited r = true ->
  Script.iteration priceUsd page holders r =
  Script.Continue page holders [Sleep 1000].
Proof.
  unfold isRateLimited, Script.iteration.
  destruct (ok r); simpl; [discriminate|]. now intros ->.
Qed.

Lemma iteration_end page holders r :
  isEndPage r = true -> Script.iteration priceUsd page holders r = Script.Break.
Proof.
  unfold isEndPage, Script.iteration.
  destruct (ok r); simpl; [|discriminate].
  destruct (result r) as [accts|]; auto. now intros ->.
Qed.

Lemma iteration_fatal page holders r :
  isFatal r = true ->
  Script.iteration priceUsd page holders r = Script.Throw (HttpError (status r)).
Proof.
  unfold isFatal, Script.iteration.
  destruct (ok r); simpl; [discriminate|].
  now destruct (status r =? 429).
Qed.

Lemma rate_limited_not_data r : isRateLimited r = true -> isDataPage r = false.
Proof. unfold isRateLimited, isDataPage. now destruct (ok r). Qed.

(** A prefix of record pages and 429 responses is consumed whole: the loop
    continues on the remaining script with the page counter advanced once
    per record page and every record accumulated. *)
Lemma fetchLoop_prefix rs : forall tail page holders,
  Forall (fun r => isDataPage r || isRateLimited r = true) rs ->
  exists evs,
    Script.fetchLoop mintAddress priceUsd (rs ++ tail) page holders =
    before evs
      (Script.fetchLoop mintAddress priceUsd tail
         (page + Z.of_nat (List.length (filter isDataPage rs)))
         (fold_left (Script.accumulate priceUsd) (flat_map pageRecords rs)
            holders)) /\
    requestedPages evs = pagesFrom page rs.
Proof.
  induction rs as [|r rs IH]; intros tail page holders HF.
  - exists []. simpl. rewrite before_nil, Z.add_0_r. auto.
  - inversion HF as [|? ? Hr HF']; subst.
    rewrite <- app_comm_cons, pagesFrom_cons.
    cbn [Script.fetchLoop flat_map filter].
    destruct (isDataPage r) eqn:D.
    + rewrite iteration_data by assumption.
      destruct (IH tail (page + 1) (fold_left (Script.accumulate priceUsd)
                  (pageRecords r) holders) HF') as (evs & -> & Hp).
      exists (Request mintAddress page :: evs).
      rewrite before_nil, before_before, fold_left_app. simpl.
      rewrite Hp. split; [|reflexivity].
      do 2 f_equal. lia.
    + simpl in Hr. rewrite iteration_rate_limited by assumption.
      destruct (IH tail page holders HF') as (evs & -> & Hp).
      exists (Request mintAddress page :: Sleep 1000 :: evs).
      rewrite !before_before. simpl. rewrite Hp. split; [|reflexivity].
      unfold pageRecords. rewrite D. reflexivity.
Qed.
End ScriptFetcher.

Section ScriptFetcherResult.
Variable priceUsd : Q.

Lemma holder_addresses_keys holders recs :
  HoldersInv priceUsd holders recs ->
  map th_address (JsMap.values holders) = JsMap.keys holders.
Proof.
  intros [Hnd _ Hentry]. unfold JsMap.values, JsMap.keys.
  rewrite map_map. apply map_ext_in. intros [k h] Hin. simpl.
  apply In_get_Some in Hin; auto. now destruct (Hentry _ _ Hin).
Qed.

(** What the sorted array built from the final map contains. *)
Lemma returned_holders holders recs :
  HoldersInv priceUsd holders recs ->
  let hs := array_sort Script.byAmountDesc (JsMap.values holders) in
  NoDup (map th_address hs) /\
  (forall a, In a (map th_address hs) <-> In a (map ta_owner recs)) /\
  (forall h, In h hs ->
     th_amount h = ownedSum (th_address h) recs /\
     th_valueUsd h = Some (inject_Z (th_amount h) * priceUsd)%Q).
Proof.
  intros Inv hs.
  assert (P : Permutation (JsMap.keys holders) (map th_address hs)).
  { rewrite <- (holder_addresses_keys Inv).
    apply Permutation_map, array_sort_perm. }
  destruct Inv as [Hnd Hkeys Hentry]. repeat split.
  - eapply Permutation_NoDup; eauto.
  - intros H. apply Hkeys. eapply Permutation_in; [symmetry|]; eauto.
  - intros H. apply Hkeys in H. eapply Permutation_in; eauto.
  - apply array_sort_In in H. unfold JsMap.values in H.
    apply in_map_iff in H. destruct H as ([k h'] & <- & Hin). simpl.
    apply In_get_Some in Hin; auto.
    destruct (Hentry _ _ Hin) as (-> & ? & ?). auto.
  - apply array_sort_In in H. unfold JsMap.values in H.
    apply in_map_iff in H. destruct H as ([k h'] & <- & Hin). simpl.
    apply In_get_Some in Hin; auto.
    destruct (Hentry _ _ Hin) as (? & ? & ?). auto.
Qed.

(** A script of record pages and 429 responses closed by an end page makes
    the fetcher return; the run is described in full. *)
Lemma getTokenHolders_returns mintAddress rs term tail :
  Forall (fun r => isDataPage r || isRateLimited r = true) rs ->
  isEndPage term = true ->
  exists evs,
    Script.getTokenHolders mintAddress priceUsd (rs ++ term :: tail) =
    mkRun
      (Returned (array_sort Script.byAmountDesc
         (JsMap.values (fold_left (Script.accumulate priceUsd)
            (flat_map pageRecords rs) JsMap.empty))))
      evs tail /\
    requestedPages evs = pagesFrom 1 (rs ++ [term]).
Proof.
  intros HF Hterm. unfold Script.getTokenHolders.
  destruct (fetchLoop_prefix mintAddress priceUsd (term :: tail) 1
              JsMap.empty HF) as (evs & -> & Hp).
  cbn [Script.fetchLoop]. rewrite iteration_end by assumption.
  eexists. unfold before. simpl. split; [reflexivity|].
  rewrite requestedPages_app, Hp, pagesFrom_app. simpl.
  unfold pagesFrom. simpl. do 3 f_equal. lia.
Qed.

Lemma fetched_inv rs :
  HoldersInv priceUsd
    (fold_left (Script.accumulate priceUsd) (flat_map pageRecords rs)
       JsMap.empty)
    (flat_map pageRecords rs).
Proof.
  apply (accumulate_all_inv (flat_map pageRecords rs) (HoldersInv_empty priceUsd)).
Qed.
End ScriptFetcherResult.

(* ------------------------------------------------------------------ *)
(** ** The fetcher of part_000 *)

Section Part000Fetcher.
Variable mintAddress : string.

Record AmountsInv (holders : JsMap.t Z) (recs : list TokenAccount) : Prop := {
  ainv_nodup : NoDup (JsMap.keys holders);
  ainv_keys : forall a, In a (JsMap.keys holders) <-> In a (map ta_owner recs);
  ainv_entry : forall a x, JsMap.get holders a = Some x -> x = ownedSum a recs
}.

Lemma AmountsInv_empty : AmountsInv JsMap.empty [].
Proof. split; simpl; [constructor | tauto | discriminate]. Qed.

Lemma accumulate0_inv holders recs account :
  AmountsInv holders recs ->
  AmountsInv (Part000.accumulate holders account) (recs ++ [account]).
Proof.
  intros [Hnd Hkeys Hentry]. unfold Part000.accumulate. split.
  - now apply NoDup_keys_set.
  - intros a. rewrite In_keys_set, map_app, in_app_iff, Hkeys. simpl.
    intuition.
  - intros a x. destruct (String.eqb_spec (ta_owner account) a) as [<-|Hne].
    + rewrite get_set_same. intros [= <-].
      rewrite ownedSum_app. simpl. rewrite String.eqb_refl.
      destruct (JsMap.get holders (ta_owner account)) as [x0|] eqn:G.
      * rewrite or0_id, (Hentry _ _ G). lia.
      * apply get_None_notin in G. rewrite Hkeys in G.
        rewrite ownedSum_notin by assumption. lia.
    + rewrite get_set_other by assumption. intros G.
      rewrite ownedSum_app, (Hentry _ _ G). simpl.
      apply String.eqb_neq in Hne. rewrite Hne. lia.
Qed.

Lemma accumulate0_all_inv accts holders recs :
  AmountsInv holders recs ->
  AmountsInv (fold_left Part000.accumulate accts holders) (recs ++ accts).
Proof.
  revert holders recs. induction accts as [|a accts IH]; intros holders recs H.
  - now rewrite app_nil_r.
  - simpl. replace (recs ++ a :: accts)%list with ((recs ++ [a]) ++ accts)%list
      by now rewrite <- app_assoc.
    apply IH. now apply accumulate0_inv.
Qed.

Lemma iteration0_data page holders r :
  isDataPage r = true ->
  Part000.iteration page holders r =
  Part000.Continue (page + 1)
    (fold_left Part000.accumulate (pageRecords r) holders).
Proof.
  unfold pageRecords. intros H. rewrite H. revert H.
  unfold isDataPage, Part000.iteration.
  destruct (ok r); simpl; [|discriminate].
  destruct (result r) as [accts|]; [|discriminate].
  now destruct (Z.of_nat (List.length accts) =? 0).
Qed.

Lemma iteration0_end page holders r :
  isEndPage r = true -> Part000.iteration page holders r = Part000.Break.
Proof.
  unfold isEndPage, Part000.iteration.
  destruct (ok r); simpl; [|discriminate].
  destruct (result r) as [accts|]; auto. now intros ->.
Qed.

Lemma iteration0_not_ok page holders r :
  ok r = false ->
  Part000.iteration page holders r = Part000.Throw (HttpError (status r)).
Proof. unfold Part000.iteration. now intros ->. Qed.

Lemma fetchLoop0_prefix rs : forall tail page holders,
  Forall (fun r => isDataPage r = true) rs ->
  exists evs,
    Part000.fetchLoop mintAddress (rs ++ tail) page holders =
    before evs
      (Part000.fetchLoop mintAddress tail (page + Z.of_nat (List.length rs))
         (fold_left Part000.accumulate (flat_map pageRecords rs) holders)) /\
    requestedPages evs = pagesFrom page rs.
Proof.
  induction rs as [|r rs IH]; intros tail page holders HF.
  - exists []. simpl. rewrite before_nil, Z.add_0_r. auto.
  - inversion HF as [|? ? Hr HF']; subst.
    rewrite <- app_comm_cons, pagesFrom_cons, Hr.
    cbn [Part000.fetchLoop flat_map]. rewrite iteration0_data by assumption.
    destruct (IH tail (page + 1)
                (fold_left Part000.accumulate (pageRecords r) holders) HF')
      as (evs & -> & Hp).
    exists (Request mintAddress page :: evs).
    rewrite before_before, fold_left_app. simpl. rewrite Hp.
    split; [|reflexivity]. do 2 f_equal. lia.
Qed.

Lemma all_data_count rs :
  Forall (fun r => isDataPage r = true) rs ->
  List.length (filter isDataPage rs) = List.length rs.
Proof.
  induction 1 as [|r rs Hr _ IH]; simpl; auto. rewrite Hr. simpl. now rewrite IH.
Qed.

Lemma getTokenHolders0_returns rs term tail :
  Forall (fun r => isDataPage r = true) rs ->
  isEndPage term = true ->
  exists evs,
    Part000.getTokenHolders mintAddress (rs ++ term :: tail) =
    mkRun
      (Returned (array_sort Part000.byAmountDesc
         (map (fun e => mkTokenHolder (fst e) (snd e) None)
            (fold_left Part000.accumulate (flat_map pageRecords rs)
               JsMap.empty))))
      evs tail /\
    requestedPages evs = pagesFrom 1 (rs ++ [term]).
Proof.
  intros HF Hterm. unfold Part000.getTokenHolders.
  destruct (fetchLoop0_prefix (term :: tail) 1 JsMap.empty HF)
    as (evs & -> & Hp).
  cbn [Part000.fetchLoop]. rewrite iteration0_end by assumption.
  eexists. unfold before. simpl. split; [reflexivity|].
  rewrite requestedPages_app, Hp, pagesFrom_app, (all_data_count HF). simpl.
  unfold pagesFrom. simpl. do 3 f_equal. lia.
Qed.

Lemma returned_holders0 holders recs :
  AmountsInv holders recs ->
  let hs := array_sort Part000.byAmountDesc
              (map (fun e => mkTokenHolder (fst e) (snd e) None) holders) in
  NoDup (map th_address hs) /\
  (forall a, In a (map th_address hs) <-> In a (map ta_owner recs)) /\
  (forall h, In h hs -> th_amount h = ownedSum (th_address h) recs).
Proof.
  intros [Hnd Hkeys Hentry] hs.
  assert (P : Permutation (JsMap.keys holders) (map th_address hs)).
  { replace (JsMap.keys holders) with
      (map th_address (map (fun e => mkTokenHolder (fst e) (snd e) None) holders)).
    - apply Permutation_map, array_sort_perm.
    - rewrite map_map. reflexivity. }
  repeat split.
  - eapply Permutation_NoDup; eauto.
  - intros H. apply Hkeys. eapply Permutation_in; [symmetry|]; eauto.
  - intros H. apply Hkeys in H. eapply Permutation_in; eauto.
  - intros h H. apply array_sort_In in H.
    apply in_map_iff in H. destruct H as ([k x] & <- & Hin). simpl.
    apply In_get_Some in Hin; auto.
Qed.
End Part000Fetcher.

(* ------------------------------------------------------------------ *)
(** ** Holder Fetcher: accumulation, pagination, status handling *)

Unset Implicit Arguments.

(** *** Accumulation in double arithmetic *)

Lemma runningBalance_snoc a recs r :
  Doubles.runningBalance a (recs ++ [r]) =
  if String.eqb (Doubles.ta_owner r) a
  then Some (Doubles.addRecord (Doubles.runningBalance a recs)
               (Doubles.ta_amount r))
  else Doubles.runningBalance a recs.
Proof. unfold Doubles.runningBalance. now rewrite fold_left_app. Qed.

Lemma runningBalance_notin a recs :
  ~ In a (map Doubles.ta_owner recs) -> Doubles.runningBalance a recs = None.
Proof.
  induction recs as [|r recs IH] using rev_ind; intros H; [reflexivity|].
  rewrite runningBalance_snoc.
  rewrite map_app, in_app_iff in H. simpl in H.
  destruct (String.eqb_spec (Doubles.ta_owner r) a); [tauto|].
  apply IH. tauto.
Qed.

Section DoubleScriptFetcher.
Variable priceUsd : float.

(** The holder map of script.ts after the records [recs] have been
    accumulated, in this order. *)
Record DoubleHoldersInv (holders : JsMap.t Doubles.TokenHolder)
    (recs : list Doubles.TokenAccount) : Prop := {
  dinv_nodup : NoDup (JsMap.keys holders);
  dinv_keys : forall a,
    In a (JsMap.keys holders) <-> In a (map Doubles.ta_owner recs);
  dinv_entry : forall a h, JsMap.get holders a = Some h ->
    Doubles.th_address h = a /\
    Doubles.runningBalance a recs = Some (Doubles.th_amount h) /\
    Doubles.th_valueUsd h = Some (PrimFloat.mul (Doubles.th_amount h) priceUsd)
}.

Lemma DoubleHoldersInv_empty : DoubleHoldersInv JsMap.empty [].
Proof. split; simpl; [constructor | tauto | discriminate]. Qed.

Lemma accumulate_double_inv holders recs account :
  DoubleHoldersInv holders recs ->
  DoubleHoldersInv (Doubles.Script.accumulate priceUsd holders account)
    (recs ++ [account]).
Proof.
  intros [Hnd Hkeys Hentry]. unfold Doubles.Script.accumulate. split.
  - now apply NoDup_keys_set.
  - intros a. rewrite In_keys_set, map_app, in_app_iff, Hkeys. simpl.
    intuition.
  - intros a h. rewrite runningBalance_snoc.
    destruct (String.eqb_spec (Doubles.ta_owner account) a) as [<-|Hne].
    + rewrite get_set_same. intros [= <-]. simpl.
      repeat split. f_equal. unfold Doubles.addRecord.
      destruct (JsMap.get holders (Doubles.ta_owner account)) as [h0|] eqn:G.
      * destruct (Hentry _ _ G) as (_ & -> & _). reflexivity.
      * apply get_None_notin in G. rewrite Hkeys in G.
        now rewrite runningBalance_notin.
    + rewrite get_set_other by assumption. intros G.
      exact (Hentry _ _ G).
Qed.

Lemma accumulate_double_all_inv accts holders recs :
  DoubleHoldersInv holders recs ->
  DoubleHoldersInv (fold_left (Doubles.Script.accumulate priceUsd) accts holders)
    (recs ++ accts).
Proof.
  revert holders recs. induction accts as [|a accts IH]; intros holders recs H.
  - now rewrite app_nil_r.
  - simpl. replace (recs ++ a :: accts)%list with ((recs ++ [a]) ++ accts)%list
      by now rewrite <- app_assoc.
    apply IH. now apply accumulate_double_inv.
Qed.

Lemma iteration_double_data page holders r :
  Doubles.isDataPage r = true ->
  Doubles.Script.iteration priceUsd page holders r =
  Doubles.Continue (page + 1)
    (fold_left (Doubles.Script.accumulate priceUsd) (Doubles.pageRecords r)
       holders).
Proof.
  unfold Doubles.pageRecords. intros H. rewrite H. revert H.
  unfold Doubles.isDataPage, Doubles.Script.iteration.
  destruct (Doubles.ok r); simpl; [|discriminate].
  destruct (Doubles.result r) as [accts|]; [|discriminate].
  now destruct (Z.of_nat (List.length accts) =? 0).
Qed.

Lemma iteration_double_rate_limited page holders r :
  Doubles.isRateLimited r = true ->
  Doubles.Script.iteration priceUsd page holders r =
  Doubles.Continue page holders.
Proof.
  unfold Doubles.isRateLimited, Doubles.Script.iteration.
  destruct (Doubles.ok r); simpl; [discriminate|]. now intros ->.
Qed.

Lemma iteration_double_end page holders r :
  Doubles.isEndPage r = true ->
  Doubles.Script.iteration priceUsd page holders r = Doubles.Break.
Proof.
  unfold Doubles.isEndPage, Doubles.Script.iteration.
  destruct (Doubles.ok r); simpl; [|discriminate].
  destruct (Doubles.result r) as [accts|]; auto. now intros ->.
Qed.

Lemma rate_limited_double_not_data r :
  Doubles.isRateLimited r = true -> Doubles.isDataPage r = false.
Proof.
  unfold Doubles.isRateLimited, Doubles.isDataPage.
  now destruct (Doubles.ok r).
Qed.

(** Record pages and 429 responses closed by an end page: the loop returns
    the sorted values of the map that has accumulated every record. *)
Lemma fetchLoop_double_returns rs term tail : forall page holders,
  Forall (fun r => Doubles.isDataPage r || Doubles.isRateLimited r = true) rs ->
  Doubles.isEndPage term = true ->
  Doubles.Script.fetchLoop priceUsd (rs ++ term :: tail) page holders =
  (Returned
     (array_sort Doubles.byAmountDesc
        (JsMap.values
           (fold_left (Doubles.Script.accumulate priceUsd)
              (flat_map Doubles.pageRecords rs) holders))),
   tail).
Proof.
  induction rs as [|r rs IH]; intros page holders HF Hterm.
  - simpl. now rewrite iteration_double_end.
  - inversion HF as [|? ? Hr HF']; subst.
    rewrite <- app_comm_cons. cbn [Doubles.Script.fetchLoop flat_map].
    rewrite fold_left_app.
    destruct (Doubles.isDataPage r) eqn:D.
    + rewrite iteration_double_data by assumption. now apply IH.
    + simpl in Hr. rewrite iteration_double_rate_limited by assumption.
      unfold Doubles.pageRecords at 2. rewrite D. simpl. now apply IH.
Qed.

Lemma returned_double_holders holders recs :
  DoubleHoldersInv holders recs ->
  let hs := array_sort Doubles.byAmountDesc (JsMap.values holders) in
  NoDup (map Doubles.th_address hs) /\
  (forall a, In a (map Doubles.th_address hs) <->
             In a (map Doubles.ta_owner recs)) /\
  (forall h, In h hs ->
     Doubles.runningBalance (Doubles.th_address h) recs =
       Some (Doubles.th_amount h) /\
     Doubles.th_valueUsd h =
       Some (PrimFloat.mul (Doubles.th_amount h) priceUsd)).
Proof.
  intros Inv hs.
  assert (K : map Doubles.th_address (JsMap.values holders) =
              JsMap.keys holders).
  { destruct Inv as [Hnd _ Hentry]. unfold JsMap.values, JsMap.keys.
    rewrite map_map. apply map_ext_in. intros [k h] Hin. simpl.
    apply In_get_Some in Hin; auto. now destruct (Hentry _ _ Hin). }
  assert (P : Permutation (JsMap.keys holders) (map Doubles.th_address hs)).
  { rewrite <- K. apply Permutation_map, array_sort_perm. }
  destruct Inv as [Hnd Hkeys Hentry]. split; [|split].
  - eapply Permutation_NoDup; eauto.
  - intros a. rewrite <- Hkeys. split; apply Permutation_in; auto.
    now symmetry.
  - intros h H. apply array_sort_In in H. unfold JsMap.values in H.
    apply in_map_iff in H. destruct H as ([k h'] & <- & Hin). simpl.
    apply In_get_Some in Hin; auto.
    destruct (Hentry _ _ Hin) as (-> & ? & ?). auto.
Qed.
End DoubleScriptFetcher.

Section DoublePart000Fetcher.

(** The amount map of part_000 after the records [recs] have been
    accumulated, in this order. *)
Record DoubleAmountsInv (holders : JsMap.t float)
    (recs : list Doubles.TokenAccount) : Prop := {
  dainv_nodup : NoDup (JsMap.keys holders);
  dainv_keys : forall a,
    In a (JsMap.keys holders) <-> In a (map Doubles.ta_owner recs);
  dainv_entry : forall a x, JsMap.get holders a = Some x ->
    Doubles.runningBalance a recs = Some x
}.

Lemma DoubleAmountsInv_empty : DoubleAmountsInv JsMap.empty [].
Proof. split; simpl; [constructor | tauto | discriminate]. Qed.

Lemma accumulate0_double_inv holders recs account :
  DoubleAmountsInv holders recs ->
  DoubleAmountsInv (Doubles.Part000.accumulate holders account)
    (recs ++ [account]).
Proof.
  intros [Hnd Hkeys Hentry]. unfold Doubles.Part000.accumulate. split.
  - now apply NoDup_keys_set.
  - intros a. rewrite In_keys_set, map_app, in_app_iff, Hkeys. simpl.
    intuition.
  - intros a x. rewrite runningBalance_snoc.
    destruct (String.eqb_spec (Doubles.ta_owner account) a) as [<-|Hne].
    + rewrite get_set_same. intros [= <-]. f_equal.
      unfold Doubles.addRecord.
      destruct (JsMap.get holders (Doubles.ta_owner account)) as [x0|] eqn:G.
      * now rewrite (Hentry _ _ G).
      * apply get_None_notin in G. rewrite Hkeys in G.
        now rewrite runningBalance_notin.
    + rewrite get_set_other by assumption. intros G.
      exact (Hentry _ _ G).
Qed.

Lemma accumulate0_double_all_inv accts holders recs :
  DoubleAmountsInv holders recs ->
  DoubleAmountsInv (fold_left Doubles.Part000.accumulate accts holders)
    (recs ++ accts).
Proof.
  revert holders recs. induction accts as [|a accts IH]; intros holders recs H.
  - now rewrite app_nil_r.
  - simpl. replace (recs ++ a :: accts)%list with ((recs ++ [a]) ++ accts)%list
      by now rewrite <- app_assoc.
    apply IH. now apply accumulate0_double_inv.
Qed.

Lemma iteration0_double_data page holders r :
  Doubles.isDataPage r = true ->
  Doubles.Part000.iteration page holders r =
  Doubles.Continue (page + 1)
    (fold_left Doubles.Part000.accumulate (Doubles.pageRecords r) holders).
Proof.
  unfold Doubles.pageRecords. intros H. rewrite H. revert H.
  unfold Doubles.isDataPage, Doubles.Part000.iteration.
  destruct (Doubles.ok r); simpl; [|discriminate].
  destruct (Doubles.result r) as [accts|]; [|discriminate].
  now destruct (Z.of_nat (List.length accts) =? 0).
Qed.

Lemma iteration0_double_end page holders r :
  Doubles.isEndPage r = true ->
  Doubles.Part000.iteration page holders r = Doubles.Break.
Proof.
  unfold Doubles.isEndPage, Doubles.Part000.iteration.
  destruct (Doubles.ok r); simpl; [|discriminate].
  destruct (Doubles.result r) as [accts|]; auto. now intros ->.
Qed.

Lemma fetchLoop0_double_returns rs term tail : forall page holders,
  Forall (fun r => Doubles.isDataPage r = true) rs ->
  Doubles.isEndPage term = true ->
  Doubles.Part000.fetchLoop (rs ++ term :: tail) page holders =
  (Returned
     (array_sort Doubles.byAmountDesc
        (map (fun e => Doubles.mkTokenHolder (fst e) (snd e) None)
           (fold_left Doubles.Part000.accumulate
              (flat_map Doubles.pageRecords rs) holders))),
   tail).
Proof.
  induction rs as [|r rs IH]; intros page holders HF Hterm.
  - simpl. now rewrite iteration0_double_end.
  - inversion HF as [|? ? Hr HF']; subst.
    rewrite <- app_comm_cons. cbn [Doubles.Part000.fetchLoop flat_map].
    rewrite fold_left_app.
    rewrite iteration0_double_data by assumption. now apply IH.
Qed.

Lemma returned_double_holders0 holders recs :
  DoubleAmountsInv holders recs ->
  let hs :=
    array_sort Doubles.byAmountDesc
      (map (fun e => Doubles.mkTokenHolder (fst e) (snd e) None) holders) in
  NoDup (map Doubles.th_address hs) /\
  (forall a, In a (map Doubles.th_address hs) <->
             In a (map Doubles.ta_owner recs)) /\
  (forall h, In h hs ->
     Doubles.runningBalance (Doubles.th_address h) recs =
       Some (Doubles.th_amount h) /\
     Doubles.th_valueUsd h = None).
Proof.
  intros [Hnd Hkeys Hentry] hs.
  assert (P : Permutation (JsMap.keys holders) (map Doubles.th_address hs)).
  { unfold hs. rewrite <- array_sort_perm, map_map. reflexivity. }
  split; [|split].
  - eapply Permutation_NoDup; eauto.
  - intros a. rewrite <- Hkeys. split; apply Permutation_in; auto.
    now symmetry.
  - intros h H. apply array_sort_In in H.
    apply in_map_iff in H. destruct H as ([k x] & <- & Hin). simpl.
    apply In_get_Some in Hin; auto.
Qed.
End DoublePart000Fetcher.

(** C1, as the code has it.  The numbers of the code are IEEE doubles.
    Whatever pages of records a fetcher run consumes before the end page, it
    returns there, and every owner is returned exactly once.  Each returned
    holder's balance is the running total of its owner's records taken in
    the order received across all those pages: every amount is added, in
    double arithmetic, to the total so far, a total of 0 or NaN counting as
    0.  In script.ts the USD value is the double product of that balance and
    the supplied unit price.  script.ts may see 429 responses among the
    pages; part_000, whose holders carry no USD value, sees record pages
    only. *)
Theorem holder_balance_is_running_double_sum :
  forall price rs term tail,
    Forall (fun r => Doubles.isDataPage r || Doubles.isRateLimited r = true)
      rs ->
    Doubles.isEndPage term = true ->
    (exists hs,
       Doubles.Script.getTokenHolders price (rs ++ term :: tail)
         = (Returned hs, tail) /\
       NoDup (map Doubles.th_address hs) /\
       (forall a,
          In a (map Doubles.th_address hs) <->
          In a (map Doubles.ta_owner (flat_map Doubles.pageRecords rs))) /\
       (forall h, In h hs ->
          Doubles.runningBalance (Doubles.th_address h)
            (flat_map Doubles.pageRecords rs) = Some (Doubles.th_amount h) /\
          Doubles.th_valueUsd h =
            Some (PrimFloat.mul (Doubles.th_amount h) price))) /\
    (Forall (fun r => Doubles.isDataPage r = true) rs ->
     exists hs,
       Doubles.Part000.getTokenHolders (rs ++ term :: tail)
         = (Returned hs, tail) /\
       NoDup (map Doubles.th_address hs) /\
       (forall a,
          In a (map Doubles.th_address hs) <->
          In a (map Doubles.ta_owner (flat_map Doubles.pageRecords rs))) /\
       (forall h, In h hs ->
          Doubles.runningBalance (Doubles.th_address h)
            (flat_map Doubles.pageRecords rs) = Some (Doubles.th_amount h) /\
          Doubles.th_valueUsd h = None)).
Proof.
  intros price rs term tail HF Hterm. split.
  - unfold Doubles.Script.getTokenHolders.
    rewrite (fetchLoop_double_returns price rs term tail 1 JsMap.empty HF Hterm).
    eexists. split; [reflexivity|].
    apply (returned_double_holders price _ (flat_map Doubles.pageRecords rs)).
    apply (accumulate_double_all_inv price (flat_map Doubles.pageRecords rs)
             JsMap.empty [] (DoubleHoldersInv_empty price)).
  - intros HD. unfold Doubles.Part000.getTokenHolders.
    rewrite (fetchLoop0_double_returns rs term tail 1 JsMap.empty HD Hterm).
    eexists. split; [reflexivity|].
    apply (returned_double_holders0 _ (flat_map Doubles.pageRecords rs)).
    apply (accumulate0_double_all_inv (flat_map Doubles.pageRecords rs)
             JsMap.empty [] DoubleAmountsInv_empty).
Qed.

Lemma holder_balance_is_running_double_sum_witness :
  let rs := [Sample.dpage1; Sample.dpage2] in
  let recs := flat_map Doubles.pageRecords rs in
  (exists hs,
     Doubles.Script.getTokenHolders Sample.dprice (rs ++ Sample.dendPage :: [])
       = (Returned hs, []) /\
     NoDup (map Doubles.th_address hs) /\
     (forall a, In a (map Doubles.th_address hs) <->
                In a (map Doubles.ta_owner recs)) /\
     (forall h, In h hs ->
        Doubles.runningBalance (Doubles.th_address h) recs =
          Some (Doubles.th_amount h) /\
        Doubles.th_valueUsd h =
          Some (PrimFloat.mul (Doubles.th_amount h) Sample.dprice))) /\
  (exists hs,
     Doubles.Part000.getTokenHolders (rs ++ Sample.dendPage :: [])
       = (Returned hs, []) /\
     NoDup (map Doubles.th_address hs) /\
     (forall a, In a (map Doubles.th_address hs) <->
                In a (map Doubles.ta_owner recs)) /\
     (forall h, In h hs ->
        Doubles.runningBalance (Doubles.th_address h) recs =
          Some (Doubles.th_amount h) /\
        Doubles.th_valueUsd h = None)).
Proof.
  intros rs recs.
  destruct (holder_balance_is_running_double_sum Sample.dprice rs
              Sample.dendPage []) as [HS HP].
  - repeat constructor.
  - reflexivity.
  - split; [exact HS | apply HP; repeat constructor].
Defined.

(** C1 as stated fails, because the code adds and multiplies doubles.  With
    records of 9007199254740992 and 1 for owner x, the returned balance is
    9007199254740992, not their sum 9007199254740993; and for owner y, with
    balance 105 and a unit price of 0.0021, the returned USD value is not
    the product of the balance and the price. *)
Lemma double_balance_is_not_exact_sum :
  let rs := [Sample.dpage1; Sample.dpage2] in
  let recs := flat_map Doubles.pageRecords rs in
  exists hs hx hy v p,
    Doubles.Script.getTokenHolders Sample.dprice (rs ++ [Sample.dendPage])
      = (Returned hs, []) /\
    In hx hs /\ Doubles.th_address hx = "x" /\
    Doubles.exactQ (Doubles.th_amount hx) = Some (9007199254740992 # 1) /\
    Doubles.exactOwnedSum "x" recs = Some (9007199254740993 # 1) /\
    In hy hs /\ Doubles.th_address hy = "y" /\
    Doubles.exactQ (Doubles.th_amount hy) = Some (105 # 1) /\
    Doubles.exactOwnedSum "y" recs = Some (105 # 1) /\
    Doubles.th_valueUsd hy = Some v /\
    Doubles.exactQ v = Some (3972174871340777 # 18014398509481984) /\
    Doubles.exactQ Sample.dprice = Some p /\
    ~ ((3972174871340777 # 18014398509481984) == (105 # 1) * p)%Q.
Proof.
  intros rs recs.
  exists [Doubles.mkTokenHolder "x" 9007199254740992%float
            (Some (PrimFloat.mul 9007199254740992%float Sample.dprice));
          Doubles.mkTokenHolder "y" 105%float
            (Some (PrimFloat.mul 105%float Sample.dprice));
          Doubles.mkTokenHolder "z" 7%float
            (Some (PrimFloat.mul 7%float Sample.dprice))].
  eexists. eexists. eexists. eexists.
  split; [vm_compute; reflexivity|].
  split; [left; reflexivity|].
  split; [reflexivity|].
  split; [vm_compute; reflexivity|].
  split; [vm_compute; reflexivity|].
  split; [right; left; reflexivity|].
  split; [reflexivity|].
  split; [vm_compute; reflexivity|].
  split; [vm_compute; reflexivity|].
  split; [reflexivity|].
  split; [vm_compute; reflexivity|].
  split; [vm_compute; reflexivity|].
  vm_compute. discriminate.
Qed.

Example sample_fetch :
  outcome (Script.getTokenHolders "MintA" Sample.price
             [Sample.page1; Sample.tooMany; Sample.page2; Sample.endPage]) =
  Returned
    [mkTokenHolder "x" 105 (Some (inject_Z 105 * Sample.price)%Q);
     mkTokenHolder "y" 51 (Some (inject_Z 51 * Sample.price)%Q);
     mkTokenHolder "z" 7 (Some (inject_Z 7 * Sample.price)%Q)].
Proof. reflexivity. Qed.

Lemma pagesFrom_all_data p rs term :
  Forall (fun r => isDataPage r = true) rs ->
  pagesFrom p (rs ++ [term]) =
  map (fun i => p + Z.of_nat i) (seq 0 (S (List.length rs))).
Proof.
  intros HF. revert p. induction HF as [|r rs Hr _ IH]; intros p.
  - reflexivity.
  - rewrite <- app_comm_cons, pagesFrom_cons, Hr, IH.
    cbn [List.length].
    change (seq 0 (S (S (List.length rs))))
      with (0%nat :: seq 1 (S (List.length rs))).
    rewrite <- seq_shift. cbn [map]. rewrite map_map.
    f_equal; [lia|]. apply map_ext. intros; lia.
Qed.

(** C4. The first request carries page 1 and each request carries 1 plus the
    number of record pages received so far; at the first response whose
    record list is empty or whose result is absent the fetcher returns
    normally, having issued one request per response up to that one and
    leaving the rest of the script unread.  With record pages only the
    requested pages are 1, 2, ..., n+1. *)
Theorem pagination_stops_at_first_end_page :
  forall mint price rs term tail,
    Forall (fun r => isDataPage r || isRateLimited r = true) rs ->
    isEndPage term = true ->
    (let run := Script.getTokenHolders mint price (rs ++ term :: tail) in
     (exists hs, outcome run = Returned hs) /\
     rest run = tail /\
     requestedPages (events run) = pagesFrom 1 (rs ++ [term])) /\
    (Forall (fun r => isDataPage r = true) rs ->
     (let run := Script.getTokenHolders mint price (rs ++ term :: tail) in
      requestedPages (events run) =
        map (fun i => 1 + Z.of_nat i) (seq 0 (S (List.length rs)))) /\
     (let run := Part000.getTokenHolders mint (rs ++ term :: tail) in
      (exists hs, outcome run = Returned hs) /\
      rest run = tail /\
      requestedPages (events run) =
        map (fun i => 1 + Z.of_nat i) (seq 0 (S (List.length rs))))).
Proof.
  intros mint price rs term tail HF Hterm.
  destruct (getTokenHolders_returns price mint term tail HF Hterm) as (evs & E & Hp).
  split.
  - rewrite E. simpl. eauto.
  - intros HD. split.
    + rewrite E. simpl. rewrite Hp. now apply pagesFrom_all_data.
    + destruct (getTokenHolders0_returns mint term tail HD Hterm) as (evs0 & -> & Hp0).
      simpl. rewrite Hp0, (pagesFrom_all_data 1 rs term HD). eauto.
Qed.

Lemma pagination_stops_at_first_end_page_witness :
  let rs := [Sample.page1; Sample.page2] in
  let script := (rs ++ Sample.noResult :: [Sample.page1])%list in
  (let run := Script.getTokenHolders "MintA" Sample.price script in
   (exists hs, outcome run = Returned hs) /\
   rest run = [Sample.page1] /\
   requestedPages (events run) = [1; 2; 3]) /\
  (let run := Part000.getTokenHolders "MintA" script in
   (exists hs, outcome run = Returned hs) /\
   rest run = [Sample.page1] /\
   requestedPages (events run) = [1; 2; 3]).
Proof.
  intros rs script.
  destruct (pagination_stops_at_first_end_page "MintA" Sample.price rs
              Sample.noResult [Sample.page1]) as [HS HP].
  - repeat constructor.
  - reflexivity.
  - split; [exact HS | apply HP; repeat constructor].
Defined.

Example sample_requested_pages :
  requestedPages
    (events (Script.getTokenHolders "MintA" Sample.price
               [Sample.page1; Sample.tooMany; Sample.page2; Sample.noResult;
                Sample.page1])) = [1; 2; 2; 3].
Proof. reflexivity. Qed.

Lemma ownedSum_pos a recs :
  Forall (fun r => 0 < ta_amount r) recs ->
  In a (map ta_owner recs) -> 0 < ownedSum a recs.
Proof.
  induction 1 as [|r recs Hr HF IH]; simpl; [tauto|].
  assert (0 <= ownedSum a recs).
  { clear IH. induction HF as [|r' recs' Hr' _ IH']; simpl; [lia|].
    destruct (String.eqb (ta_owner r') a); lia. }
  intros [<-|Hin].
  - rewrite String.eqb_refl. lia.
  - specialize (IH Hin). destruct (String.eqb (ta_owner r) a); lia.
Qed.

Lemma ownedSum_zero a recs :
  (forall r, In r recs -> ta_owner r = a -> ta_amount r = 0) ->
  ownedSum a recs = 0.
Proof.
  induction recs as [|r recs IH]; simpl; intros H; [reflexivity|].
  rewrite IH by auto.
  destruct (String.eqb (ta_owner r) a) eqn:E; [|reflexivity].
  apply String.eqb_eq in E. rewrite (H r); auto.
Qed.

(** C9, as the code has it.  The returned holders are exactly the owners of
    at least one received record; nothing is filtered on the balance: an
    owner all of whose records have amount 0 is returned, with balance 0.
    When every received record has a positive amount, every returned
    balance is positive.  The same holds of the fetcher of part_000 on
    record pages. *)
Theorem returned_holders_are_record_owners :
  forall mint price rs term tail,
    Forall (fun r => isDataPage r || isRateLimited r = true) rs ->
    isEndPage term = true ->
    (exists hs,
       outcome (Script.getTokenHolders mint price (rs ++ term :: tail))
         = Returned hs /\
       (forall a, In a (map th_address hs) <->
                  exists r, In r (flat_map pageRecords rs) /\ ta_owner r = a) /\
       (forall h, In h hs ->
          (forall r, In r (flat_map pageRecords rs) ->
             ta_owner r = th_address h -> ta_amount r = 0) ->
          th_amount h = 0) /\
       (Forall (fun r => 0 < ta_amount r) (flat_map pageRecords rs) ->
        forall h, In h hs -> 0 < th_amount h)) /\
    (Forall (fun r => isDataPage r = true) rs ->
     exists hs,
       outcome (Part000.getTokenHolders mint (rs ++ term :: tail))
         = Returned hs /\
       (forall a, In a (map th_address hs) <->
                  exists r, In r (flat_map pageRecords rs) /\ ta_owner r = a) /\
       (forall h, In h hs ->
          (forall r, In r (flat_map pageRecords rs) ->
             ta_owner r = th_address h -> ta_amount r = 0) ->
          th_amount h = 0) /\
       (Forall (fun r => 0 < ta_amount r) (flat_map pageRecords rs) ->
        forall h, In h hs -> 0 < th_amount h)).
Proof.
  intros mint price rs term tail HF Hterm. split.
  - destruct (getTokenHolders_returns price mint term tail HF Hterm)
      as (evs & -> & _).
    destruct (returned_holders (fetched_inv price rs)) as (_ & Hown & Hsum).
    eexists. split; [reflexivity|]. split; [|split].
    + intros a. rewrite Hown, in_map_iff.
      split; intros (r & H1 & H2); exists r; auto.
    + intros h Hin Hz. destruct (Hsum h Hin) as [-> _].
      now apply ownedSum_zero.
    + intros Hpos h Hin. destruct (Hsum h Hin) as [-> _].
      apply ownedSum_pos; auto. apply Hown. now apply in_map.
  - intros HD.
    destruct (getTokenHolders0_returns mint term tail HD Hterm)
      as (evs & -> & _).
    destruct (returned_holders0
                (accumulate0_all_inv (flat_map pageRecords rs) AmountsInv_empty))
      as (_ & Hown & Hsum).
    eexists. split; [reflexivity|]. split; [|split].
    + intros a. rewrite Hown, in_map_iff.
      split; intros (r & H1 & H2); exists r; auto.
    + intros h Hin Hz. rewrite (Hsum h Hin). now apply ownedSum_zero.
    + intros Hpos h Hin. rewrite (Hsum h Hin).
      apply ownedSum_pos; auto. apply Hown. now apply in_map.
Qed.

Lemma returned_holders_are_record_owners_witness :
  let rs := [Sample.page1; Sample.page2] in
  let recs := flat_map pageRecords rs in
  (exists hs,
     outcome (Script.getTokenHolders "MintA" Sample.price
                (rs ++ Sample.endPage :: [])) = Returned hs /\
     (forall a, In a (map th_address hs) <->
        exists r, In r recs /\ ta_owner r = a) /\
     (forall h, In h hs ->
        (forall r, In r recs -> ta_owner r = th_address h -> ta_amount r = 0) ->
        th_amount h = 0) /\
     (Forall (fun r => 0 < ta_amount r) recs ->
      forall h, In h hs -> 0 < th_amount h)) /\
  (exists hs,
     outcome (Part000.getTokenHolders "MintA" (rs ++ Sample.endPage :: []))
       = Returned hs /\
     (forall a, In a (map th_address hs) <->
        exists r, In r recs /\ ta_owner r = a) /\
     (forall h, In h hs ->
        (forall r, In r recs -> ta_owner r = th_address h -> ta_amount r = 0) ->
        th_amount h = 0) /\
     (Forall (fun r => 0 < ta_amount r) recs ->
      forall h, In h hs -> 0 < th_amount h)).
Proof.
  intros rs recs.
  destruct (returned_holders_are_record_owners "MintA" Sample.price rs
              Sample.endPage []) as [HS HP].
  - repeat constructor.
  - reflexivity.
  - split; [exact HS | apply HP; repeat constructor].
Defined.

(** C9 as stated fails: an owner whose only record has amount 0 is returned,
    with balance 0. *)
Lemma zero_balance_holder_is_returned :
  exists hs h,
    outcome (Script.getTokenHolders "MintA" Sample.price
               [Sample.zeroPage; Sample.endPage]) = Returned hs /\
    In h hs /\ th_address h = "x" /\ th_amount h = 0.
Proof.
  eexists. eexists. split; [reflexivity|]. simpl. auto.
Qed.

Lemma fetchLoop_first_event mint price rs page holders :
  exists evs,
    events (Script.fetchLoop mint price rs page holders) =
    Request mint page :: evs.
Proof. destruct rs; simpl; eauto. Qed.

Lemma fetchLoop_thrown mint price rs : forall page holders e,
  outcome (Script.fetchLoop mint price rs page holders) = Thrown e ->
  exists r, In r rs /\ isFatal r = true /\ e = HttpError (status r).
Proof.
  induction rs as [|r rs IH]; intros page holders e; simpl; [discriminate|].
  unfold Script.iteration, isFatal.
  destruct (ok r) eqn:Hok; simpl.
  - destruct (result r) as [accts|].
    + destruct (Z.of_nat (List.length accts) =? 0); simpl; [discriminate|].
      intros H. apply IH in H. destruct H as (r' & ? & ? & ?). eauto.
    + discriminate.
  - destruct (status r =? 429) eqn:Hst; simpl.
    + intros H. apply IH in H. destruct H as (r' & ? & ? & ?). eauto.
    + intros [= <-]. exists r. unfold isFatal. rewrite Hok, Hst. auto.
Qed.

Lemma status_429_rate_limited r : status r = 429 -> isRateLimited r = true.
Proof. unfold isRateLimited, ok. now intros ->. Qed.

(** C2, for the fetcher of script.ts.  A response with status 429 leaves the
    page counter and the holder map as they were; the loop waits 1000 ms and
    goes on with the same state, so its next request carries the same page;
    and no run of the fetcher throws the 429 to its caller. *)
Theorem rate_limited_page_is_retried :
  forall mint price r rs page holders,
    status r = 429 ->
    Script.iteration price page holders r =
      Script.Continue page holders [Sleep 1000] /\
    Script.fetchLoop mint price (r :: rs) page holders =
      before [Request mint page; Sleep 1000]
        (Script.fetchLoop mint price rs page holders) /\
    (exists evs,
       events (Script.fetchLoop mint price rs page holders) =
       Request mint page :: evs) /\
    (forall script,
       outcome (Script.getTokenHolders mint price script)
       <> Thrown (HttpError 429)).
Proof.
  intros mint price r rs page holders Hst.
  pose proof (iteration_rate_limited price page holders r
                (status_429_rate_limited r Hst)) as Hit.
  split; [exact Hit|]. split; [|split].
  - cbn [Script.fetchLoop]. rewrite Hit. now rewrite before_before.
  - apply fetchLoop_first_event.
  - intros script H. apply fetchLoop_thrown in H.
    destruct H as (r' & _ & Hf & [= E]).
    unfold isFatal in Hf. rewrite <- E in Hf. simpl in Hf.
    now rewrite andb_false_r in Hf.
Qed.

Lemma rate_limited_page_is_retried_witness :
  Script.iteration Sample.price 2 [("x", mkTokenHolder "x" 105 None)]
    Sample.tooMany =
    Script.Continue 2 [("x", mkTokenHolder "x" 105 None)] [Sleep 1000] /\
  Script.fetchLoop "MintA" Sample.price (Sample.tooMany :: [Sample.endPage]) 2
    [("x", mkTokenHolder "x" 105 None)] =
    before [Request "MintA" 2; Sleep 1000]
      (Script.fetchLoop "MintA" Sample.price [Sample.endPage] 2
         [("x", mkTokenHolder "x" 105 None)]) /\
  (exists evs,
     events (Script.fetchLoop "MintA" Sample.price [Sample.endPage] 2
               [("x", mkTokenHolder "x" 105 None)]) =
     Request "MintA" 2 :: evs) /\
  (forall script,
     outcome (Script.getTokenHolders "MintA" Sample.price script)
     <> Thrown (HttpError 429)).
Proof.
  apply (rate_limited_page_is_retried "MintA" Sample.price Sample.tooMany
           [Sample.endPage] 2 [("x", mkTokenHolder "x" 105 None)]).
  reflexivity.
Defined.

(** C2 as stated fails on the fetcher of part_000, which has no retry: the
    429 is thrown to the caller and page 1 is requested once. *)
Lemma part000_throws_on_429 :
  Part000.getTokenHolders "MintA"
    [Sample.tooMany; Sample.page1; Sample.endPage] =
  mkRun (Thrown (HttpError 429)) [Request "MintA" 1]
    [Sample.page1; Sample.endPage].
Proof. reflexivity. Qed.

(* ------------------------------------------------------------------ *)
(** ** Aggregation over the token list *)

(** The loop of [findHoldersWithMinTokens] fetches each token in turn and
    folds the results into the two maps. *)
Lemma forTokens_fetchAll tokens : forall rs hd hc,
  Script.forTokens tokens rs hd hc =
  let r := Script.fetchAll tokens rs in
  mkRun
    match outcome r with
    | Returned results =>
        Returned
          (fold_left (fun hd tr => JsMap.set hd (Script.ti_address (fst tr)) (snd tr))
             results hd,
           fold_left
             (fun hc tr =>
                fold_left (Script.tally (Script.ti_address (fst tr))) (snd tr) hc)
             results hc)
    | Thrown e => Thrown e
    | Stalled => Stalled
    end
    (events r) (rest r).
Proof.
  induction tokens as [|token tokens IH]; intros rs hd hc; simpl; auto.
  destruct (outcome (Script.getTokenHolders _ _ rs)) as [holders|e|]; auto.
  rewrite IH. unfold before. simpl. rewrite <- app_assoc. simpl.
  now destruct (outcome (Script.fetchAll tokens _)).
Qed.

Lemma findHoldersWithMinTokens_fetchAll tokens min rs :
  min <= Z.of_nat (List.length tokens) ->
  Script.findHoldersWithMinTokens tokens min rs =
  let r := Script.fetchAll tokens rs in
  mkRun
    match outcome r with
    | Returned results =>
        Returned (Script.qualify min (Script.summarize results),
                  Script.detailsOf results)
    | Thrown e => Thrown e
    | Stalled => Stalled
    end
    (events r) (rest r).
Proof.
  intros Hmin. unfold Script.findHoldersWithMinTokens.
  destruct (Z.gtb_spec min (Z.of_nat (List.length tokens))); [lia|].
  rewrite forTokens_fetchAll. simpl.
  now destruct (outcome (Script.fetchAll tokens rs)).
Qed.

Lemma fetchAll_app pre : forall post rs0 results evs rs1,
  Script.fetchAll pre rs0 = mkRun (Returned results) evs rs1 ->
  Script.fetchAll (pre ++ post) rs0 =
  let r := Script.fetchAll post rs1 in
  mkRun
    match outcome r with
    | Returned l => Returned (results ++ l)
    | Thrown e => Thrown e
    | Stalled => Stalled
    end
    (evs ++ events r) (rest r).
Proof.
  induction pre as [|token pre IH]; intros post rs0 results evs rs1; simpl.
  - intros [= <- <- <-]. simpl. now destruct (Script.fetchAll post rs0) as [[]].
  - destruct (outcome (Script.getTokenHolders _ _ rs0)) as [holders|e|];
      [|discriminate..].
    destruct (Script.fetchAll pre _) as [[l|e|] evs' rs'] eqn:E; simpl;
      [|discriminate..].
    intros [= <- <- <-].
    rewrite (IH post _ _ _ _ E). simpl. rewrite <- !app_assoc. simpl.
    now destruct (outcome (Script.fetchAll post rs')).
Qed.

(** C3. A response whose status is neither a success nor 429 makes the
    fetcher throw: the run ends there with the error and no holder list.
    When this happens to a token of an aggregation run, after the tokens
    before it were fetched successfully, [findHoldersWithMinTokens] ends
    with the same error: it returns neither qualified holders nor the
    holder lists already fetched. *)
Theorem fatal_status_aborts_whole_run :
  forall mint price rs r tail,
    Forall (fun r => isDataPage r || isRateLimited r = true) rs ->
    isFatal r = true ->
    (exists evs,
       Script.getTokenHolders mint price (rs ++ r :: tail) =
       mkRun (Thrown (HttpError (status r))) evs tail) /\
    (forall pre post min rs0 results evs0,
       min <= Z.of_nat (List.length (pre ++ Script.mkTokenInfo mint price :: post)) ->
       Script.fetchAll pre rs0 = mkRun (Returned results) evs0 (rs ++ r :: tail) ->
       exists evs,
         Script.findHoldersWithMinTokens
           (pre ++ Script.mkTokenInfo mint price :: post) min rs0 =
         mkRun (Thrown (HttpError (status r))) evs tail).
Proof.
  intros mint price rs r tail HF Hfatal.
  assert (G : exists evs,
             Script.getTokenHolders mint price (rs ++ r :: tail) =
             mkRun (Thrown (HttpError (status r))) evs tail).
  { unfold Script.getTokenHolders.
    destruct (fetchLoop_prefix mint price (r :: tail) 1 JsMap.empty HF)
      as (evs & -> & _).
    cbn [Script.fetchLoop]. rewrite iteration_fatal by assumption.
    eexists. reflexivity. }
  split; [exact G|].
  intros pre post min rs0 results evs0 Hmin Hpre.
  destruct G as (evs & G).
  rewrite findHoldersWithMinTokens_fetchAll by assumption.
  rewrite (fetchAll_app pre (Script.mkTokenInfo mint price :: post) rs0 _ _ _ Hpre).
  simpl. rewrite G. simpl. eexists. reflexivity.
Qed.

Lemma fatal_status_aborts_whole_run_witness :
  (exists evs,
     Script.getTokenHolders "MintB" (25 # 10000)
       ([Sample.page2; Sample.tooMany] ++ Sample.serverError :: [Sample.page1]) =
     mkRun (Thrown (HttpError 500)) evs [Sample.page1]) /\
  (exists evs,
     Script.findHoldersWithMinTokens
       ([Sample.tokenA] ++ Script.mkTokenInfo "MintB" (25 # 10000)
                       :: [Sample.tokenC]) 1
       ([Sample.page1; Sample.endPage] ++
        [Sample.page2; Sample.tooMany] ++ Sample.serverError :: [Sample.page1]) =
     mkRun (Thrown (HttpError 500)) evs [Sample.page1]).
Proof.
  destruct (fatal_status_aborts_whole_run "MintB" (25 # 10000)
              [Sample.page2; Sample.tooMany] Sample.serverError [Sample.page1])
    as [HF HA].
  - repeat constructor.
  - reflexivity.
  - split; [exact HF|].
    eapply (HA [Sample.tokenA] [Sample.tokenC] 1
              ([Sample.page1; Sample.endPage] ++
               [Sample.page2; Sample.tooMany] ++
               Sample.serverError :: [Sample.page1])).
    + simpl. lia.
    + reflexivity.
Defined.

(** C7. When the required minimum exceeds the number of tokens,
    [findHoldersWithMinTokens] throws the configuration error having issued
    no request and no pause, and leaves the script unread. *)
Theorem threshold_above_token_count_is_rejected :
  forall tokens min rs,
    min > Z.of_nat (List.length tokens) ->
    Script.findHoldersWithMinTokens tokens min rs =
    mkRun (Thrown ConfigError) [] rs.
Proof.
  intros tokens min rs H. unfold Script.findHoldersWithMinTokens.
  destruct (Z.gtb_spec min (Z.of_nat (List.length tokens))); [reflexivity|lia].
Qed.

Lemma threshold_above_token_count_is_rejected_witness :
  5 > Z.of_nat (List.length [Sample.tokenA; Sample.tokenB; Sample.tokenC]) /\
  Script.findHoldersWithMinTokens [Sample.tokenA; Sample.tokenB; Sample.tokenC]
    5 [Sample.page1; Sample.endPage] =
  mkRun (Thrown ConfigError) [] [Sample.page1; Sample.endPage].
Proof.
  split.
  - simpl. lia.
  - apply (threshold_above_token_count_is_rejected
             [Sample.tokenA; Sample.tokenB; Sample.tokenC] 5
             [Sample.page1; Sample.endPage]).
    simpl. lia.
Defined.

(** C10. With an empty token list [findCommonHolders] does not return: the
    seed of the intersection, [holdersArrays[0]], is absent and spreading
    it raises a TypeError, which the function rethrows. *)
Theorem findCommonHolders_empty_list_throws :
  Part000.findCommonHolders [] = Thrown TypeError.
Proof. reflexivity. Qed.

(* ------------------------------------------------------------------ *)
(** ** The cross-token summary *)

Lemma holds_In a holders :
  Script.holds a holders = true <-> In a (map th_address holders).
Proof.
  unfold Script.holds. rewrite existsb_exists, in_map_iff.
  split; intros (h & H1 & H2); exists h.
  - apply String.eqb_eq in H2. auto.
  - split; [tauto|]. apply String.eqb_eq. tauto.
Qed.

Lemma holds_snoc a done h :
  Script.holds a (done ++ [h]) =
  Script.holds a done || String.eqb (th_address h) a.
Proof. unfold Script.holds. rewrite existsb_app. simpl. now rewrite orb_false_r. Qed.

Lemma valueIn_snoc a done h :
  Script.valueIn a (done ++ [h]) =
  if Script.holds a done then Script.valueIn a done
  else if String.eqb (th_address h) a then Script.valueOr0 (th_valueUsd h)
       else 0%Q.
Proof.
  unfold Script.valueIn, Script.holds.
  induction done as [|d done IH]; simpl.
  - now destruct (String.eqb (th_address h) a).
  - destruct (String.eqb (th_address d) a); simpl; auto.
Qed.

Lemma valueIn_not_holds a holders :
  Script.holds a holders = false -> Script.valueIn a holders = 0%Q.
Proof.
  unfold Script.valueIn, Script.holds.
  induction holders as [|d l IH]; simpl; auto.
  destruct (String.eqb (th_address d) a); simpl; [discriminate|auto].
Qed.

Lemma entryCount_snoc a results tr :
  Script.entryCount a (results ++ [tr]) =
  Script.entryCount a results + (if Script.holds a (snd tr) then 1 else 0).
Proof.
  unfold Script.entryCount. rewrite filter_app, length_app. simpl.
  destruct (Script.holds a (snd tr)); simpl; lia.
Qed.

Lemma cumulativeUsd_snoc a results tr :
  (Script.cumulativeUsd a (results ++ [tr]) ==
   Script.cumulativeUsd a results + Script.valueIn a (snd tr))%Q.
Proof.
  induction results as [|r results IH]; simpl.
  - ring.
  - rewrite IH. ring.
Qed.

Lemma entryCount_nonneg a results : 0 <= Script.entryCount a results.
Proof. unfold Script.entryCount. lia. Qed.

Lemma entryCount_pos a results :
  1 <= Script.entryCount a results <->
  exists tr, In tr results /\ Script.holds a (snd tr) = true.
Proof.
  unfold Script.entryCount.
  induction results as [|r results IH]; simpl.
  - split; [lia|]. intros (tr & [] & _).
  - destruct (Script.holds a (snd r)) eqn:H; simpl.
    + split; [|lia]. intros _. exists r. auto.
    + rewrite IH. split; intros (tr & H1 & H2); exists tr; [tauto|].
      destruct H1 as [<-|]; [congruence|tauto].
Qed.

Lemma not_held_zero a results :
  ~ (exists tr, In tr results /\ Script.holds a (snd tr) = true) ->
  Script.entryCount a results = 0 /\ (Script.cumulativeUsd a results == 0)%Q.
Proof.
  intros H. split.
  - rewrite <- entryCount_pos in H. pose proof (entryCount_nonneg a results). lia.
  - induction results as [|r results IH]; simpl; [reflexivity|].
    rewrite valueIn_not_holds, IH.
    + ring.
    + intros (tr & H1 & H2). apply H. exists tr. simpl. tauto.
    + destruct (Script.holds a (snd r)) eqn:E; auto.
      exfalso. apply H. exists r. simpl. tauto.
Qed.

Section Tally.
Variable tokenAddress : string.

(** The summary map once the lists [results] are merged and, of the list
    being merged, the holders [done]. *)
Record TallyInv (hc : JsMap.t Script.HolderSummary)
    (results : list (Script.TokenInfo * list TokenHolder))
    (done : list TokenHolder) : Prop := {
  tinv_nodup : NoDup (JsMap.keys hc);
  tinv_keys : forall a,
    In a (JsMap.keys hc) <->
    (exists tr, In tr results /\ Script.holds a (snd tr) = true) \/
    Script.holds a done = true;
  tinv_entry : forall a s, JsMap.get hc a = Some s ->
    Script.hs_address s = a /\
    Script.hs_tokenCount s =
      Script.entryCount a results + (if Script.holds a done then 1 else 0) /\
    (Script.hs_totalValueUsd s ==
       Script.cumulativeUsd a results + Script.valueIn a done)%Q
}.

Lemma TallyInv_empty : TallyInv JsMap.empty [] [].
Proof.
  split; simpl.
  - constructor.
  - intros a. split; [tauto|]. intros [(tr & [] & _)|]; discriminate.
  - discriminate.
Qed.

Lemma tally_inv hc results done h :
  TallyInv hc results done ->
  ~ In (th_address h) (map th_address done) ->
  TallyInv (Script.tally tokenAddress hc h) results (done ++ [h]).
Proof.
  intros [Hnd Hkeys Hentry] Hfresh.
  assert (Hd : Script.holds (th_address h) done = false).
  { destruct (Script.holds (th_address h) done) eqn:E; auto.
    apply holds_In in E. tauto. }
  unfold Script.tally.
  destruct (JsMap.has hc (th_address h)) eqn:Hhas; simpl.
  - (* the address already has a summary *)
    destruct (JsMap.get hc (th_address h)) as [s|] eqn:G.
    2:{ unfold JsMap.has in Hhas. now rewrite G in Hhas. }
    destruct (Hentry _ _ G) as (Ha & Hc & Ht). rewrite Hd in Hc.
    rewrite (valueIn_not_holds _ _ Hd) in Ht.
    split.
    + now apply NoDup_keys_set.
    + intros a. rewrite In_keys_set, Hkeys, holds_snoc.
      apply has_In, Hkeys in Hhas.
      destruct (String.eqb_spec (th_address h) a) as [<-|Hne];
        rewrite ?orb_true_r, ?orb_false_r; intuition.
    + intros a s'. destruct (String.eqb_spec (th_address h) a) as [<-|Hne].
      * rewrite get_set_same. intros [= <-]. simpl.
        rewrite holds_snoc, valueIn_snoc, Hd, String.eqb_refl. simpl.
        repeat split; auto; [lia|]. rewrite Ht. ring.
      * rewrite get_set_other by assumption. intros G'.
        destruct (Hentry _ _ G') as (Ha' & Hc' & Ht').
        rewrite holds_snoc, valueIn_snoc.
        apply String.eqb_neq in Hne. rewrite Hne, orb_false_r.
        repeat split; auto.
        destruct (Script.holds a done) eqn:E; [exact Ht'|].
        rewrite Ht'. rewrite (valueIn_not_holds a done E). reflexivity.
  - (* first token held by the address *)
    rewrite get_set_same.
    apply has_false_notin in Hhas.
    assert (Hnone : ~ (exists tr, In tr results /\
                         Script.holds (th_address h) (snd tr) = true)).
    { intros H. apply Hhas, Hkeys. now left. }
    destruct (not_held_zero _ _ Hnone) as [Hz Hq].
    split.
    + now apply NoDup_keys_set, NoDup_keys_set.
    + intros a. rewrite !In_keys_set, Hkeys, holds_snoc.
      destruct (String.eqb_spec (th_address h) a) as [<-|Hne];
        rewrite ?orb_true_r, ?orb_false_r; intuition.
    + intros a s'. destruct (String.eqb_spec (th_address h) a) as [<-|Hne].
      * rewrite get_set_same. intros [= <-]. simpl.
        rewrite holds_snoc, valueIn_snoc, Hd, String.eqb_refl. simpl.
        repeat split; auto; [lia|]. rewrite Hq. ring.
      * rewrite !get_set_other by assumption. intros G'.
        destruct (Hentry _ _ G') as (Ha' & Hc' & Ht').
        rewrite holds_snoc, valueIn_snoc.
        apply String.eqb_neq in Hne. rewrite Hne, orb_false_r.
        repeat split; auto.
        destruct (Script.holds a done) eqn:E; [exact Ht'|].
        rewrite Ht'. rewrite (valueIn_not_holds a done E). reflexivity.
Qed.

Lemma tally_all_inv holders : forall hc results done,
  TallyInv hc results done ->
  NoDup (map th_address (done ++ holders)) ->
  TallyInv (fold_left (Script.tally tokenAddress) holders hc) results
    (done ++ holders).
Proof.
  induction holders as [|h holders IH]; intros hc results done Inv Hnd.
  - now rewrite app_nil_r.
  - simpl. replace (done ++ h :: holders) with ((done ++ [h]) ++ holders)
      in * by now rewrite <- app_assoc.
    apply IH; auto. apply tally_inv; auto.
    rewrite !map_app in Hnd. apply NoDup_app_remove_r in Hnd.
    simpl in Hnd. apply NoDup_remove_2 in Hnd.
    now rewrite app_nil_r in Hnd.
Qed.
End Tally.

Lemma TallyInv_close hc results tr :
  TallyInv hc results (snd tr) -> TallyInv hc (results ++ [tr]) [].
Proof.
  intros [Hnd Hkeys Hentry]. split; auto.
  - intros a. rewrite Hkeys. simpl. split.
    + intros [(tr' & H1 & H2)|H]; left.
      * exists tr'. rewrite in_app_iff. tauto.
      * exists tr. rewrite in_app_iff. simpl. tauto.
    + intros [(tr' & H1 & H2)|H]; [|discriminate].
      apply in_app_iff in H1. destruct H1 as [H1|[<-|[]]]; eauto.
  - intros a s G. destruct (Hentry _ _ G) as (Ha & Hc & Ht).
    rewrite entryCount_snoc, cumulativeUsd_snoc. simpl.
    repeat split; auto; [lia|].
    rewrite Ht. unfold Script.valueIn at 3. simpl. ring.
Qed.

Lemma summarize_from_inv results : forall hc merged,
  TallyInv hc merged [] ->
  Forall (fun tr => NoDup (map th_address (snd tr))) results ->
  TallyInv
    (fold_left
       (fun hc tr =>
          fold_left (Script.tally (Script.ti_address (fst tr))) (snd tr) hc)
       results hc)
    (merged ++ results) [].
Proof.
  induction results as [|tr results IH]; intros hc merged Inv HF.
  - now rewrite app_nil_r.
  - inversion HF as [|? ? Hnd HF']; subst. simpl.
    replace (merged ++ tr :: results) with ((merged ++ [tr]) ++ results)
      by now rewrite <- app_assoc.
    apply IH; auto. apply TallyInv_close.
    apply (tally_all_inv (Script.ti_address (fst tr)) (snd tr) hc merged [] Inv Hnd).
Qed.

Lemma summarize_inv results :
  Forall (fun tr => NoDup (map th_address (snd tr))) results ->
  TallyInv (Script.summarize results) results [].
Proof. apply (summarize_from_inv results JsMap.empty [] TallyInv_empty). Qed.



(** What the filter and sort keep of a summary map. *)
Lemma qualify_spec min hc results :
  TallyInv hc results [] ->
  let q := Script.qualify min hc in
  NoDup (map Script.hs_address q) /\
  (forall a, In a (map Script.hs_address q) <->
     1 <= Script.entryCount a results /\ min <= Script.entryCount a results) /\
  (forall s, In s q ->
     Script.hs_tokenCount s = Script.entryCount (Script.hs_address s) results /\
     (Script.hs_totalValueUsd s ==
      Script.cumulativeUsd (Script.hs_address s) results)%Q).
Proof.
  intros [Hnd Hkeys Hentry] q.
  assert (Hval : forall s, In s (JsMap.values hc) <->
                   JsMap.get hc (Script.hs_address s) = Some s).
  { intros s. unfold JsMap.values. rewrite in_map_iff. split.
    - intros ([k s'] & <- & Hin). simpl.
      apply In_get_Some in Hin; auto.
      destruct (Hentry _ _ Hin) as (-> & _). exact Hin.
    - intros G. exists (Script.hs_address s, s). split; auto.
      now apply get_Some_In. }
  assert (Hq : forall s, In s q <->
                 JsMap.get hc (Script.hs_address s) = Some s /\
                 min <= Script.hs_tokenCount s).
  { intros s. unfold q, Script.qualify.
    rewrite array_sort_In, filter_In, Hval.
    destruct (Z.geb_spec (Script.hs_tokenCount s) min);
      intuition; try lia; try discriminate. }
  assert (Haddr : map Script.hs_address (JsMap.values hc) = JsMap.keys hc).
  { unfold JsMap.values, JsMap.keys. rewrite map_map.
    apply map_ext_in. intros [k s] Hin. simpl.
    apply In_get_Some in Hin; auto. now destruct (Hentry _ _ Hin). }
  split; [|split].
  - unfold q, Script.qualify.
    eapply Permutation_NoDup;
      [apply Permutation_map, array_sort_perm|].
    rewrite <- Haddr in Hnd. clear - Hnd.
    induction (JsMap.values hc) as [|s l IH]; simpl in *; [constructor|].
    inversion Hnd; subst.
    destruct (Script.hs_tokenCount s >=? min); simpl; auto.
    constructor; auto. rewrite in_map_iff in *.
    intros (x & Hx & Hin). apply filter_In in Hin.
    apply H1. exists x. tauto.
  - intros a. rewrite in_map_iff. split.
    + intros (s & <- & Hin). apply Hq in Hin. destruct Hin as [G Hmin].
      destruct (Hentry _ _ G) as (_ & Hc & _). simpl in Hc.
      rewrite Z.add_0_r in Hc. rewrite <- Hc. split; auto.
      rewrite Hc. apply entryCount_pos.
      apply get_Some_In, (in_map fst) in G. simpl in G.
      apply Hkeys in G. destruct G as [G|G]; [exact G|discriminate].
    + intros [Hpos Hmin]. apply entryCount_pos in Hpos.
      assert (Hin : In a (JsMap.keys hc)) by (apply Hkeys; now left).
      destruct (JsMap.get hc a) as [s|] eqn:G.
      2:{ apply get_None_notin in G. tauto. }
      destruct (Hentry _ _ G) as (Ha & Hc & _). simpl in Hc.
      exists s. split; auto. apply Hq. rewrite Ha. split; auto. lia.
  - intros s Hin. apply Hq in Hin. destruct Hin as [G _].
    destruct (Hentry _ _ G) as (_ & Hc & Ht). simpl in Hc.
    unfold Script.valueIn in Ht. simpl in Ht.
    split; [lia|]. rewrite Ht. ring.
Qed.

(** Any holder list the fetcher returns, whatever the script, is the sorted
    content of a holder map. *)
Lemma fetchLoop_returned mint price rs : forall page holders recs hs,
  HoldersInv price holders recs ->
  outcome (Script.fetchLoop mint price rs page holders) = Returned hs ->
  exists holders' recs',
    HoldersInv price holders' recs' /\
    hs = array_sort Script.byAmountDesc (JsMap.values holders').
Proof.
  induction rs as [|r rs IH]; intros page holders recs hs Inv; simpl;
    [discriminate|].
  unfold Script.iteration.
  destruct (ok r); simpl.
  - destruct (result r) as [accts|].
    + destruct (Z.of_nat (List.length accts) =? 0); simpl.
      * intros [= <-]. eauto.
      * apply IH with (recs := recs ++ accts).
        now apply accumulate_all_inv.
    + intros [= <-]. eauto.
  - destruct (status r =? 429); simpl; [|discriminate].
    now apply IH with (recs := recs).
Qed.

Lemma getTokenHolders_nodup mint price rs hs :
  outcome (Script.getTokenHolders mint price rs) = Returned hs ->
  NoDup (map th_address hs).
Proof.
  intros H.
  apply (fetchLoop_returned mint price rs 1 JsMap.empty [] hs
           (HoldersInv_empty price)) in H.
  destruct H as (holders' & recs' & Inv & ->).
  apply (returned_holders Inv).
Qed.

Lemma fetchAll_results tokens : forall rs results evs rs',
  Script.fetchAll tokens rs = mkRun (Returned results) evs rs' ->
  map fst results = tokens /\
  Forall (fun tr => NoDup (map th_address (snd tr))) results.
Proof.
  induction tokens as [|token tokens IH]; intros rs results evs rs'; simpl.
  - intros [= <- _ _]. auto.
  - destruct (outcome (Script.getTokenHolders _ _ rs)) as [holders|e|] eqn:G;
      [|discriminate..].
    destruct (Script.fetchAll tokens _) as [[l|e|] evs1 rs1] eqn:E; simpl;
      [|discriminate..].
    intros [= <- _ _]. destruct (IH _ _ _ _ E) as [Hm HF]. simpl. split.
    + now rewrite Hm.
    + constructor; auto. simpl. eapply getTokenHolders_nodup; eauto.
Qed.



(* ------------------------------------------------------------------ *)
(** ** Threshold policy *)




(* ------------------------------------------------------------------ *)
(** ** Intersection policy *)

Lemma JsSet_has_In s x : JsSet.has s x = true <-> In x s.
Proof.
  unfold JsSet.has. rewrite existsb_exists. split.
  - intros (y & Hin & E). apply String.eqb_eq in E. now subst.
  - intros H. exists x. split; auto. apply String.eqb_refl.
Qed.

Lemma JsSet_add_all_In l : forall s x,
  In x (fold_left JsSet.add l s) <-> In x s \/ In x l.
Proof.
  induction l as [|y l IH]; intros s x; simpl; [tauto|].
  rewrite IH. unfold JsSet.add.
  destruct (JsSet.has s y) eqn:E.
  - apply JsSet_has_In in E. split; [tauto|]. intros [H|[<-|H]]; auto.
  - rewrite in_app_iff. simpl. tauto.
Qed.

Lemma JsSet_of_array_In l x : In x (JsSet.of_array l) <-> In x l.
Proof. unfold JsSet.of_array. rewrite JsSet_add_all_In. simpl. tauto. Qed.

Lemma filter_all_In sets : forall (seed : list string) a,
  In a (fold_left
          (fun commonHolders s =>
             filter (fun holder => JsSet.has s holder) commonHolders)
          sets seed) <->
  In a seed /\ Forall (fun s => In a s) sets.
Proof.
  induction sets as [|s sets IH]; intros seed a; simpl.
  - split; [auto|tauto].
  - rewrite IH, filter_In, JsSet_has_In. split.
    + intros [[H1 H2] H3]. auto.
    + intros [H1 H2]. inversion H2; subst. auto.
Qed.

Lemma intersect_spec sets :
  sets <> [] ->
  exists common,
    Part000.intersect sets = Returned common /\
    forall a, In a common <-> Forall (fun s => In a s) sets.
Proof.
  destruct sets as [|first sets]; [congruence|]. intros _.
  unfold Part000.intersect. simpl. eexists. split; [reflexivity|].
  intros a. rewrite filter_all_In. split.
  - intros [H1 H2]. now constructor.
  - intros H. inversion H; subst. auto.
Qed.

Lemma entryCount_full a results :
  results <> [] ->
  (1 <= Script.entryCount a results /\
   Z.of_nat (List.length results) <= Script.entryCount a results) <->
  Forall (fun tr => In a (map th_address (snd tr))) results.
Proof.
  intros Hne. unfold Script.entryCount.
  assert (H : (List.length results <=
               List.length (filter (fun tr => Script.holds a (snd tr)) results))%nat
              <-> Forall (fun tr => In a (map th_address (snd tr))) results).
  { clear Hne. induction results as [|tr results IH]; simpl.
    - split; [constructor|lia].
    - pose proof (filter_length_le (fun tr => Script.holds a (snd tr)) results).
      destruct (Script.holds a (snd tr)) eqn:E; simpl.
      + apply holds_In in E. split.
        * intros Hle. constructor; auto. apply IH. lia.
        * intros HF. inversion HF; subst. apply IH in H3. lia.
      + split; [lia|]. intros HF. inversion HF; subst.
        apply holds_In in H2. congruence. }
  assert (Hpos : (0 < List.length results)%nat)
    by (destruct results; [congruence | simpl; lia]).
  rewrite <- H. lia.
Qed.

(** C5, for a non-empty token list.  When the threshold run, with the
    number of tokens as minimum, and the intersection run fetch holder lists
    with the same addresses token by token, both return, and an address is
    among the qualified holders exactly when it is among the common
    holders. *)
Theorem threshold_at_token_count_is_intersection :
  forall tokens rs results evs rs' calls lists,
    tokens <> [] ->
    Script.fetchAll tokens rs = mkRun (Returned results) evs rs' ->
    Part000.promiseAll
      (map (fun c => outcome (Part000.getTokenHolders (fst c) (snd c))) calls)
      = Returned lists ->
    map (map th_address) lists =
      map (fun tr => map th_address (snd tr)) results ->
    exists q d common d',
      outcome (Script.findHoldersWithMinTokens tokens
                 (Z.of_nat (List.length tokens)) rs) = Returned (q, d) /\
      Part000.findCommonHolders calls = Returned (common, d') /\
      forall a, In a (map Script.hs_address q) <-> In a common.
Proof.
  intros tokens rs results evs rs' calls lists Hne Hfetch Hall Hsame.
  destruct (fetchAll_results tokens rs results evs rs' Hfetch) as [Hm HF].
  assert (Hres : results <> []).
  { intros ->. simpl in Hm. congruence. }
  assert (Hlen : List.length tokens = List.length results).
  { now rewrite <- Hm, length_map. }
  destruct (qualify_spec (Z.of_nat (List.length tokens)) _ _
              (summarize_inv results HF)) as (_ & Hq & _).
  set (sets := map (fun holders => JsSet.of_array (map th_address holders)) lists).
  destruct (intersect_spec sets) as (common & Hi & Hc).
  { unfold sets. intros E. apply (f_equal (@List.length _)) in E.
    apply (f_equal (@List.length _)) in Hsame.
    rewrite !length_map in *. simpl in E.
    destruct results; [congruence|]. simpl in Hsame. lia. }
  eexists. eexists. exists common. eexists. split; [|split].
  - rewrite findHoldersWithMinTokens_fetchAll, Hfetch by lia. reflexivity.
  - unfold Part000.findCommonHolders. rewrite map_map. simpl.
    rewrite Hall. fold sets. rewrite Hi. reflexivity.
  - intros a. rewrite Hq, Hlen, (entryCount_full a results Hres), Hc.
    unfold sets. rewrite Forall_map.
    assert (E : Forall (fun l => In a (JsSet.of_array l)) (map (map th_address) lists)
                <-> Forall (fun l => In a l)
                      (map (fun tr => map th_address (snd tr)) results)).
    { rewrite Hsame. split; apply Forall_impl; intros l; apply JsSet_of_array_In. }
    rewrite !Forall_map in E. symmetry. exact E.
Qed.

Lemma threshold_at_token_count_is_intersection_witness :
  exists q d common d',
    outcome (Script.findHoldersWithMinTokens [Sample.tokenA; Sample.tokenB]
               (Z.of_nat (List.length [Sample.tokenA; Sample.tokenB]))
               [Sample.page1; Sample.endPage; Sample.page2; Sample.endPage])
      = Returned (q, d) /\
    Part000.findCommonHolders
      [("MintA", [Sample.page1; Sample.endPage]);
       ("MintB", [Sample.page2; Sample.endPage])] = Returned (common, d') /\
    forall a, In a (map Script.hs_address q) <-> In a common.
Proof.
  apply (threshold_at_token_count_is_intersection
           [Sample.tokenA; Sample.tokenB]
           [Sample.page1; Sample.endPage; Sample.page2; Sample.endPage]
           _ _ _
           [("MintA", [Sample.page1; Sample.endPage]);
            ("MintB", [Sample.page2; Sample.endPage])]
           _ ltac:(discriminate) eq_refl eq_refl eq_refl).
Defined.

Example sample_policies_agree :
  map Script.hs_address
    (Script.qualify 2
       (Script.summarize
          [(Sample.tokenA,
            [mkTokenHolder "x" 105 (Some (inject_Z 105 * (21 # 10000))%Q);
             mkTokenHolder "y" 50 (Some (inject_Z 50 * (21 # 10000))%Q)]);
           (Sample.tokenB,
            [mkTokenHolder "z" 7 (Some (inject_Z 7 * (25 # 10000))%Q);
             mkTokenHolder "y" 1 (Some (inject_Z 1 * (25 # 10000))%Q)])])) = ["y"]
  /\ option_map fst
       (match Part000.findCommonHolders
                [("MintA", [Sample.page1; Sample.endPage]);
                 ("MintB", [Sample.page2; Sample.endPage])] with
        | Returned r => Some r
        | _ => None
        end) = Some ["y"].
Proof. split; reflexivity. Qed.

(** C5 as stated fails on the empty token list: the threshold run, with
    minimum 0, returns an empty list of qualified holders, while the
    intersection run throws. *)
Lemma empty_token_list_separates_policies :
  outcome (Script.findHoldersWithMinTokens []
             (Z.of_nat (List.length (@nil Script.TokenInfo))) [])
    = Returned ([], []) /\
  Part000.findCommonHolders [] = Thrown TypeError /\
  ~ (exists common d',
       Part000.findCommonHolders [] = Returned (common, d')).
Proof.
  split; [reflexivity|]. split; [reflexivity|].
  intros (common & d' & H). discriminate H.
Qed.

(* ------------------------------------------------------------------ *)
(** ** Rate limiter *)

Module RateLimiterFacts.
Import RateLimiter.

Lemma MIN_TIME_value : MIN_TIME_BETWEEN_REQUESTS = 125.
Proof. reflexivity. Qed.

(** Dispatch times, latest first, each at least 125 ms after all earlier
    ones. *)
Definition spaced (ts : list Z) : Prop :=
  StronglySorted (fun later earlier => earlier + 125 <= later) ts.

(** The [c] latest dispatches are those counted by [requestsInLastSecond]:
    the earliest of them came at least one second after all the others. *)
Fixpoint batchOk (c : nat) (ts : list Z) : Prop :=
  match ts with
  | [] => True
  | t :: older =>
      match c with
      | O => False
      | S O => Forall (fun u => u + 1000 <= t) older
      | S c' => batchOk c' older
      end
  end.

(** Every dispatch has at most 7 dispatches in the second before it. *)
Fixpoint windowOk (ts : list Z) : Prop :=
  match ts with
  | [] => True
  | t :: older =>
      (List.length (filter (fun u => (t - 1000 <=? u)%Z) older) <= 7)%nat /\
      windowOk older
  end.

Record Inv (s : Sys) : Prop := {
  inv_spaced : spaced (dispatchTimes s);
  inv_last :
    match dispatchTimes s with
    | [] => True
    | t :: _ => t = lastRequestTime (this s) /\ t <= clock s
    end;
  inv_count : 0 <= requestsInLastSecond (this s) <= 8;
  inv_batch :
    batchOk (Z.to_nat (requestsInLastSecond (this s))) (dispatchTimes s);
  inv_window : windowOk (dispatchTimes s);
  inv_pc :
    match pc s with
    | Idle =>
        processing (this s) = false /\
        (dispatchTimes s <> [] -> lastRequestTime (this s) + 125 <= clock s)
    | Throttled wake _ =>
        processing (this s) = true /\ queue (this s) <> [] /\
        lastRequestTime (this s) + 1000 <= wake /\
        (dispatchTimes s <> [] -> lastRequestTime (this s) + 125 <= clock s)
    | Running _ => processing (this s) = true /\ dispatchTimes s <> []
    | Spacing wake =>
        processing (this s) = true /\ lastRequestTime (this s) + 125 <= wake
    end
}.

Lemma filter_none (p : Z -> bool) l :
  Forall (fun u => p u = false) l -> filter p l = [].
Proof. induction 1 as [|u l Hu _ IH]; simpl; auto. now rewrite Hu. Qed.

Lemma spaced_below_head t older :
  spaced (t :: older) -> Forall (fun u => u + 125 <= t) older.
Proof. intros H. now inversion H. Qed.

Lemma recent_in_batch ts : forall c T,
  spaced ts -> batchOk (S c) ts ->
  match ts with [] => True | t :: _ => t + 125 <= T end ->
  (List.length (filter (fun u => (T - 1000 <=? u)%Z) ts) <= S c)%nat.
Proof.
  induction ts as [|t older IH]; intros c T Hsp Hb Hhd; simpl; [lia|].
  assert (Hrest : (List.length (filter (fun u => (T - 1000 <=? u)%Z) older) <= c)%nat).
  { destruct c as [|c]; simpl in Hb.
    - rewrite filter_none; [simpl; lia|].
      eapply Forall_impl; [|exact Hb]. simpl. intros u Hu.
      apply Z.leb_gt. lia.
    - apply IH; auto.
      + now inversion Hsp.
      + apply spaced_below_head in Hsp. destruct older as [|t' older']; auto.
        inversion Hsp; subst. lia. }
  destruct (T - 1000 <=? t); simpl; lia.
Qed.

Lemma recent_after_pause ts T :
  spaced ts ->
  match ts with [] => True | t :: _ => t + 1000 <= T end ->
  (List.length (filter (fun u => (T - 1000 <=? u)%Z) ts) <= 1)%nat.
Proof.
  destruct ts as [|t older]; simpl; [lia|]. intros Hsp Hhd.
  rewrite (filter_none _ older).
  - destruct (T - 1000 <=? t); simpl; lia.
  - apply spaced_below_head in Hsp.
    eapply Forall_impl; [|exact Hsp]. simpl. intros u Hu.
    apply Z.leb_gt. lia.
Qed.

Lemma all_before ts L T d :
  0 <= d ->
  spaced ts ->
  match ts with [] => True | t :: _ => t = L end ->
  (ts <> [] -> L + d <= T) ->
  Forall (fun u => u + d <= T) ts.
Proof.
  intros Hd Hsp Hhd HT. destruct ts as [|t older]; [constructor|]. subst t.
  assert (L + d <= T) by (apply HT; discriminate).
  constructor; [assumption|].
  apply spaced_below_head in Hsp.
  eapply Forall_impl; [|exact Hsp]. simpl. intros; lia.
Qed.

(** The counter reset, the dequeue and the start of the task. *)
Lemma dispatch_inv now s :
  queue (this s) <> [] ->
  processing (this s) = true ->
  spaced (dispatchTimes s) ->
  match dispatchTimes s with
  | [] => True
  | t :: _ => t = lastRequestTime (this s)
  end ->
  windowOk (dispatchTimes s) ->
  (dispatchTimes s <> [] -> lastRequestTime (this s) + 125 <= clock s) ->
  (let count :=
     if now - lastRequestTime (this s) >=? 1000 then 0
     else requestsInLastSecond (this s) in
   (count = 0 /\
    (dispatchTimes s <> [] -> lastRequestTime (this s) + 1000 <= clock s)) \/
   (1 <= count <= 7 /\ batchOk (Z.to_nat count) (dispatchTimes s))) ->
  Inv (dispatch now s).
Proof.
  intros Hq Hproc Hsp Hlast Hwin Hgap Hcount.
  unfold dispatch.
  destruct (queue (this s)) as [|task q] eqn:Q; [congruence|].
  set (count := if now - lastRequestTime (this s) >=? 1000 then 0
                else requestsInLastSecond (this s)) in *.
  simpl in Hcount.
  split; unfold dispatchTimes in *; simpl.
  - constructor; auto.
    apply (all_before (map snd (dispatched s)) (lastRequestTime (this s))
             (clock s) 125); auto; lia.
  - split; [reflexivity|lia].
  - destruct Hcount as [[-> _]|[? _]]; lia.
  - destruct Hcount as [[-> Hpause]|[Hrange Hb]].
    + change (Z.to_nat (0 + 1)) with 1%nat. cbn [batchOk].
      apply (all_before (map snd (dispatched s)) (lastRequestTime (this s))
               (clock s) 1000); auto; lia.
    + replace (Z.to_nat (count + 1)) with (S (Z.to_nat count)) by lia.
      destruct (Z.to_nat count) as [|k] eqn:K; [lia|]. exact Hb.
  - split; auto.
    destruct Hcount as [[_ Hpause]|[Hrange Hb]].
    + transitivity 1%nat; [|lia]. apply recent_after_pause; auto.
      destruct (map snd (dispatched s)) as [|t older]; auto.
      destruct Hlast. subst. apply Hpause. discriminate.
    + destruct (Z.to_nat count) as [|k] eqn:K; [lia|].
      transitivity (S k); [|lia]. apply recent_in_batch; auto.
      destruct (map snd (dispatched s)) as [|t older]; auto.
      subst t. apply Hgap. discriminate.
  - split; [exact Hproc|discriminate].
Qed.
(** What [processQueue] needs on entry: the fields describe the dispatches
    so far and the spacing delay after the latest one has elapsed. *)
Record Ready (s : Sys) : Prop := {
  rdy_spaced : spaced (dispatchTimes s);
  rdy_last :
    match dispatchTimes s with
    | [] => True
    | t :: _ => t = lastRequestTime (this s)
    end;
  rdy_count : 0 <= requestsInLastSecond (this s) <= 8;
  rdy_batch :
    batchOk (Z.to_nat (requestsInLastSecond (this s))) (dispatchTimes s);
  rdy_window : windowOk (dispatchTimes s);
  rdy_gap : dispatchTimes s <> [] -> lastRequestTime (this s) + 125 <= clock s
}.

Lemma batchOk_0 ts : batchOk 0 ts -> ts = [].
Proof. destruct ts; simpl; tauto. Qed.

Lemma processQueue_inv s : Ready s -> Inv (processQueue s).
Proof.
  intros [Hsp Hlast Hcount Hbatch Hwin Hgap].
  assert (Hlast' : match dispatchTimes s with
                   | [] => True
                   | t :: _ => t = lastRequestTime (this s) /\ t <= clock s
                   end).
  { destruct (dispatchTimes s) as [|t older] eqn:E; auto.
    split; auto. subst t. assert (lastRequestTime (this s) + 125 <= clock s).
    { apply Hgap. discriminate. }
    lia. }
  unfold processQueue.
  destruct (queue (this s)) as [|task q] eqn:Q.
  - split; simpl; auto.
  - set (s1 := mkSys (clock s)
                 (mkFields (task :: q) true (lastRequestTime (this s))
                    (requestsInLastSecond (this s)))
                 (pc s) (dispatched s)).
    assert (D : forall now, now = clock s ->
                (requestsInLastSecond (this s) >= 8 ->
                 now - lastRequestTime (this s) >= 1000) ->
                Inv (dispatch now s1)).
    { intros now -> Hfull. apply dispatch_inv; simpl; auto; try discriminate.
      destruct (Z.geb_spec (clock s - lastRequestTime (this s)) 1000).
      - left. split; auto. intros _. lia.
      - destruct (Z.eq_dec (requestsInLastSecond (this s)) 0) as [E0|N0].
        + left. split; auto. rewrite E0 in Hbatch.
          apply batchOk_0 in Hbatch. intros H'. exfalso. apply H'. exact Hbatch.
        + right. split; [lia|]. exact Hbatch. }
    unfold MAX_REQUESTS_PER_SECOND.
    destruct (Z.geb_spec (requestsInLastSecond (this s)) 8).
    + destruct (Z.gtb_spec (1000 - (clock s - lastRequestTime (this s))) 0).
      * unfold dispatchTimes in *.
        split;
          cbn [clock this pc dispatched queue processing lastRequestTime
               requestsInLastSecond]; auto.
        repeat split; auto; try discriminate. subst s1. cbn [this lastRequestTime]. lia.
      * apply D; auto. lia.
    + apply D; auto. lia.
Qed.

Lemma Inv_processing s : Inv s -> processing (this s) = false -> pc s = Idle.
Proof.
  intros [_ _ _ _ _ Hpc]. destruct (pc s); auto; intuition congruence.
Qed.

Lemma step_inv s i : Inv s -> Inv (step s i).
Proof.
  intros HI. pose proof HI as [Hsp Hlast Hcount Hbatch Hwin Hpc].
  assert (Hlast' : match dispatchTimes s with
                   | [] => True
                   | t :: _ => t = lastRequestTime (this s)
                   end).
  { destruct (dispatchTimes s); tauto. }
  assert (Hnow : dispatchTimes s <> [] -> lastRequestTime (this s) <= clock s).
  { destruct (dispatchTimes s) as [|t older]; [congruence|]. intros _. lia. }
  destruct i as [task|ms| |]; cbn [step].
  - (* Submit *)
    unfold addToQueue.
    destruct (processing (this s)) eqn:P; cbn [negb].
    + split; auto. cbn [pc this processing queue lastRequestTime].
      destruct (pc s); auto.
      destruct Hpc as (? & ? & ? & ?). repeat split; auto.
      destruct (queue (this s)); discriminate.
    + rewrite (Inv_processing s HI P) in Hpc.
      apply processQueue_inv. split; auto. tauto.
  - (* Elapse *)
    split; auto.
    + cbn [clock this]. change (dispatchTimes _) with (dispatchTimes s).
      destruct (dispatchTimes s); auto. split; [tauto|lia].
    + cbn [clock this pc]. change (dispatchTimes _) with (dispatchTimes s).
      destruct (pc s); auto.
      * destruct Hpc as [? Hg]. split; auto. intros H'. specialize (Hg H'). lia.
      * destruct Hpc as (? & ? & ? & Hg). repeat split; auto.
        intros H'. specialize (Hg H'). lia.
  - (* Fire *)
    destruct (pc s) as [|wake now|task|wake] eqn:PC; auto.
    + destruct (Z.leb_spec wake (clock s)); auto.
      destruct Hpc as (Hp & Hq & Hw & Hg).
      apply dispatch_inv; auto.
      left. cbn [this lastRequestTime requestsInLastSecond clock].
      split; [now destruct (now - lastRequestTime (this s) >=? 1000)|].
      intros _. lia.
    + destruct (Z.leb_spec wake (clock s)); auto.
      destruct Hpc as (Hp & Hw).
      apply processQueue_inv. split; auto. intros _. lia.
  - (* Complete *)
    destruct (pc s) as [|wake now|task|wake] eqn:PC; auto.
    destruct Hpc as [Hp Hne].
    split; auto. cbn [pc this]. split; auto.
    rewrite MIN_TIME_value. cbn [clock]. specialize (Hnow Hne). lia.
Qed.

Lemma init_inv t0 : Inv (init t0).
Proof.
  split; simpl; auto; try lia.
  - constructor.
  - split; auto. intros H. now elim H.
Qed.

Lemma run_inv t0 inputs : Inv (run t0 inputs).
Proof.
  unfold run. generalize (init_inv t0). generalize (init t0).
  induction inputs as [|i inputs IH]; intros s HI; simpl; auto.
  apply IH. now apply step_inv.
Qed.

Lemma filter_length_mono (p q : Z -> bool) l :
  (forall x, p x = true -> q x = true) ->
  (List.length (filter p l) <= List.length (filter q l))%nat.
Proof.
  intros H. induction l as [|x l IH]; simpl; auto.
  destruct (p x) eqn:P.
  - rewrite (H x P). simpl. lia.
  - destruct (q x); simpl; lia.
Qed.

Lemma window_count ts a :
  windowOk ts ->
  (List.length (filter (fun t => ((a <=? t) && (t <=? a + 1000))%Z) ts) <= 8)%nat.
Proof.
  induction ts as [|t older IH]; simpl; [lia|]. intros [Hw Hrest].
  destruct ((a <=? t) && (t <=? a + 1000)) eqn:E; simpl; auto.
  apply andb_prop in E. destruct E as [E1 E2].
  apply Z.leb_le in E1, E2.
  pose proof (filter_length_mono
                (fun u => (a <=? u) && (u <=? a + 1000))
                (fun u => t - 1000 <=? u) older) as M.
  cut (List.length (filter (fun u => ((a <=? u) && (u <=? a + 1000))%Z) older) <= 7)%nat;
    [lia|].
  etransitivity; [apply M|exact Hw].
  intros x Hx. apply andb_prop in Hx. destruct Hx as [Hx _].
  apply Z.leb_le in Hx. apply Z.leb_le. lia.
Qed.
End RateLimiterFacts.

(** Nine tasks queued at once and completing instantly: eight start 125 ms
    apart, the ninth waits until a second has passed since the eighth. *)
Example sample_dispatch_times :
  RateLimiter.dispatchTimes
    (RateLimiter.run 5000
       (map RateLimiter.Submit (seq 1 9) ++
        List.concat (repeat [RateLimiter.Complete; RateLimiter.Elapse 125;
                        RateLimiter.Fire] 8) ++
        [RateLimiter.Elapse 875; RateLimiter.Fire])) =
  [6875; 5875; 5750; 5625; 5500; 5375; 5250; 5125; 5000].
Proof. vm_compute. reflexivity. Qed.

(** C8. Whatever tasks are submitted and however time passes, any two
    dispatches are at least [MIN_TIME_BETWEEN_REQUESTS] = 1000/8 ms apart,
    and every window of one second, both ends included, holds at most
    [MAX_REQUESTS_PER_SECOND] = 8 dispatches. *)
Theorem dispatch_rate_is_bounded :
  forall t0 inputs,
    let s := RateLimiter.run t0 inputs in
    StronglySorted
      (fun later earlier =>
         earlier + RateLimiter.MIN_TIME_BETWEEN_REQUESTS <= later)
      (RateLimiter.dispatchTimes s) /\
    forall a,
      (RateLimiter.dispatchedIn a s
       <= Z.to_nat RateLimiter.MAX_REQUESTS_PER_SECOND)%nat.
Proof.
  intros t0 inputs s.
  destruct (RateLimiterFacts.run_inv t0 inputs) as [Hsp _ _ _ Hwin _].
  split.
  - exact Hsp.
  - intros a. apply RateLimiterFacts.window_count. exact Hwin.
Qed.

(* ------------------------------------------------------------------ *)
(** ** Further properties of the fetchers *)



Lemma fetchLoop0_returned mint rs : forall page holders recs hs,
  AmountsInv holders recs ->
  outcome (Part000.fetchLoop mint rs page holders) = Returned hs ->
  exists holders' recs',
    AmountsInv holders' recs' /\
    hs = array_sort Part000.byAmountDesc
           (map (fun e => mkTokenHolder (fst e) (snd e) None) holders').
Proof.
  induction rs as [|r rs IH]; intros page holders recs hs Inv; simpl;
    [discriminate|].
  unfold Part000.iteration.
  destruct (ok r); simpl; [|discriminate].
  destruct (result r) as [accts|].
  - destruct (Z.of_nat (List.length accts) =? 0); simpl.
    + intros [= <-]. eauto.
    + apply IH with (recs := recs ++ accts).
      now apply accumulate0_all_inv.
  - intros [= <-]. eauto.
Qed.



(** X2. 429 responses never change how a run of the script.ts fetcher ends:
    with them removed from the script the fetcher returns the same holder
    list, throws the same error, or stalls all the same. *)
Theorem rate_limited_responses_do_not_change_outcome :
  forall mint price rs,
    outcome (Script.getTokenHolders mint price rs) =
    outcome (Script.getTokenHolders mint price
               (filter (fun r => negb (isRateLimited r)) rs)).
Proof.
  intros mint price rs. unfold Script.getTokenHolders.
  generalize 1 (@JsMap.empty TokenHolder).
  induction rs as [|r rs IH]; intros page holders; [reflexivity|].
  cbn [filter]. destruct (isRateLimited r) eqn:E; cbn [negb].
  - cbn [Script.fetchLoop]. rewrite iteration_rate_limited by assumption.
    simpl. apply IH.
  - cbn [Script.fetchLoop].
    destruct (Script.iteration price page holders r) as [p h e| |e]; simpl; auto.
Qed.

Lemma response_class r :
  (isDataPage r = true /\ isRateLimited r = false /\
   isEndPage r = false /\ isFatal r = false) \/
  (isDataPage r = false /\ isRateLimited r = true /\
   isEndPage r = false /\ isFatal r = false) \/
  (isDataPage r = false /\ isRateLimited r = false /\
   isEndPage r = true /\ isFatal r = false) \/
  (isDataPage r = false /\ isRateLimited r = false /\
   isEndPage r = false /\ isFatal r = true).
Proof.
  unfold isDataPage, isRateLimited, isEndPage, isFatal.
  destruct (ok r); simpl.
  - destruct (result r) as [accts|]; [|tauto].
    destruct (Z.of_nat (List.length accts) =? 0); simpl; tauto.
  - destruct (status r =? 429); simpl; tauto.
Qed.

(** X3. The script.ts fetcher is left waiting for a response exactly when
    the script holds nothing but record pages and 429 responses: an end page
    or a fatal status anywhere in it ends the run. *)
Theorem fetcher_stalls_iff_script_runs_out :
  forall mint price rs,
    outcome (Script.getTokenHolders mint price rs) = Stalled <->
    Forall (fun r => isDataPage r || isRateLimited r = true) rs.
Proof.
  intros mint price rs. unfold Script.getTokenHolders.
  generalize 1 (@JsMap.empty TokenHolder).
  induction rs as [|r rs IH]; intros page holders.
  - simpl. split; auto.
  - cbn [Script.fetchLoop].
    destruct (response_class r) as [(D & L & E & F)|[(D & L & E & F)|
                                   [(D & L & E & F)|(D & L & E & F)]]].
    + rewrite iteration_data by assumption. simpl. rewrite IH.
      split; [constructor; auto; now rewrite D|].
      intros H. now inversion H.
    + rewrite iteration_rate_limited by assumption. simpl. rewrite IH.
      split; [constructor; auto; now rewrite D, L|].
      intros H. now inversion H.
    + rewrite iteration_end by assumption. simpl.
      split; [discriminate|]. intros H. inversion H; subst.
      rewrite D, L in *. discriminate.
    + rewrite iteration_fatal by assumption. simpl.
      split; [discriminate|]. intros H. inversion H; subst.
      rewrite D, L in *. discriminate.
Qed.

Lemma persistent_429_run mint price rs : forall page holders,
  Forall (fun r => isRateLimited r = true) rs ->
  Script.fetchLoop mint price rs page holders =
  mkRun Stalled
    (List.concat (repeat [Request mint page; Sleep 1000] (List.length rs))
     ++ [Request mint page]) [].
Proof.
  induction rs as [|r rs IH]; intros page holders HF; [reflexivity|].
  inversion HF; subst. cbn [Script.fetchLoop].
  rewrite iteration_rate_limited, IH by assumption. reflexivity.
Qed.

(** X4. The retry has no cap: against a script of [n] 429 responses the
    script.ts fetcher asks for page 1 [n + 1] times, pausing 1000 ms after
    each of the [n] answers, and neither returns nor throws. *)
Theorem persistent_rate_limit_retries_forever :
  forall mint price rs,
    Forall (fun r => isRateLimited r = true) rs ->
    Script.getTokenHolders mint price rs =
    mkRun Stalled
      (List.concat (repeat [Request mint 1; Sleep 1000] (List.length rs))
       ++ [Request mint 1]) [].
Proof. intros. now apply persistent_429_run. Qed.

Lemma persistent_rate_limit_retries_forever_witness :
  Script.getTokenHolders "MintA" Sample.price
    [Sample.tooMany; Sample.tooMany; Sample.tooMany] =
  mkRun Stalled
    [Request "MintA" 1; Sleep 1000; Request "MintA" 1; Sleep 1000;
     Request "MintA" 1; Sleep 1000; Request "MintA" 1] [].
Proof.
  apply (persistent_rate_limit_retries_forever "MintA" Sample.price
           [Sample.tooMany; Sample.tooMany; Sample.tooMany]).
  repeat constructor.
Defined.

(** Address and balance of each holder of a list, and the same under an
    outcome. *)
Definition balances (hs : list TokenHolder) : list (string * Z) :=
  map (fun h => (th_address h, th_amount h)) hs.

Definition outcomeMap {A B} (f : A -> B) (o : Outcome A) : Outcome B :=
  match o with
  | Returned a => Returned (f a)
  | Thrown e => Thrown e
  | Stalled => Stalled
  end.

Definition mapValues {V W} (f : V -> W) (m : JsMap.t V) : JsMap.t W :=
  map (fun e => (fst e, f (snd e))) m.

Lemma get_mapValues V W (f : V -> W) m k :
  JsMap.get (mapValues f m) k = option_map f (JsMap.get m k).
Proof.
  induction m as [|[k' v] m IH]; simpl; auto.
  now destruct (String.eqb k' k).
Qed.

Lemma set_mapValues V W (f : V -> W) m k v :
  JsMap.set (mapValues f m) k (f v) = mapValues f (JsMap.set m k v).
Proof.
  induction m as [|[k' v'] m IH]; simpl; auto.
  destruct (String.eqb k' k); simpl; auto. now rewrite IH.
Qed.

Lemma accumulate_amounts price holders account :
  Part000.accumulate (mapValues th_amount holders) account =
  mapValues th_amount (Script.accumulate price holders account).
Proof.
  unfold Part000.accumulate, Script.accumulate.
  rewrite get_mapValues, <- set_mapValues. simpl.
  now destruct (JsMap.get holders (ta_owner account)).
Qed.

Lemma accumulate_all_amounts price accts : forall holders,
  fold_left Part000.accumulate accts (mapValues th_amount holders) =
  mapValues th_amount (fold_left (Script.accumulate price) accts holders).
Proof.
  induction accts as [|a accts IH]; intros holders; simpl; auto.
  now rewrite (accumulate_amounts price), IH.
Qed.

Lemma array_sort_map A B (f : A -> B) (le1 : A -> A -> bool)
    (le2 : B -> B -> bool) l :
  (forall a b, le2 (f a) (f b) = le1 a b) ->
  array_sort le2 (map f l) = map f (array_sort le1 l).
Proof.
  intros H. induction l as [|x l IH]; simpl; auto.
  rewrite IH. generalize (array_sort le1 l). intros s.
  induction s as [|y s IHs]; simpl; auto.
  rewrite H. destruct (le1 x y); simpl; auto. now rewrite IHs.
Qed.

Lemma sorted_balances_agree price holders recs :
  HoldersInv price holders recs ->
  balances (array_sort Script.byAmountDesc (JsMap.values holders)) =
  balances (array_sort Part000.byAmountDesc
              (map (fun e => mkTokenHolder (fst e) (snd e) None)
                 (mapValues th_amount holders))).
Proof.
  intros [Hnd _ Hentry]. unfold balances.
  rewrite <- (array_sort_map _ _ (fun h => (th_address h, th_amount h))
                Script.byAmountDesc (fun p q => snd q - snd p <=? 0))
    by reflexivity.
  rewrite <- (array_sort_map _ _ (fun h => (th_address h, th_amount h))
                Part000.byAmountDesc (fun p q => snd q - snd p <=? 0))
    by reflexivity.
  f_equal. unfold JsMap.values, mapValues. rewrite !map_map. simpl.
  apply map_ext_in. intros [k h] Hin. simpl.
  apply In_get_Some in Hin; auto. now destruct (Hentry _ _ Hin) as [-> _].
Qed.

Lemma fetchLoops_agree mint price rs : forall page holders recs,
  HoldersInv price holders recs ->
  Forall (fun r => isRateLimited r = false) rs ->
  let a := Script.fetchLoop mint price rs page holders in
  let b := Part000.fetchLoop mint rs page (mapValues th_amount holders) in
  outcomeMap balances (outcome a) = outcomeMap balances (outcome b) /\
  events a = events b /\ rest a = rest b.
Proof.
  induction rs as [|r rs IH]; intros page holders recs Inv HF; simpl; auto.
  inversion HF as [|? ? Hr HF']; subst.
  unfold Script.iteration, Part000.iteration.
  unfold isRateLimited in Hr.
  destruct (ok r); simpl in *.
  - destruct (result r) as [accts|]; simpl.
    + destruct (Z.of_nat (List.length accts) =? 0); simpl.
      * repeat split. f_equal. eapply sorted_balances_agree; eauto.
      * rewrite (accumulate_all_amounts price).
        destruct (IH (page + 1)
                    (fold_left (Script.accumulate price) accts holders)
                    (recs ++ accts) (accumulate_all_inv accts Inv) HF')
          as (Ho & He & Hr').
        repeat split; auto. now rewrite He.
    + repeat split. f_equal. eapply sorted_balances_agree; eauto.
  - rewrite Hr. simpl. auto.
Qed.

(** X5. On a script without 429 responses the two fetchers behave alike:
    they issue the same requests, read the same responses, and end the same
    way, returning the same addresses with the same balances in the same
    order (part_000 without the USD value). *)
Theorem fetchers_agree_without_rate_limits :
  forall mint price rs,
    Forall (fun r => isRateLimited r = false) rs ->
    let a := Script.getTokenHolders mint price rs in
    let b := Part000.getTokenHolders mint rs in
    outcomeMap balances (outcome a) = outcomeMap balances (outcome b) /\
    events a = events b /\ rest a = rest b.
Proof.
  intros mint price rs HF.
  apply (fetchLoops_agree mint price rs 1 JsMap.empty []
           (HoldersInv_empty price) HF).
Qed.

Lemma fetchers_agree_without_rate_limits_witness :
  let rs := [Sample.page1; Sample.page2; Sample.serverError; Sample.page1] in
  let a := Script.getTokenHolders "MintA" Sample.price rs in
  let b := Part000.getTokenHolders "MintA" rs in
  outcomeMap balances (outcome a) = outcomeMap balances (outcome b) /\
  events a = events b /\ rest a = rest b.
Proof.
  apply (fetchers_agree_without_rate_limits "MintA" Sample.price
           [Sample.page1; Sample.page2; Sample.serverError; Sample.page1]).
  repeat constructor.
Defined.

Lemma fetchLoop_accounting mint price rs : forall page holders,
  let run := Script.fetchLoop mint price rs page holders in
  exists consumed,
    rs = consumed ++ rest run /\
    List.length (requestedPages (events run)) =
      (List.length consumed +
       match outcome run with Stalled => 1 | _ => 0 end)%nat /\
    Forall (fun e => match e with
                     | Request m _ => m = mint
                     | Sleep ms => ms = 1000
                     end) (events run).
Proof.
  induction rs as [|r rs IH]; intros page holders.
  - exists []. simpl. repeat split; auto.
  - cbn [Script.fetchLoop]. unfold Script.iteration.
    destruct (ok r); cbn [negb].
    + destruct (result r) as [accts|].
      * destruct (Z.of_nat (List.length accts) =? 0).
        -- exists [r]. simpl. repeat split; auto.
        -- destruct (IH (page + 1)
                       (fold_left (Script.accumulate price) accts holders))
             as (c & Hc & Hl & Hf).
           exists (r :: c). simpl in *. rewrite <- Hc, Hl.
           repeat split; auto.
      * exists [r]. simpl. repeat split; auto.
    + destruct (status r =? 429).
      * destruct (IH page holders) as (c & Hc & Hl & Hf).
        exists (r :: c). simpl in *. rewrite <- Hc, Hl.
        repeat split; auto.
      * exists [r]. simpl. repeat split; auto.
Qed.

(** X6. A run of the script.ts fetcher reads a prefix of the script and
    nothing beyond it, issues exactly one request per response read (one
    more when it is left waiting), asks only for its own mint, and pauses
    only for 1000 ms. *)
Theorem fetcher_reads_one_response_per_request :
  forall mint price rs,
    let run := Script.getTokenHolders mint price rs in
    exists consumed,
      rs = consumed ++ rest run /\
      List.length (requestedPages (events run)) =
        (List.length consumed +
         match outcome run with Stalled => 1 | _ => 0 end)%nat /\
      Forall (fun e => match e with
                       | Request m _ => m = mint
                       | Sleep ms => ms = 1000
                       end) (events run).
Proof. intros. apply fetchLoop_accounting. Qed.

(* ------------------------------------------------------------------ *)
(** ** Further properties of the threshold aggregation *)

Lemma find_snoc A (f : A -> bool) l x :
  find f (l ++ [x]) =
  match find f l with
  | Some y => Some y
  | None => if f x then Some x else None
  end.
Proof. induction l as [|y l IH]; simpl; auto. now destruct (f y). Qed.

Lemma details_get results : forall (hd : JsMap.t (list TokenHolder)) a,
  JsMap.get
    (fold_left (fun hd tr => JsMap.set hd (Script.ti_address (fst tr)) (snd tr))
       results hd) a =
  match find (fun tr => String.eqb (Script.ti_address (fst tr)) a) (rev results)
  with
  | Some tr => Some (snd tr)
  | None => JsMap.get hd a
  end.
Proof.
  induction results as [|tr results IH]; intros hd a; simpl; auto.
  rewrite IH, find_snoc.
  destruct (find _ (rev results)); auto.
  destruct (String.eqb_spec (Script.ti_address (fst tr)) a) as [<-|Hne].
  - apply get_set_same.
  - now apply get_set_other.
Qed.

Lemma details_keys results : forall (hd : JsMap.t (list TokenHolder)),
  NoDup (JsMap.keys hd ++ map (fun tr => Script.ti_address (fst tr)) results) ->
  JsMap.keys
    (fold_left (fun hd tr => JsMap.set hd (Script.ti_address (fst tr)) (snd tr))
       results hd) =
  JsMap.keys hd ++ map (fun tr => Script.ti_address (fst tr)) results.
Proof.
  induction results as [|tr results IH]; intros hd Hnd; simpl.
  - now rewrite app_nil_r.
  - simpl in Hnd.
    assert (Hfresh : JsMap.has hd (Script.ti_address (fst tr)) = false).
    { apply has_false_notin. intros Hin.
      apply NoDup_remove_2 in Hnd. apply Hnd. apply in_app_iff. now left. }
    rewrite IH; rewrite keys_set, Hfresh, <- app_assoc; auto.
Qed.

Lemma find_rev_unique A (f : A -> bool) (key : A -> string) l x :
  (forall y, f y = true -> key y = key x) ->
  NoDup (map key l) -> In x l -> f x = true ->
  find f (rev l) = Some x.
Proof.
  intros Hkey Hnd Hin Hfx.
  destruct (find f (rev l)) as [y|] eqn:F.
  - apply find_some in F. destruct F as [Hy Hfy].
    apply in_rev in Hy. f_equal.
    apply Hkey in Hfy. clear Hkey Hfx.
    induction l as [|z l IH]; simpl in *; [tauto|].
    inversion Hnd; subst.
    destruct Hin as [->|Hin], Hy as [->|Hy]; auto.
    + exfalso. apply H1. rewrite <- Hfy. now apply in_map.
    + exfalso. apply H1. rewrite Hfy. now apply in_map.
  - exfalso. apply in_rev in Hin.
    pose proof (find_none _ _ F x Hin). congruence.
Qed.

(** X7. [holderDetails], as returned by a successful run, maps a token
    identifier to the holder list fetched for the last token-list entry
    carrying it.  When no identifier is repeated its keys are the token
    identifiers in token order and each token is mapped to its own list. *)
Theorem holder_details_hold_fetched_lists :
  forall tokens min rs results evs rs',
    min <= Z.of_nat (List.length tokens) ->
    Script.fetchAll tokens rs = mkRun (Returned results) evs rs' ->
    exists q d,
      Script.findHoldersWithMinTokens tokens min rs =
        mkRun (Returned (q, d)) evs rs' /\
      (forall a,
         JsMap.get d a =
         option_map snd
           (find (fun tr => String.eqb (Script.ti_address (fst tr)) a)
              (rev results))) /\
      (NoDup (map Script.ti_address tokens) ->
       JsMap.keys d = map Script.ti_address tokens /\
       forall tr, In tr results ->
         JsMap.get d (Script.ti_address (fst tr)) = Some (snd tr)).
Proof.
  intros tokens min rs results evs rs' Hmin Hfetch.
  destruct (fetchAll_results tokens rs results evs rs' Hfetch) as [Hm _].
  exists (Script.qualify min (Script.summarize results)).
  exists (Script.detailsOf results).
  assert (G : forall a,
            JsMap.get (Script.detailsOf results) a =
            option_map snd
              (find (fun tr => String.eqb (Script.ti_address (fst tr)) a)
                 (rev results))).
  { intros a. unfold Script.detailsOf. rewrite details_get.
    now destruct (find _ (rev results)). }
  split; [|split; [exact G|]].
  - rewrite findHoldersWithMinTokens_fetchAll, Hfetch by assumption.
    reflexivity.
  - intros Hnd. rewrite <- Hm, map_map in Hnd. split.
    + unfold Script.detailsOf. rewrite details_keys by exact Hnd.
      simpl. now rewrite <- Hm, map_map.
    + intros tr Hin. rewrite G.
      rewrite (find_rev_unique _ _ (fun tr => Script.ti_address (fst tr)) results tr);
        auto.
      * intros y Hy. now apply String.eqb_eq in Hy.
      * apply String.eqb_refl.
Qed.

Lemma holder_details_hold_fetched_lists_witness :
  exists q d,
    Script.findHoldersWithMinTokens [Sample.tokenA; Sample.tokenB] 1
      [Sample.page1; Sample.endPage; Sample.page2; Sample.endPage] =
      mkRun (Returned (q, d))
        [Request "MintA" 1; Request "MintA" 2; Sleep 100;
         Request "MintB" 1; Request "MintB" 2; Sleep 100] [] /\
    JsMap.keys d = ["MintA"; "MintB"] /\
    JsMap.get d "MintB" =
      Some [mkTokenHolder "z" 7 (Some (inject_Z 7 * (25 # 10000))%Q);
            mkTokenHolder "y" 1 (Some (inject_Z 1 * (25 # 10000))%Q)].
Proof.
  destruct (holder_details_hold_fetched_lists
              [Sample.tokenA; Sample.tokenB] 1
              [Sample.page1; Sample.endPage; Sample.page2; Sample.endPage]
              _ _ _ ltac:(simpl; lia) eq_refl) as (q & d & E & G & K).
  exists q, d. split; [exact E|].
  destruct K as [K1 K2].
  - repeat constructor; simpl; intuition discriminate.
  - split; [exact K1|]. rewrite G. reflexivity.
Defined.

(** The record of address [a] in a holder list, if any. *)
Definition holderOf (a : string) (holders : list TokenHolder)
    : option TokenHolder :=
  find (fun h => String.eqb (th_address h) a) holders.

Definition tokenIds (results : list (Script.TokenInfo * list TokenHolder))
    : list string :=
  map (fun tr => Script.ti_address (fst tr)) results.

Lemma holderOf_not_holds a holders :
  Script.holds a holders = false -> holderOf a holders = None.
Proof.
  unfold Script.holds, holderOf.
  induction holders as [|h l IH]; simpl; auto.
  destruct (String.eqb (th_address h) a); simpl; [discriminate|auto].
Qed.

Section Holdings.
Variable tok : string.
Variable results : list (Script.TokenInfo * list TokenHolder).
Hypothesis tok_fresh : ~ In tok (tokenIds results).

(** The [holdings] maps of the summaries while the list of token [tok] is
    being merged, after the lists [results]. *)
Record HoldInv (hc : JsMap.t Script.HolderSummary) (done : list TokenHolder)
    : Prop := {
  hinv_merged : forall a s tr,
    JsMap.get hc a = Some s -> In tr results ->
    JsMap.get (Script.hs_holdings s) (Script.ti_address (fst tr)) =
    holderOf a (snd tr);
  hinv_current : forall a s,
    JsMap.get hc a = Some s ->
    JsMap.get (Script.hs_holdings s) tok = holderOf a done;
  hinv_keys : forall a s k,
    JsMap.get hc a = Some s -> In k (JsMap.keys (Script.hs_holdings s)) ->
    k = tok \/ In k (tokenIds results)
}.

Lemma merged_id_differs tr : In tr results -> tok <> Script.ti_address (fst tr).
Proof.
  intros Hin E. apply tok_fresh. unfold tokenIds. rewrite E.
  now apply (in_map (fun tr => Script.ti_address (fst tr))).
Qed.

Lemma tally_hold_inv hc done h :
  TallyInv hc results done ->
  HoldInv hc done ->
  ~ In (th_address h) (map th_address done) ->
  HoldInv (Script.tally tok hc h) (done ++ [h]).
Proof.
  intros [Hnd Hkeys Hentry] [Hm Hc Hk] Hfresh.
  assert (Hd : holderOf (th_address h) done = None).
  { apply holderOf_not_holds.
    destruct (Script.holds (th_address h) done) eqn:E; auto.
    apply holds_In in E. tauto. }
  assert (Hother : forall a, th_address h <> a ->
            holderOf a (done ++ [h]) = holderOf a done).
  { intros a Hne. unfold holderOf. rewrite find_snoc.
    apply String.eqb_neq in Hne. rewrite Hne.
    now destruct (find _ done). }
  assert (Hself : holderOf (th_address h) (done ++ [h]) = Some h).
  { unfold holderOf in *. now rewrite find_snoc, Hd, String.eqb_refl. }
  unfold Script.tally.
  destruct (JsMap.has hc (th_address h)) eqn:Hhas; simpl.
  - destruct (JsMap.get hc (th_address h)) as [s0|] eqn:G.
    2:{ unfold JsMap.has in Hhas. now rewrite G in Hhas. }
    split.
    + intros a s tr.
      destruct (String.eqb_spec (th_address h) a) as [<-|Hne].
      * rewrite get_set_same. intros [= <-] Hin. simpl.
        rewrite get_set_other by now apply merged_id_differs. eauto.
      * rewrite get_set_other by assumption. eauto.
    + intros a s.
      destruct (String.eqb_spec (th_address h) a) as [<-|Hne].
      * rewrite get_set_same. intros [= <-]. simpl.
        now rewrite get_set_same, Hself.
      * rewrite get_set_other by assumption. intros G'.
        rewrite Hother by assumption. eauto.
    + intros a s k.
      destruct (String.eqb_spec (th_address h) a) as [<-|Hne].
      * rewrite get_set_same. intros [= <-]. simpl.
        rewrite In_keys_set. intros [->|Hin]; eauto.
      * rewrite get_set_other by assumption. eauto.
  - rewrite get_set_same. apply has_false_notin in Hhas.
    assert (Hnone : forall tr, In tr results ->
              holderOf (th_address h) (snd tr) = None).
    { intros tr Hin. apply holderOf_not_holds.
      destruct (Script.holds (th_address h) (snd tr)) eqn:E; auto.
      exfalso. apply Hhas, Hkeys. left. eauto. }
    split.
    + intros a s tr.
      destruct (String.eqb_spec (th_address h) a) as [<-|Hne].
      * rewrite get_set_same. intros [= <-] Hin. simpl.
        apply merged_id_differs in Hin as Hid.
        apply String.eqb_neq in Hid. rewrite Hid. symmetry. auto.
      * rewrite !get_set_other by assumption. eauto.
    + intros a s.
      destruct (String.eqb_spec (th_address h) a) as [<-|Hne].
      * rewrite get_set_same. intros [= <-]. simpl.
        now rewrite String.eqb_refl, Hself.
      * rewrite !get_set_other by assumption. intros G'.
        rewrite Hother by assumption. eauto.
    + intros a s k.
      destruct (String.eqb_spec (th_address h) a) as [<-|Hne].
      * rewrite get_set_same. intros [= <-]. simpl. intros [->|[]]. now left.
      * rewrite !get_set_other by assumption. eauto.
Qed.

Lemma tally_all_hold_inv holders : forall hc done,
  TallyInv hc results done ->
  HoldInv hc done ->
  NoDup (map th_address (done ++ holders)) ->
  HoldInv (fold_left (Script.tally tok) holders hc) (done ++ holders).
Proof.
  induction holders as [|h holders IH]; intros hc done TI HI Hnd.
  - now rewrite app_nil_r.
  - simpl. replace (done ++ h :: holders) with ((done ++ [h]) ++ holders)
      in * by now rewrite <- app_assoc.
    assert (Hfresh : ~ In (th_address h) (map th_address done)).
    { rewrite !map_app in Hnd. apply NoDup_app_remove_r in Hnd.
      simpl in Hnd. apply NoDup_remove_2 in Hnd.
      now rewrite app_nil_r in Hnd. }
    apply IH; auto.
    + now apply tally_inv.
    + now apply tally_hold_inv.
Qed.
End Holdings.

(** The [holdings] maps once the lists [results] are merged. *)
Record HoldDone (hc : JsMap.t Script.HolderSummary)
    (results : list (Script.TokenInfo * list TokenHolder)) : Prop := {
  hdone_merged : forall a s tr,
    JsMap.get hc a = Some s -> In tr results ->
    JsMap.get (Script.hs_holdings s) (Script.ti_address (fst tr)) =
    holderOf a (snd tr);
  hdone_keys : forall a s k,
    JsMap.get hc a = Some s -> In k (JsMap.keys (Script.hs_holdings s)) ->
    In k (tokenIds results)
}.

Lemma HoldDone_open tok hc results :
  HoldDone hc results -> ~ In tok (tokenIds results) ->
  HoldInv tok results hc [].
Proof.
  intros [Hm Hk] Hfresh. split; eauto.
  intros a s G. simpl.
  destruct (JsMap.get (Script.hs_holdings s) tok) eqn:E; auto.
  exfalso. apply Hfresh. apply (Hk a s tok G).
  apply get_Some_In, (in_map fst) in E. exact E.
Qed.

Lemma HoldInv_close hc results tr :
  HoldInv (Script.ti_address (fst tr)) results hc (snd tr) ->
  HoldDone hc (results ++ [tr]).
Proof.
  intros [Hm Hc Hk]. split.
  - intros a s tr' G Hin. apply in_app_iff in Hin.
    destruct Hin as [Hin|[<-|[]]]; eauto.
  - intros a s k G Hin. unfold tokenIds. rewrite map_app, in_app_iff. simpl.
    destruct (Hk a s k G Hin) as [->|H]; auto.
Qed.

Lemma summarize_from_hold results : forall hc merged,
  TallyInv hc merged [] ->
  HoldDone hc merged ->
  Forall (fun tr => NoDup (map th_address (snd tr))) results ->
  NoDup (tokenIds (merged ++ results)) ->
  HoldDone
    (fold_left
       (fun hc tr =>
          fold_left (Script.tally (Script.ti_address (fst tr))) (snd tr) hc)
       results hc)
    (merged ++ results).
Proof.
  induction results as [|tr results IH]; intros hc merged TI HD HF Hnd.
  - now rewrite app_nil_r.
  - inversion HF as [|? ? Hl HF']; subst. simpl.
    replace (merged ++ tr :: results) with ((merged ++ [tr]) ++ results)
      in * by now rewrite <- app_assoc.
    assert (Hfresh : ~ In (Script.ti_address (fst tr)) (tokenIds merged)).
    { unfold tokenIds in *. rewrite !map_app in Hnd.
      apply NoDup_app_remove_r in Hnd. simpl in Hnd.
      apply NoDup_remove_2 in Hnd. now rewrite app_nil_r in Hnd. }
    apply IH; auto.
    + apply TallyInv_close.
      apply (tally_all_inv (Script.ti_address (fst tr)) (snd tr) hc merged []
               TI Hl).
    + apply HoldInv_close.
      apply (tally_all_hold_inv (Script.ti_address (fst tr)) merged Hfresh
               (snd tr) hc [] TI (HoldDone_open _ _ _ HD Hfresh) Hl).
Qed.

Lemma summarize_hold results :
  Forall (fun tr => NoDup (map th_address (snd tr))) results ->
  NoDup (tokenIds results) ->
  HoldDone (Script.summarize results) results.
Proof.
  intros HF Hnd.
  apply (summarize_from_hold results JsMap.empty [] TallyInv_empty); auto.
  split; simpl; discriminate.
Qed.

Lemma qualify_get min hc results s :
  TallyInv hc results [] ->
  In s (Script.qualify min hc) ->
  JsMap.get hc (Script.hs_address s) = Some s.
Proof.
  intros [Hnd _ Hentry] Hin. unfold Script.qualify in Hin.
  apply array_sort_In, filter_In in Hin. destruct Hin as [Hin _].
  unfold JsMap.values in Hin. apply in_map_iff in Hin.
  destruct Hin as ([k s'] & <- & Hin). simpl.
  apply In_get_Some in Hin; auto.
  destruct (Hentry _ _ Hin) as (-> & _). exact Hin.
Qed.

(** X8. For a token list without repeated identifiers, the [holdings] map
    of every qualified holder has, under each token's identifier, that
    address's record in the holder list fetched for the token, and no entry
    for a token the address does not hold; it has no other keys. *)
Theorem summary_holdings_match_fetched_lists :
  forall tokens min rs results evs rs',
    min <= Z.of_nat (List.length tokens) ->
    Script.fetchAll tokens rs = mkRun (Returned results) evs rs' ->
    NoDup (map Script.ti_address tokens) ->
    exists q d,
      Script.findHoldersWithMinTokens tokens min rs =
        mkRun (Returned (q, d)) evs rs' /\
      forall s, In s q ->
        (forall tr, In tr results ->
           JsMap.get (Script.hs_holdings s) (Script.ti_address (fst tr)) =
           holderOf (Script.hs_address s) (snd tr)) /\
        (forall k, In k (JsMap.keys (Script.hs_holdings s)) ->
           In k (map Script.ti_address tokens)).
Proof.
  intros tokens min rs results evs rs' Hmin Hfetch Hnd.
  destruct (fetchAll_results tokens rs results evs rs' Hfetch) as [Hm HF].
  assert (Hids : tokenIds results = map Script.ti_address tokens).
  { unfold tokenIds. now rewrite <- Hm, map_map. }
  rewrite <- Hids in Hnd.
  destruct (summarize_hold results HF Hnd) as [Hmerged Hkeys].
  eexists. eexists. split.
  - rewrite findHoldersWithMinTokens_fetchAll, Hfetch by assumption.
    reflexivity.
  - intros s Hin.
    apply (qualify_get min _ results s (summarize_inv results HF)) in Hin.
    split.
    + intros tr Htr. eauto.
    + intros k Hk. rewrite <- Hids. eauto.
Qed.

Lemma summary_holdings_match_fetched_lists_witness :
  exists q d,
    Script.findHoldersWithMinTokens [Sample.tokenA; Sample.tokenB] 2
      [Sample.page1; Sample.endPage; Sample.page2; Sample.endPage] =
      mkRun (Returned (q, d))
        [Request "MintA" 1; Request "MintA" 2; Sleep 100;
         Request "MintB" 1; Request "MintB" 2; Sleep 100] [] /\
    forall s, In s q ->
      (forall tr,
         In tr
           [(Sample.tokenA,
             [mkTokenHolder "x" 105 (Some (inject_Z 105 * (21 # 10000))%Q);
              mkTokenHolder "y" 50 (Some (inject_Z 50 * (21 # 10000))%Q)]);
            (Sample.tokenB,
             [mkTokenHolder "z" 7 (Some (inject_Z 7 * (25 # 10000))%Q);
              mkTokenHolder "y" 1 (Some (inject_Z 1 * (25 # 10000))%Q)])] ->
         JsMap.get (Script.hs_holdings s) (Script.ti_address (fst tr)) =
         holderOf (Script.hs_address s) (snd tr)) /\
      (forall k, In k (JsMap.keys (Script.hs_holdings s)) ->
         In k (map Script.ti_address [Sample.tokenA; Sample.tokenB])).
Proof.
  apply (summary_holdings_match_fetched_lists
           [Sample.tokenA; Sample.tokenB] 2
           [Sample.page1; Sample.endPage; Sample.page2; Sample.endPage]
           _ _ _ ltac:(simpl; lia) eq_refl).
  repeat constructor; simpl; intuition discriminate.
Defined.

Definition isPause (ms : Z) (e : Event) : bool :=
  match e with
  | Sleep m => m =? ms
  | Request _ _ => false
  end.

Lemma fetch_has_no_short_pause mint price rs :
  filter (isPause 100) (events (Script.getTokenHolders mint price rs)) = [].
Proof.
  destruct (fetchLoop_accounting mint price rs 1 JsMap.empty)
    as (_ & _ & _ & HF).
  unfold Script.getTokenHolders.
  induction HF as [|e evs He _ IH]; simpl; auto.
  destruct e as [m p|ms]; simpl; auto. now subst ms.
Qed.

Lemma fetchAll_pauses tokens : forall rs results,
  outcome (Script.fetchAll tokens rs) = Returned results ->
  List.length (filter (isPause 100) (events (Script.fetchAll tokens rs))) =
  List.length tokens.
Proof.
  induction tokens as [|token tokens IH]; intros rs results; simpl; auto.
  destruct (outcome (Script.getTokenHolders _ _ rs)) as [holders|e|] eqn:G;
    simpl; [|discriminate..].
  destruct (outcome (Script.fetchAll tokens _)) as [l|e|] eqn:E;
    [|discriminate..].
  intros _. rewrite filter_app, fetch_has_no_short_pause. simpl.
  f_equal. eapply IH; eauto.
Qed.

(** X9. A run of [findHoldersWithMinTokens] that returns has paused for
    100 ms exactly once per token of the list, the last token included. *)
Theorem one_courtesy_pause_per_token :
  forall tokens min rs res,
    outcome (Script.findHoldersWithMinTokens tokens min rs) = Returned res ->
    List.length
      (filter (isPause 100)
         (events (Script.findHoldersWithMinTokens tokens min rs))) =
    List.length tokens.
Proof.
  intros tokens min rs res. unfold Script.findHoldersWithMinTokens.
  destruct (min >? Z.of_nat (List.length tokens)); simpl; [discriminate|].
  rewrite forTokens_fetchAll. simpl.
  destruct (outcome (Script.fetchAll tokens rs)) as [results|e|] eqn:E;
    simpl; [|discriminate..].
  intros _. eapply fetchAll_pauses; eauto.
Qed.

Lemma one_courtesy_pause_per_token_witness :
  List.length
    (filter (isPause 100)
       (events (Script.findHoldersWithMinTokens
                  [Sample.tokenA; Sample.tokenB] 1
                  [Sample.page1; Sample.tooMany; Sample.endPage;
                   Sample.page2; Sample.endPage]))) =
  List.length [Sample.tokenA; Sample.tokenB].
Proof.
  eapply (one_courtesy_pause_per_token [Sample.tokenA; Sample.tokenB] 1
            [Sample.page1; Sample.tooMany; Sample.endPage;
             Sample.page2; Sample.endPage]).
  reflexivity.
Defined.

(** X10. Lowering the minimum never loses a holder: on the same tokens and
    responses, every summary returned for a minimum is returned for any
    smaller one, with the same [holderDetails]. *)
Theorem lower_minimum_keeps_qualified_holders :
  forall tokens min1 min2 rs q2 d evs rs',
    min1 <= min2 ->
    Script.findHoldersWithMinTokens tokens min2 rs =
      mkRun (Returned (q2, d)) evs rs' ->
    exists q1,
      Script.findHoldersWithMinTokens tokens min1 rs =
        mkRun (Returned (q1, d)) evs rs' /\
      forall s, In s q2 -> In s q1.
Proof.
  intros tokens min1 min2 rs q2 d evs rs' Hle.
  unfold Script.findHoldersWithMinTokens.
  destruct (Z.gtb_spec min2 (Z.of_nat (List.length tokens))); [discriminate|].
  destruct (Z.gtb_spec min1 (Z.of_nat (List.length tokens))); [lia|].
  destruct (Script.forTokens tokens rs JsMap.empty JsMap.empty)
    as [[[hd hc]|e|] evs0 rs0]; simpl; [|discriminate..].
  intros [= <- <- <- <-]. eexists. split; [reflexivity|].
  intros s. unfold Script.qualify. rewrite !array_sort_In, !filter_In.
  intros [Hin Hge]. split; auto.
  apply Z.geb_le in Hge. apply Z.geb_le. lia.
Qed.

Lemma lower_minimum_keeps_qualified_holders_witness :
  exists q1,
    Script.findHoldersWithMinTokens [Sample.tokenA; Sample.tokenB] 1
      [Sample.page1; Sample.endPage; Sample.page2; Sample.endPage] =
      mkRun (Returned (q1, Script.detailsOf
        [(Sample.tokenA,
          [mkTokenHolder "x" 105 (Some (inject_Z 105 * (21 # 10000))%Q);
           mkTokenHolder "y" 50 (Some (inject_Z 50 * (21 # 10000))%Q)]);
         (Sample.tokenB,
          [mkTokenHolder "z" 7 (Some (inject_Z 7 * (25 # 10000))%Q);
           mkTokenHolder "y" 1 (Some (inject_Z 1 * (25 # 10000))%Q)])]))
        [Request "MintA" 1; Request "MintA" 2; Sleep 100;
         Request "MintB" 1; Request "MintB" 2; Sleep 100] [] /\
    List.length q1 = 3%nat.
Proof.
  destruct (lower_minimum_keeps_qualified_holders
              [Sample.tokenA; Sample.tokenB] 1 2
              [Sample.page1; Sample.endPage; Sample.page2; Sample.endPage]
              _ _ _ _ ltac:(lia) eq_refl) as (q1 & E & _).
  exists q1. split; [exact E|].
  injection E as <-. reflexivity.
Defined.

(** X11. With a minimum of at most 1 the qualified holders are the union of
    the per-token holder sets: an address is returned exactly when it is in
    the holder list of some token. *)
Theorem minimum_one_returns_every_holder :
  forall tokens min rs results evs rs',
    min <= 1 ->
    min <= Z.of_nat (List.length tokens) ->
    Script.fetchAll tokens rs = mkRun (Returned results) evs rs' ->
    exists q d,
      Script.findHoldersWithMinTokens tokens min rs =
        mkRun (Returned (q, d)) evs rs' /\
      NoDup (map Script.hs_address q) /\
      forall a,
        In a (map Script.hs_address q) <->
        exists tr, In tr results /\ In a (map th_address (snd tr)).
Proof.
  intros tokens min rs results evs rs' Hone Hmin Hfetch.
  destruct (fetchAll_results tokens rs results evs rs' Hfetch) as [_ HF].
  destruct (qualify_spec min _ _ (summarize_inv results HF)) as (Hnd & Hq & _).
  eexists. eexists. split; [|split; [exact Hnd|]].
  - rewrite findHoldersWithMinTokens_fetchAll, Hfetch by assumption.
    reflexivity.
  - intros a. rewrite Hq, entryCount_pos. split.
    + intros [(tr & H1 & H2) _]. exists tr. split; auto. now apply holds_In.
    + intros (tr & H1 & H2).
      assert (E : exists tr, In tr results /\ Script.holds a (snd tr) = true).
      { exists tr. split; auto. now apply holds_In. }
      split; auto. apply entryCount_pos in E. lia.
Qed.

Lemma minimum_one_returns_every_holder_witness :
  exists q d,
    Script.findHoldersWithMinTokens [Sample.tokenA; Sample.tokenB] 0
      [Sample.page1; Sample.endPage; Sample.page2; Sample.endPage] =
      mkRun (Returned (q, d))
        [Request "MintA" 1; Request "MintA" 2; Sleep 100;
         Request "MintB" 1; Request "MintB" 2; Sleep 100] [] /\
    NoDup (map Script.hs_address q) /\
    forall a,
      In a (map Script.hs_address q) <->
      exists tr,
        In tr
          [(Sample.tokenA,
            [mkTokenHolder "x" 105 (Some (inject_Z 105 * (21 # 10000))%Q);
             mkTokenHolder "y" 50 (Some (inject_Z 50 * (21 # 10000))%Q)]);
           (Sample.tokenB,
            [mkTokenHolder "z" 7 (Some (inject_Z 7 * (25 # 10000))%Q);
             mkTokenHolder "y" 1 (Some (inject_Z 1 * (25 # 10000))%Q)])] /\
        In a (map th_address (snd tr)).
Proof.
  apply (minimum_one_returns_every_holder
           [Sample.tokenA; Sample.tokenB] 0
           [Sample.page1; Sample.endPage; Sample.page2; Sample.endPage]
           _ _ _ ltac:(lia) ltac:(simpl; lia) eq_refl).
Defined.

Lemma entryCount_perm a results results' :
  Permutation results results' ->
  Script.entryCount a results = Script.entryCount a results'.
Proof.
  unfold Script.entryCount.
  induction 1 as [|x l l' _ IH|x y l|l l' l'' _ IH1 _ IH2]; simpl; auto.
  - destruct (Script.holds a (snd x)); simpl; lia.
  - destruct (Script.holds a (snd x)), (Script.holds a (snd y)); simpl; lia.
  - lia.
Qed.

(** X12. Which addresses qualify, and with what token count, does not depend
    on the order in which the per-token holder lists are merged: merging
    them in another order qualifies the same addresses, each with the same
    token count. *)
Theorem summary_is_order_independent :
  forall results results' min,
    Permutation results results' ->
    Forall (fun tr => NoDup (map th_address (snd tr))) results ->
    let q := Script.qualify min (Script.summarize results) in
    let q' := Script.qualify min (Script.summarize results') in
    (forall a, In a (map Script.hs_address q) <->
               In a (map Script.hs_address q')) /\
    (forall s s', In s q -> In s' q' ->
       Script.hs_address s = Script.hs_address s' ->
       Script.hs_tokenCount s = Script.hs_tokenCount s').
Proof.
  intros results results' min HP HF q q'.
  assert (HF' : Forall (fun tr => NoDup (map th_address (snd tr))) results').
  { eapply Permutation_Forall; eauto. }
  destruct (qualify_spec min _ _ (summarize_inv results HF)) as (_ & Hq & Hs).
  destruct (qualify_spec min _ _ (summarize_inv results' HF')) as (_ & Hq' & Hs').
  split.
  - intros a. fold q in Hq. fold q' in Hq'.
    now rewrite Hq, Hq', (entryCount_perm a results results' HP).
  - intros s s' Hin Hin' Ha.
    destruct (Hs s Hin) as [Hc _]. destruct (Hs' s' Hin') as [Hc' _].
    rewrite Hc, Hc', Ha. now apply entryCount_perm.
Qed.

Lemma summary_is_order_independent_witness :
  let ra :=
    (Sample.tokenA,
     [mkTokenHolder "x" 105 (Some (inject_Z 105 * (21 # 10000))%Q);
      mkTokenHolder "y" 50 (Some (inject_Z 50 * (21 # 10000))%Q)]) in
  let rb :=
    (Sample.tokenB,
     [mkTokenHolder "z" 7 (Some (inject_Z 7 * (25 # 10000))%Q);
      mkTokenHolder "y" 1 (Some (inject_Z 1 * (25 # 10000))%Q)]) in
  let q := Script.qualify 1 (Script.summarize [ra; rb]) in
  let q' := Script.qualify 1 (Script.summarize [rb; ra]) in
  (forall a, In a (map Script.hs_address q) <->
             In a (map Script.hs_address q')) /\
  (forall s s', In s q -> In s' q' ->
     Script.hs_address s = Script.hs_address s' ->
     Script.hs_tokenCount s = Script.hs_tokenCount s').
Proof.
  intros ra rb.
  apply (summary_is_order_independent [ra; rb] [rb; ra] 1).
  - apply perm_swap.
  - repeat constructor; simpl; intuition discriminate.
Defined.

(* ------------------------------------------------------------------ *)
(** ** The JSON report *)

Lemma entriesFrom_shape q tokens : forall index,
  List.length (Report.entriesFrom index q tokens) = List.length q /\
  map Report.e_rank (Report.entriesFrom index q tokens) =
    map (fun i => index + Z.of_nat i) (seq 1 (List.length q)) /\
  map Report.e_address (Report.entriesFrom index q tokens) =
    map Script.hs_address q.
Proof.
  induction q as [|s q IH]; intros index; simpl; auto.
  destruct (IH (index + 1)) as (Hl & Hr & Ha).
  rewrite Hl, Hr, Ha. split; [reflexivity|]. split; [|reflexivity].
  cbn [seq map]. f_equal.
  rewrite <- (seq_shift (List.length q) 1), map_map.
  apply map_ext. intros i. lia.
Qed.

Lemma entriesFrom_In q tokens e : forall index,
  In e (Report.entriesFrom index q tokens) ->
  exists s,
    In s q /\
    Report.e_address e = Script.hs_address s /\
    Report.e_tokenCount e = Script.hs_tokenCount s /\
    Report.e_totalValueUsd e = Script.hs_totalValueUsd s /\
    Report.e_holdings e = map (Report.holdingOf s) tokens.
Proof.
  induction q as [|s q IH]; intros index; simpl; [tauto|].
  intros [<-|Hin].
  - exists s. simpl. auto.
  - destruct (IH _ Hin) as (s' & H & R). exists s'. auto.
Qed.

(** X13. In the JSON report, [totalHolders] is the number of entries, the
    entries follow the qualified holders in order with ranks 1, 2, ..., n,
    and every entry lists exactly one holding per token, in token order. *)
Theorem report_ranks_and_holdings_follow_inputs :
  forall timestamp q tokens min,
    let o := Report.jsonOutput timestamp q tokens min in
    Report.o_totalHolders o = Z.of_nat (List.length (Report.o_holders o)) /\
    map Report.e_rank (Report.o_holders o) =
      map Z.of_nat (seq 1 (List.length q)) /\
    map Report.e_address (Report.o_holders o) = map Script.hs_address q /\
    forall e, In e (Report.o_holders o) ->
      map Report.h_tokenAddress (Report.e_holdings e) =
      map Script.ti_address tokens.
Proof.
  intros timestamp q tokens min o. unfold o, Report.jsonOutput. simpl.
  destruct (entriesFrom_shape q tokens 0) as (Hl & Hr & Ha).
  rewrite Hl, Hr, Ha. repeat split.
  intros e Hin. apply entriesFrom_In in Hin.
  destruct Hin as (s & _ & _ & _ & _ & ->).
  rewrite map_map. reflexivity.
Qed.




(* ------------------------------------------------------------------ *)
(** ** Further properties of the intersection *)

Lemma promiseAll_Returned A (ps : list (Outcome A)) l :
  Part000.promiseAll ps = Returned l <-> ps = map (@Returned A) l.
Proof.
  revert l. induction ps as [|p ps IH]; intros l; simpl.
  - split.
    + intros [= <-]. reflexivity.
    + destruct l; [reflexivity|discriminate].
  - destruct p as [a|e|]; destruct (Part000.promiseAll ps) as [l'|e'|] eqn:E;
      split; try discriminate.
    + intros [= <-]. simpl. f_equal. now apply IH.
    + destruct l as [|a' l]; [discriminate|]. simpl. intros [= <- H].
      apply IH in H. congruence.
    + destruct l as [|a' l]; [discriminate|]. simpl. intros [= <- H].
      apply IH in H. congruence.
    + destruct l as [|a' l]; [discriminate|]. simpl. intros [= <- H].
      apply IH in H. congruence.
    + destruct l; discriminate.
    + destruct l; discriminate.
    + destruct l; discriminate.
    + destruct l; discriminate.
    + destruct l; discriminate.
    + destruct l; discriminate.
Qed.

Lemma promiseAll_thrown A (ps : list (Outcome A)) e :
  In (Thrown e) ps -> exists e', Part000.promiseAll ps = Thrown e'.
Proof.
  induction ps as [|p ps IH]; simpl; [tauto|].
  intros [->|Hin]; [eauto|].
  destruct (IH Hin) as (e' & ->).
  destruct p; eauto.
Qed.

Lemma add_all_fresh l : forall s,
  NoDup (s ++ l) -> fold_left JsSet.add l s = s ++ l.
Proof.
  induction l as [|x l IH]; intros s Hnd; simpl.
  - now rewrite app_nil_r.
  - assert (Hx : JsSet.has s x = false).
    { destruct (JsSet.has s x) eqn:E; auto.
      apply JsSet_has_In in E. apply NoDup_remove_2 in Hnd.
      exfalso. apply Hnd. apply in_app_iff. now left. }
    unfold JsSet.add at 2. rewrite Hx.
    rewrite IH; rewrite <- app_assoc; auto.
Qed.

Lemma of_array_nodup l : NoDup l -> JsSet.of_array l = l.
Proof. intros H. unfold JsSet.of_array. now rewrite add_all_fresh. Qed.

Lemma filter_all_sets sets : forall seed : list string,
  fold_left
    (fun commonHolders s =>
       filter (fun holder => JsSet.has s holder) commonHolders)
    sets seed =
  filter (fun a => forallb (fun s => JsSet.has s a) sets) seed.
Proof.
  induction sets as [|s sets IH]; intros seed; simpl.
  - induction seed as [|a seed IHs]; simpl; auto. now rewrite <- IHs.
  - rewrite IH. induction seed as [|a seed IHs]; simpl; auto.
    destruct (JsSet.has s a); simpl; auto.
    destruct (forallb _ sets); simpl; auto. now rewrite IHs.
Qed.

Lemma getTokenHolders0_nodup mint rs hs :
  outcome (Part000.getTokenHolders mint rs) = Returned hs ->
  NoDup (map th_address hs).
Proof.
  intros H.
  apply (fetchLoop0_returned mint rs 1 JsMap.empty [] hs AmountsInv_empty) in H.
  destruct H as (holders' & recs' & Inv & ->).
  apply (returned_holders0 Inv).
Qed.

Lemma fetched_lists_nodup calls lists :
  Part000.promiseAll
    (map (fun c => outcome (Part000.getTokenHolders (fst c) (snd c))) calls)
    = Returned lists ->
  Forall (fun l => NoDup (map th_address l)) lists.
Proof.
  rewrite promiseAll_Returned. revert lists.
  induction calls as [|c calls IH]; intros [|l lists]; simpl;
    try discriminate; [constructor|].
  intros [= H1 H2]. constructor; auto.
  eapply getTokenHolders0_nodup; eauto.
Qed.

(** X15. When every fetch returns, the common holders are the addresses of
    the first token's holder list, in that list's order (descending balance
    of the first token), that occur in the holder list of every other
    token; with a single token they are all its holders. *)
Theorem common_holders_are_first_list_filtered :
  forall calls first others,
    Part000.promiseAll
      (map (fun c => outcome (Part000.getTokenHolders (fst c) (snd c))) calls)
      = Returned (first :: others) ->
    exists d,
      Part000.findCommonHolders calls =
      Returned
        (filter
           (fun a =>
              forallb (fun l => existsb (String.eqb a) (map th_address l))
                others)
           (map th_address first), d).
Proof.
  intros calls first others Hall.
  pose proof (fetched_lists_nodup calls _ Hall) as HF.
  unfold Part000.findCommonHolders. rewrite map_map. simpl. rewrite Hall.
  unfold Part000.intersect. cbn [map nth_error skipn].
  eexists. f_equal. f_equal.
  rewrite filter_all_sets.
  inversion HF as [|? ? Hfirst Hothers]; subst.
  rewrite (of_array_nodup _ Hfirst).
  apply filter_ext. intros a.
  clear - Hothers. induction Hothers as [|l ls Hl _ IH]; simpl; auto.
  rewrite IH. f_equal. unfold JsSet.has. now rewrite (of_array_nodup _ Hl).
Qed.

Lemma common_holders_are_first_list_filtered_witness :
  exists d,
    Part000.findCommonHolders
      [("MintA", [Sample.page1; Sample.endPage]);
       ("MintB", [Sample.page2; Sample.endPage])] =
    Returned
      (filter
         (fun a =>
            forallb (fun l => existsb (String.eqb a) (map th_address l))
              [[mkTokenHolder "z" 7 None; mkTokenHolder "y" 1 None]])
         (map th_address
            [mkTokenHolder "x" 105 None; mkTokenHolder "y" 50 None]), d).
Proof.
  apply (common_holders_are_first_list_filtered
           [("MintA", [Sample.page1; Sample.endPage]);
            ("MintB", [Sample.page2; Sample.endPage])]).
  reflexivity.
Defined.

(** X16. The intersection does not depend on the order of the token list:
    if [findCommonHolders] returns for a list of calls, it returns for any
    reordering of them, with the same set of common holders. *)
Theorem common_holders_are_order_independent :
  forall calls calls' common d,
    Permutation calls calls' ->
    Part000.findCommonHolders calls = Returned (common, d) ->
    exists common' d',
      Part000.findCommonHolders calls' = Returned (common', d') /\
      forall a, In a common <-> In a common'.
Proof.
  intros calls calls' common d HP.
  unfold Part000.findCommonHolders. rewrite !map_map. simpl.
  set (f := fun c : string * list Response =>
              outcome (Part000.getTokenHolders (fst c) (snd c))).
  destruct (Part000.promiseAll (map f calls)) as [lists|e|] eqn:E;
    [|discriminate..].
  apply promiseAll_Returned in E.
  assert (HP' : Permutation (map f calls') (map (@Returned _) lists)).
  { rewrite <- E. apply Permutation_map. now symmetry. }
  apply Permutation_map_inv in HP'. destruct HP' as (lists' & E' & HL).
  apply promiseAll_Returned in E'. rewrite E'.
  set (toSet := fun holders : list TokenHolder =>
                  JsSet.of_array (map th_address holders)).
  destruct (Part000.intersect (map toSet lists)) as [c|e|] eqn:I;
    [|discriminate..].
  intros [= <- _].
  assert (Hne : map toSet lists <> []).
  { intros N. rewrite N in I. discriminate. }
  destruct (intersect_spec (map toSet lists) Hne) as (c0 & I0 & Hc0).
  rewrite I in I0. injection I0 as <-.
  assert (Hne' : map toSet lists' <> []).
  { intros N. apply Hne. apply map_eq_nil in N. subst lists'.
    apply Permutation_sym, Permutation_nil in HL. now subst. }
  destruct (intersect_spec (map toSet lists') Hne') as (c' & I' & Hc').
  rewrite I'. eexists. eexists. split; [reflexivity|].
  intros a. rewrite Hc0, Hc'.
  split; apply Permutation_Forall, Permutation_map; [|symmetry]; exact HL.
Qed.

Lemma common_holders_are_order_independent_witness :
  exists common' d',
    Part000.findCommonHolders
      [("MintB", [Sample.page2; Sample.endPage]);
       ("MintA", [Sample.page1; Sample.endPage])] = Returned (common', d') /\
    forall a, In a ["y"] <-> In a common'.
Proof.
  eapply (common_holders_are_order_independent
            [("MintA", [Sample.page1; Sample.endPage]);
             ("MintB", [Sample.page2; Sample.endPage])]).
  - apply perm_swap.
  - reflexivity.
Defined.

(** X17. [findCommonHolders] is all or nothing: if the fetch of any token
    throws, which in part_000 includes a 429 response, the whole call
    throws and returns no common holders. *)
Theorem common_holders_fail_with_any_fetch :
  forall calls c e,
    In c calls ->
    outcome (Part000.getTokenHolders (fst c) (snd c)) = Thrown e ->
    exists e', Part000.findCommonHolders calls = Thrown e'.
Proof.
  intros calls c e Hin He.
  unfold Part000.findCommonHolders. rewrite map_map. simpl.
  destruct (promiseAll_thrown _
              (map (fun c => outcome (Part000.getTokenHolders (fst c) (snd c)))
                 calls) e) as (e' & ->); eauto.
  rewrite <- He.
  apply (in_map (fun c => outcome (Part000.getTokenHolders (fst c) (snd c)))).
  exact Hin.
Qed.

Lemma common_holders_fail_with_any_fetch_witness :
  exists e',
    Part000.findCommonHolders
      [("MintA", [Sample.page1; Sample.endPage]);
       ("MintB", [Sample.page2; Sample.tooMany; Sample.endPage])] = Thrown e'.
Proof.
  apply (common_holders_fail_with_any_fetch
           [("MintA", [Sample.page1; Sample.endPage]);
            ("MintB", [Sample.page2; Sample.tooMany; Sample.endPage])]
           ("MintB", [Sample.page2; Sample.tooMany; Sample.endPage])
           (HttpError 429)).
  - simpl. auto.
  - reflexivity.
Defined.

(* ------------------------------------------------------------------ *)
(** ** Further properties of the rate limiter *)

Module RateLimiterQueue.
Import RateLimiter.

(** The tasks submitted by a sequence of inputs, in order. *)
Definition submitted (inputs : list Input) : list nat :=
  flat_map (fun i => match i with Submit task => [task] | _ => [] end) inputs.

(** The tasks the limiter has taken in: those started, oldest first,
    followed by those still queued. *)
Definition accepted (s : Sys) : list nat :=
  rev (map fst (dispatched s)) ++ queue (this s).

Lemma dispatch_accepted now s : accepted (dispatch now s) = accepted s.
Proof.
  unfold dispatch, accepted.
  destruct (queue (this s)) as [|task q]; simpl; auto.
  now rewrite <- app_assoc.
Qed.

Lemma processQueue_accepted s : accepted (processQueue s) = accepted s.
Proof.
  unfold processQueue.
  destruct (queue (this s)) as [|task q] eqn:Q.
  - unfold accepted. simpl. now rewrite Q.
  - destruct (requestsInLastSecond (this s) >=? MAX_REQUESTS_PER_SECOND).
    + destruct (1000 - (clock s - lastRequestTime (this s)) >? 0).
      * unfold accepted. simpl. now rewrite Q.
      * rewrite dispatch_accepted. unfold accepted. simpl. now rewrite Q.
    + rewrite dispatch_accepted. unfold accepted. simpl. now rewrite Q.
Qed.

Lemma step_accepted s i : accepted (step s i) = accepted s ++ submitted [i].
Proof.
  destruct i as [task|ms| |]; cbn [step submitted flat_map];
    rewrite ?app_nil_r.
  - unfold addToQueue.
    destruct (processing (this s)); cbn [negb].
    + unfold accepted. simpl. now rewrite app_assoc.
    + rewrite processQueue_accepted. unfold accepted. simpl.
      now rewrite app_assoc.
  - reflexivity.
  - destruct (pc s); auto.
    + destruct (wake <=? clock s); auto. now rewrite dispatch_accepted.
    + destruct (wake <=? clock s); auto. now rewrite processQueue_accepted.
  - destruct (pc s); auto.
Qed.

(** An idle limiter has nothing queued. *)
Definition idleEmpty (s : Sys) : Prop := pc s = Idle -> queue (this s) = [].

Lemma dispatch_running now s :
  queue (this s) <> [] -> pc (dispatch now s) <> Idle.
Proof.
  unfold dispatch. destruct (queue (this s)); [congruence|]. discriminate.
Qed.

Lemma processQueue_idleEmpty s : idleEmpty (processQueue s).
Proof.
  unfold processQueue, idleEmpty.
  destruct (queue (this s)) as [|task q] eqn:Q; auto.
  destruct (requestsInLastSecond (this s) >=? MAX_REQUESTS_PER_SECOND).
  - destruct (1000 - (clock s - lastRequestTime (this s)) >? 0);
      [discriminate|].
    intros H. exfalso. revert H. apply dispatch_running. discriminate.
  - intros H. exfalso. revert H. apply dispatch_running. discriminate.
Qed.

Lemma step_idleEmpty s i :
  RateLimiterFacts.Inv s -> idleEmpty s -> idleEmpty (step s i).
Proof.
  intros HI HE. pose proof (RateLimiterFacts.inv_pc _ HI) as Hpc.
  destruct i as [task|ms| |]; cbn [step].
  - unfold addToQueue.
    destruct (processing (this s)) eqn:P; cbn [negb].
    + unfold idleEmpty. cbn [pc]. intros E. rewrite E in Hpc.
      destruct Hpc. congruence.
    + apply processQueue_idleEmpty.
  - exact HE.
  - destruct (pc s) as [|wake now|task|wake] eqn:PC; auto.
    + destruct (wake <=? clock s); auto.
      destruct Hpc as (_ & Hq & _).
      intros H. exfalso. revert H. now apply dispatch_running.
    + destruct (wake <=? clock s); auto.
      apply processQueue_idleEmpty.
  - destruct (pc s) as [|wake now|task|wake] eqn:PC; auto;
      unfold idleEmpty; cbn [pc]; congruence.
Qed.

Lemma run_idleEmpty t0 inputs : idleEmpty (run t0 inputs).
Proof.
  unfold run.
  assert (H0 : idleEmpty (init t0)) by (intros _; reflexivity).
  revert H0. generalize (RateLimiterFacts.init_inv t0). generalize (init t0).
  induction inputs as [|i inputs IH]; intros s HI HE; simpl; auto.
  apply IH.
  - now apply RateLimiterFacts.step_inv.
  - now apply step_idleEmpty.
Qed.
End RateLimiterQueue.

(** X18. The limiter dispatches in submission order and neither loses nor
    repeats a task: at any time the tasks started so far, oldest first,
    followed by the tasks still queued, are the tasks submitted so far, in
    the order of submission. *)
Theorem dispatch_order_is_submission_order :
  forall t0 inputs,
    let s := RateLimiter.run t0 inputs in
    rev (map fst (RateLimiter.dispatched s)) ++
      RateLimiter.queue (RateLimiter.this s) =
    RateLimiterQueue.submitted inputs.
Proof.
  intros t0 inputs. unfold RateLimiter.run. simpl.
  change (RateLimiterQueue.accepted
            (fold_left RateLimiter.step inputs (RateLimiter.init t0)) =
          RateLimiterQueue.accepted (RateLimiter.init t0) ++
          RateLimiterQueue.submitted inputs).
  generalize (RateLimiter.init t0).
  induction inputs as [|i inputs IH]; intros s; cbn [fold_left].
  - unfold RateLimiterQueue.submitted. simpl. now rewrite app_nil_r.
  - rewrite IH, RateLimiterQueue.step_accepted, <- app_assoc. f_equal.
    unfold RateLimiterQueue.submitted. simpl. now rewrite app_nil_r.
Qed.

(** X19. The [processing] flag is false exactly when no call of
    [processQueue] is suspended, so [addToQueue] never starts a second
    dispatch loop; and whenever the loop is not running the queue is empty,
    so no task waits without a loop to start it.  The counter
    [requestsInLastSecond] stays between 0 and the ceiling. *)
Theorem dispatch_loop_runs_while_tasks_wait :
  forall t0 inputs,
    let s := RateLimiter.run t0 inputs in
    (RateLimiter.processing (RateLimiter.this s) = false <->
     RateLimiter.pc s = RateLimiter.Idle) /\
    (RateLimiter.pc s = RateLimiter.Idle ->
     RateLimiter.queue (RateLimiter.this s) = []) /\
    0 <= RateLimiter.requestsInLastSecond (RateLimiter.this s)
      <= RateLimiter.MAX_REQUESTS_PER_SECOND.
Proof.
  intros t0 inputs s.
  pose proof (RateLimiterFacts.run_inv t0 inputs) as HI. fold s in HI.
  split; [|split].
  - split.
    + now apply RateLimiterFacts.Inv_processing.
    + intros E. pose proof (RateLimiterFacts.inv_pc _ HI) as Hpc.
      rewrite E in Hpc. tauto.
  - apply RateLimiterQueue.run_idleEmpty.
  - apply (RateLimiterFacts.inv_count _ HI).
Qed.

(** X20. A task submitted while the limiter is idle starts at once when
    fewer than 8 requests are counted or a second has passed since the last
    one; otherwise nothing starts and the loop sleeps until one second after
    the last request. *)
Theorem idle_limiter_starts_task_at_once :
  forall t0 inputs task,
    let s := RateLimiter.run t0 inputs in
    let s' := RateLimiter.step s (RateLimiter.Submit task) in
    RateLimiter.pc s = RateLimiter.Idle ->
    (RateLimiter.requestsInLastSecond (RateLimiter.this s) < 8 \/
     1000 <= RateLimiter.clock s
             - RateLimiter.lastRequestTime (RateLimiter.this s) ->
     RateLimiter.dispatched s' =
       (task, RateLimiter.clock s) :: RateLimiter.dispatched s /\
     RateLimiter.pc s' = RateLimiter.Running task) /\
    (8 <= RateLimiter.requestsInLastSecond (RateLimiter.this s) /\
     RateLimiter.clock s
       - RateLimiter.lastRequestTime (RateLimiter.this s) < 1000 ->
     RateLimiter.dispatched s' = RateLimiter.dispatched s /\
     RateLimiter.pc s' =
       RateLimiter.Throttled
         (RateLimiter.lastRequestTime (RateLimiter.this s) + 1000)
         (RateLimiter.clock s)).
Proof.
  intros t0 inputs task s s' Hidle.
  pose proof (RateLimiterFacts.run_inv t0 inputs) as HI. fold s in HI.
  pose proof (RateLimiterQueue.run_idleEmpty t0 inputs Hidle) as HQ.
  fold s in HQ.
  pose proof (RateLimiterFacts.inv_pc _ HI) as Hpc. rewrite Hidle in Hpc.
  destruct Hpc as [Hproc _].
  unfold s'. cbn [RateLimiter.step]. unfold RateLimiter.addToQueue.
  rewrite Hproc, HQ. cbn [negb app].
  unfold RateLimiter.processQueue, RateLimiter.dispatch,
    RateLimiter.MAX_REQUESTS_PER_SECOND.
  cbn [RateLimiter.queue RateLimiter.this RateLimiter.clock
       RateLimiter.requestsInLastSecond RateLimiter.lastRequestTime
       RateLimiter.dispatched RateLimiter.pc RateLimiter.processing].
  split.
  - intros Hfree.
    destruct (Z.geb_spec
                (RateLimiter.requestsInLastSecond (RateLimiter.this s)) 8);
      [|split; reflexivity].
    destruct (Z.gtb_spec
                (1000 - (RateLimiter.clock s
                         - RateLimiter.lastRequestTime (RateLimiter.this s))) 0);
      [lia|split; reflexivity].
  - intros [Hfull Hrecent].
    destruct (Z.geb_spec
                (RateLimiter.requestsInLastSecond (RateLimiter.this s)) 8);
      [|lia].
    destruct (Z.gtb_spec
                (1000 - (RateLimiter.clock s
                         - RateLimiter.lastRequestTime (RateLimiter.this s))) 0);
      [|lia].
    cbn [RateLimiter.dispatched RateLimiter.pc]. split; [reflexivity|].
    f_equal. lia.
Qed.

Lemma idle_limiter_starts_task_at_once_witness :
  let s := RateLimiter.run 5000 [] in
  let s' := RateLimiter.step s (RateLimiter.Submit 7%nat) in
  RateLimiter.dispatched s' = [(7%nat, 5000)] /\
  RateLimiter.pc s' = RateLimiter.Running 7.
Proof.
  intros s s'.
  destruct (idle_limiter_starts_task_at_once 5000 [] 7%nat eq_refl)
    as [Hfree _].
  apply Hfree. left. simpl. lia.
Defined.

(* ------------------------------------------------------------------ *)
(** ** Token counts and request order of the aggregation *)

(** X21. Every summary returned by the threshold aggregation has a token
    count of at least 1, at least the required minimum, and at most the
    number of tokens in the list. *)
Theorem qualified_token_count_is_in_range :
  forall tokens min rs results evs rs',
    min <= Z.of_nat (List.length tokens) ->
    Script.fetchAll tokens rs = mkRun (Returned results) evs rs' ->
    exists q d,
      Script.findHoldersWithMinTokens tokens min rs =
        mkRun (Returned (q, d)) evs rs' /\
      forall s, In s q ->
        1 <= Script.hs_tokenCount s /\
        min <= Script.hs_tokenCount s /\
        Script.hs_tokenCount s <= Z.of_nat (List.length tokens).
Proof.
  intros tokens min rs results evs rs' Hmin Hfetch.
  destruct (fetchAll_results tokens rs results evs rs' Hfetch) as [Hm HF].
  destruct (qualify_spec min _ _ (summarize_inv results HF)) as (_ & Hq & Hs).
  eexists. eexists. split.
  - rewrite findHoldersWithMinTokens_fetchAll, Hfetch by assumption.
    reflexivity.
  - intros s Hin. destruct (Hs s Hin) as [Hc _].
    assert (Ha : In (Script.hs_address s)
                   (map Script.hs_address
                      (Script.qualify min (Script.summarize results)))).
    { now apply in_map. }
    apply Hq in Ha. rewrite Hc. destruct Ha as [H1 H2].
    repeat split; auto.
    unfold Script.entryCount. rewrite <- Hm, length_map.
    pose proof (filter_length_le (fun tr => Script.holds (Script.hs_address s)
                                              (snd tr)) results).
    lia.
Qed.

Lemma qualified_token_count_is_in_range_witness :
  exists q d,
    Script.findHoldersWithMinTokens [Sample.tokenA; Sample.tokenB] 2
      [Sample.page1; Sample.endPage; Sample.page2; Sample.endPage] =
      mkRun (Returned (q, d))
        [Request "MintA" 1; Request "MintA" 2; Sleep 100;
         Request "MintB" 1; Request "MintB" 2; Sleep 100] [] /\
    forall s, In s q ->
      1 <= Script.hs_tokenCount s /\
      2 <= Script.hs_tokenCount s /\
      Script.hs_tokenCount s
        <= Z.of_nat (List.length [Sample.tokenA; Sample.tokenB]).
Proof.
  apply (qualified_token_count_is_in_range
           [Sample.tokenA; Sample.tokenB] 2
           [Sample.page1; Sample.endPage; Sample.page2; Sample.endPage]
           _ _ _ ltac:(simpl; lia) eq_refl).
Defined.

(** The mints of the requests of a trace, in order. *)
Definition requestMints (evs : list Event) : list string :=
  flat_map (fun e => match e with Request m _ => [m] | Sleep _ => [] end) evs.

Lemma requestMints_app e1 e2 :
  requestMints (e1 ++ e2) = requestMints e1 ++ requestMints e2.
Proof. unfold requestMints. now rewrite flat_map_app. Qed.

Lemma requestMints_sleep ms evs :
  requestMints (Sleep ms :: evs) = requestMints evs.
Proof. reflexivity. Qed.

Lemma fetch_requestMints mint price rs :
  exists k,
    requestMints (events (Script.getTokenHolders mint price rs)) =
    repeat mint (S k).
Proof.
  destruct (fetchLoop_accounting mint price rs 1 JsMap.empty)
    as (_ & _ & _ & HF).
  destruct (fetchLoop_first_event mint price rs 1 JsMap.empty) as (evs & E).
  unfold Script.getTokenHolders. rewrite E in *.
  inversion HF as [|? ? _ HF']; subst.
  exists (List.length (requestMints evs)). simpl. f_equal.
  clear - HF'. induction HF' as [|e evs He _ IH]; [reflexivity|].
  destruct e as [m p|ms]; [|exact IH].
  subst m. cbn [requestMints flat_map app List.length repeat].
  f_equal. exact IH.
Qed.

Lemma fetchAll_requestMints tokens : forall rs,
  exists counts,
    List.length counts = List.length tokens /\
    requestMints (events (Script.fetchAll tokens rs)) =
    List.concat
      (map (fun tk => repeat (Script.ti_address (fst tk)) (S (snd tk)))
         (combine tokens counts)) \/
    outcome (Script.fetchAll tokens rs) = Stalled \/
    exists e, outcome (Script.fetchAll tokens rs) = Thrown e.
Proof.
  induction tokens as [|token tokens IH]; intros rs; simpl.
  - exists []. left. auto.
  - destruct (fetch_requestMints (Script.ti_address token)
                (Script.ti_priceUsd token) rs) as (k & Hk).
    destruct (outcome (Script.getTokenHolders _ _ rs)) as [holders|e|] eqn:G;
      simpl; [|exists []; eauto..].
    destruct (IH (rest (Script.getTokenHolders (Script.ti_address token)
                          (Script.ti_priceUsd token) rs)))
      as (counts & [[Hl Hr]|[Hs|(e & He)]]).
    + exists (k :: counts). left. simpl. split; [now rewrite Hl|].
      rewrite requestMints_app, requestMints_sleep, Hk, Hr. reflexivity.
    + exists []. right. left. now rewrite Hs.
    + exists []. right. right. exists e. now rewrite He.
Qed.

(** X22. In a run of [findHoldersWithMinTokens] that returns, the tokens
    are fetched one after the other in list order: the requests are those of
    the first token, then those of the second, and so on, at least one per
    token. *)
Theorem tokens_are_fetched_in_list_order :
  forall tokens min rs res,
    outcome (Script.findHoldersWithMinTokens tokens min rs) = Returned res ->
    exists counts,
      List.length counts = List.length tokens /\
      requestMints (events (Script.findHoldersWithMinTokens tokens min rs)) =
      List.concat
        (map (fun tk => repeat (Script.ti_address (fst tk)) (S (snd tk)))
           (combine tokens counts)).
Proof.
  intros tokens min rs res. unfold Script.findHoldersWithMinTokens.
  destruct (min >? Z.of_nat (List.length tokens)); simpl; [discriminate|].
  rewrite forTokens_fetchAll. simpl.
  destruct (fetchAll_requestMints tokens rs)
    as (counts & [[Hl Hr]|[Hs|(e & He)]]).
  - destruct (outcome (Script.fetchAll tokens rs)); simpl;
      try discriminate. intros _. exists counts. auto.
  - rewrite Hs. discriminate.
  - rewrite He. discriminate.
Qed.

Lemma tokens_are_fetched_in_list_order_witness :
  exists counts,
    List.length counts = List.length [Sample.tokenA; Sample.tokenB] /\
    requestMints
      (events (Script.findHoldersWithMinTokens
                 [Sample.tokenA; Sample.tokenB] 1
                 [Sample.page1; Sample.tooMany; Sample.endPage;
                  Sample.page2; Sample.endPage])) =
    List.concat
      (map (fun tk => repeat (Script.ti_address (fst tk)) (S (snd tk)))
         (combine [Sample.tokenA; Sample.tokenB] counts)).
Proof.
  eapply (tokens_are_fetched_in_list_order [Sample.tokenA; Sample.tokenB] 1
            [Sample.page1; Sample.tooMany; Sample.endPage;
             Sample.page2; Sample.endPage]).
  reflexivity.
Defined.

(* ------------------------------------------------------------------ *)
(** ** holderDetails of the intersection *)

Lemma fold_set_other V (l : list (string * V)) : forall m k,
  ~ In k (map fst l) ->
  JsMap.get (fold_left (fun m e => JsMap.set m (fst e) (snd e)) l m) k =
  JsMap.get m k.
Proof.
  induction l as [|e l IH]; intros m k Hk; simpl in *; auto.
  rewrite IH by tauto. apply get_set_other. tauto.
Qed.

Lemma fold_set_get V (l : list (string * V)) : forall m k v,
  NoDup (map fst l) -> In (k, v) l ->
  JsMap.get (fold_left (fun m e => JsMap.set m (fst e) (snd e)) l m) k = Some v.
Proof.
  induction l as [|e l IH]; intros m k v Hnd Hin; simpl in *; [tauto|].
  inversion Hnd; subst. destruct Hin as [->|Hin].
  - simpl in *. rewrite fold_set_other by assumption. apply get_set_same.
  - now apply IH.
Qed.

Lemma fetched_pairs (calls : list (string * list Response)) : forall lists c,
  map (fun c => outcome (Part000.getTokenHolders (fst c) (snd c))) calls =
    map (@Returned _) lists ->
  In c calls ->
  exists hs,
    outcome (Part000.getTokenHolders (fst c) (snd c)) = Returned hs /\
    In hs lists /\
    In (fst c, hs) (combine (map fst calls) lists).
Proof.
  induction calls as [|c0 calls IH]; intros [|l lists] c; simpl;
    try discriminate; [tauto|].
  intros [= H1 H2] [->|Hin].
  - exists l. auto.
  - destruct (IH lists c H2 Hin) as (hs & ? & ? & ?). exists hs. auto.
Qed.

Lemma find_present a holders :
  In a (map th_address holders) ->
  exists h, holderOf a holders = Some h /\ th_address h = a.
Proof.
  unfold holderOf. induction holders as [|h l IH]; simpl; [tauto|].
  destruct (String.eqb_spec (th_address h) a) as [E|N].
  - intros _. exists h. auto.
  - intros [E|Hin]; [congruence|auto].
Qed.

(** X23. When [findCommonHolders] returns for tokens with distinct
    identifiers, [holderDetails] maps every token to the holder list its
    fetch returned, and every common holder has a record in each of these
    lists: the per-token lookup of a common holder never comes back
    empty. *)
Theorem common_holders_are_found_in_every_list :
  forall calls common d,
    NoDup (map fst calls) ->
    Part000.findCommonHolders calls = Returned (common, d) ->
    forall a c, In a common -> In c calls ->
      exists hs h,
        outcome (Part000.getTokenHolders (fst c) (snd c)) = Returned hs /\
        JsMap.get d (fst c) = Some hs /\
        holderOf a hs = Some h /\ th_address h = a.
Proof.
  intros calls common d Hnd.
  unfold Part000.findCommonHolders. rewrite map_map. simpl.
  destruct (Part000.promiseAll _) as [lists|e|] eqn:E; [|discriminate..].
  apply promiseAll_Returned in E.
  set (toSet := fun holders : list TokenHolder =>
                  JsSet.of_array (map th_address holders)).
  destruct (Part000.intersect (map toSet lists)) as [c0|e|] eqn:I;
    [|discriminate..].
  intros [= <- <-] a c Ha Hc.
  destruct (fetched_pairs calls lists c E Hc) as (hs & Ho & Hl & Hp).
  assert (Hne : map toSet lists <> []).
  { intros N. rewrite N in I. discriminate. }
  destruct (intersect_spec (map toSet lists) Hne) as (c1 & I1 & Hc1).
  rewrite I in I1. injection I1 as <-.
  apply Hc1 in Ha. rewrite Forall_map, Forall_forall in Ha.
  specialize (Ha hs Hl). unfold toSet in Ha.
  apply (proj1 (JsSet_of_array_In _ _)) in Ha.
  destruct (find_present a hs Ha) as (h & Hf & Hh).
  exists hs, h. repeat split; auto.
  apply fold_set_get; auto.
  assert (L : List.length (map fst calls) = List.length lists).
  { apply (f_equal (@List.length _)) in E. now rewrite !length_map in *. }
  clear - Hnd L. revert lists L.
  induction (map fst calls) as [|k ks IH]; intros [|l ls] L; simpl in *;
    try discriminate; [constructor|].
  inversion Hnd; subst. constructor; auto.
  intros Hin. apply H1. apply in_map_iff in Hin.
  destruct Hin as ([k' v] & <- & Hin). simpl.
  now apply in_combine_l in Hin.
Qed.

Lemma common_holders_are_found_in_every_list_witness :
  exists hs h,
    outcome (Part000.getTokenHolders "MintB" [Sample.page2; Sample.endPage])
      = Returned hs /\
    JsMap.get
      [("MintA", [mkTokenHolder "x" 105 None; mkTokenHolder "y" 50 None]);
       ("MintB", [mkTokenHolder "z" 7 None; mkTokenHolder "y" 1 None])]
      "MintB" = Some hs /\
    holderOf "y" hs = Some h /\ th_address h = "y".
Proof.
  apply (common_holders_are_found_in_every_list
           [("MintA", [Sample.page1; Sample.endPage]);
            ("MintB", [Sample.page2; Sample.endPage])]
           ["y"]
           [("MintA", [mkTokenHolder "x" 105 None; mkTokenHolder "y" 50 None]);
            ("MintB", [mkTokenHolder "z" 7 None; mkTokenHolder "y" 1 None])]
           ltac:(repeat constructor; simpl; intuition discriminate)
           eq_refl "y" ("MintB", [Sample.page2; Sample.endPage])).
  - simpl. auto.
  - simpl. auto.
Defined.

(* ------------------------------------------------------------------ *)
(** ** Progress of the rate limiter *)

Module RateLimiterProgress.
Import RateLimiter.

(** Upper bounds on the pending timers. *)
Record Timed (s : Sys) : Prop := {
  tm_count : dispatchTimes s = [] -> requestsInLastSecond (this s) = 0;
  tm_pc :
    match pc s with
    | Throttled wake _ => dispatchTimes s <> [] /\ wake <= clock s + 1000
    | Spacing wake => dispatchTimes s <> [] /\ wake <= clock s + 125
    | _ => True
    end
}.

Lemma dispatch_timed now s : queue (this s) <> [] -> Timed (dispatch now s).
Proof.
  unfold dispatch. destruct (queue (this s)) as [|task q]; [congruence|].
  intros _. split; simpl; auto. discriminate.
Qed.

Lemma processQueue_timed s :
  match dispatchTimes s with
  | [] => True
  | t :: _ => t = lastRequestTime (this s) /\ t <= clock s
  end ->
  (dispatchTimes s = [] -> requestsInLastSecond (this s) = 0) ->
  Timed (processQueue s).
Proof.
  intros Hlast Hcount. unfold processQueue.
  destruct (queue (this s)) as [|task q] eqn:Q.
  - split; simpl; auto.
  - unfold MAX_REQUESTS_PER_SECOND.
    destruct (Z.geb_spec (requestsInLastSecond (this s)) 8).
    + destruct (Z.gtb_spec (1000 - (clock s - lastRequestTime (this s))) 0).
      * assert (Hne : dispatchTimes s <> []).
        { intros E. specialize (Hcount E). lia. }
        split; cbn [pc this clock requestsInLastSecond dispatched];
          unfold dispatchTimes in *; cbn [dispatched]; [tauto|].
        split; auto.
        destruct (map snd (dispatched s)) as [|t older]; [congruence|]. lia.
      * apply dispatch_timed. simpl. discriminate.
    + apply dispatch_timed. simpl. discriminate.
Qed.

Lemma step_timed s i :
  RateLimiterFacts.Inv s -> Timed s -> Timed (step s i).
Proof.
  intros HI [Hcount Hpc].
  pose proof (RateLimiterFacts.inv_pc _ HI) as Ipc.
  pose proof (RateLimiterFacts.inv_last _ HI) as Hlast.
  destruct i as [task|ms| |]; cbn [step].
  - unfold addToQueue. destruct (processing (this s)); cbn [negb].
    + split; auto.
    + apply processQueue_timed; auto.
  - split; auto. cbn [pc clock].
    change (dispatchTimes _) with (dispatchTimes s).
    destruct (pc s); auto; split; try tauto; lia.
  - destruct (pc s) as [|wake now|task|wake] eqn:PC;
      try (split; auto; now rewrite PC).
    + destruct (wake <=? clock s); [|split; auto; now rewrite PC].
      apply dispatch_timed. simpl. tauto.
    + destruct (wake <=? clock s); [|split; auto; now rewrite PC].
      apply processQueue_timed; auto.
  - destruct (pc s) as [|wake now|task|wake] eqn:PC;
      try (split; auto; now rewrite PC).
    split; auto. cbn [pc clock].
    change (dispatchTimes _) with (dispatchTimes s).
    rewrite RateLimiterFacts.MIN_TIME_value. split; [tauto|lia].
Qed.

Lemma run_timed t0 inputs : Timed (run t0 inputs).
Proof.
  unfold run.
  assert (H0 : Timed (init t0)) by (split; simpl; auto).
  revert H0. generalize (RateLimiterFacts.init_inv t0). generalize (init t0).
  induction inputs as [|i inputs IH]; intros s HI HT; simpl; auto.
  apply IH.
  - now apply RateLimiterFacts.step_inv.
  - now apply step_timed.
Qed.

(** [processQueue] starts the head of the queue unless it has to wait. *)
Lemma processQueue_dispatches s task q :
  queue (this s) = task :: q ->
  (requestsInLastSecond (this s) >= 8 ->
   1000 <= clock s - lastRequestTime (this s)) ->
  dispatched (processQueue s) = (task, clock s) :: dispatched s.
Proof.
  intros Q Hfree. unfold processQueue, dispatch, MAX_REQUESTS_PER_SECOND.
  rewrite Q. cbn [queue this clock dispatched].
  destruct (Z.geb_spec (requestsInLastSecond (this s)) 8); [|reflexivity].
  destruct (Z.gtb_spec (1000 - (clock s - lastRequestTime (this s))) 0);
    [lia|reflexivity].
Qed.
End RateLimiterProgress.

(** X24. The limiter cannot get stuck with work queued: from any state it
    can reach with a task at the head of the queue, once the running task
    (if any) completes, a second passes and the pending timer fires, that
    task is started, at that very time. *)
Theorem queued_task_starts_within_a_second :
  forall t0 inputs task q,
    let s := RateLimiter.run t0 inputs in
    RateLimiter.queue (RateLimiter.this s) = task :: q ->
    RateLimiter.dispatched
      (RateLimiter.run t0
         (inputs ++ [RateLimiter.Complete; RateLimiter.Elapse 1000;
                     RateLimiter.Fire])) =
    (task, RateLimiter.clock s + 1000) :: RateLimiter.dispatched s.
Proof.
  intros t0 inputs task q s Q.
  unfold RateLimiter.run. rewrite fold_left_app.
  change (fold_left RateLimiter.step inputs (RateLimiter.init t0)) with s.
  pose proof (RateLimiterFacts.run_inv t0 inputs) as HI. fold s in HI.
  pose proof (RateLimiterProgress.run_timed t0 inputs) as HT. fold s in HT.
  pose proof (RateLimiterQueue.run_idleEmpty t0 inputs) as HE. fold s in HE.
  pose proof (RateLimiterFacts.inv_pc _ HI) as Ipc.
  pose proof (RateLimiterFacts.inv_last _ HI) as Hlast.
  pose proof (RateLimiterProgress.tm_pc _ HT) as Tpc.
  assert (Hnow : RateLimiter.dispatchTimes s <> [] ->
                 RateLimiter.lastRequestTime (RateLimiter.this s)
                 <= RateLimiter.clock s).
  { destruct (RateLimiter.dispatchTimes s); [congruence|]. intros _. lia. }
  cbn [fold_left].
  destruct (RateLimiter.pc s) as [|wake now|task'|wake] eqn:PC.
  - specialize (HE PC). congruence.
  - cbn [RateLimiter.step]. rewrite PC.
    cbn [RateLimiter.step RateLimiter.pc RateLimiter.clock]. rewrite PC.
    destruct Tpc as [_ Hw].
    destruct (Z.leb_spec wake (RateLimiter.clock s + Z.of_N 1000)); [|lia].
    unfold RateLimiter.dispatch.
    cbn [RateLimiter.queue RateLimiter.this RateLimiter.clock
         RateLimiter.dispatched].
    rewrite Q. reflexivity.
  - cbn [RateLimiter.step]. rewrite PC.
    cbn [RateLimiter.step RateLimiter.pc RateLimiter.clock].
    rewrite RateLimiterFacts.MIN_TIME_value.
    destruct (Z.leb_spec (RateLimiter.clock s + 125)
                (RateLimiter.clock s + Z.of_N 1000)); [|lia].
    rewrite (RateLimiterProgress.processQueue_dispatches _ task q); auto.
    cbn [RateLimiter.this RateLimiter.clock RateLimiter.lastRequestTime].
    intros _. destruct Ipc as [_ Hne]. specialize (Hnow Hne). lia.
  - cbn [RateLimiter.step]. rewrite PC.
    cbn [RateLimiter.step RateLimiter.pc RateLimiter.clock]. rewrite PC.
    destruct Tpc as [Hne Hw].
    destruct (Z.leb_spec wake (RateLimiter.clock s + Z.of_N 1000)); [|lia].
    rewrite (RateLimiterProgress.processQueue_dispatches _ task q); auto.
    cbn [RateLimiter.this RateLimiter.clock RateLimiter.lastRequestTime].
    intros _. specialize (Hnow Hne). lia.
Qed.

Lemma queued_task_starts_within_a_second_witness :
  RateLimiter.dispatched
    (RateLimiter.run 5000
       ([RateLimiter.Submit 1%nat; RateLimiter.Submit 2%nat] ++
        [RateLimiter.Complete; RateLimiter.Elapse 1000; RateLimiter.Fire])) =
  (2%nat, RateLimiter.clock
            (RateLimiter.run 5000
               [RateLimiter.Submit 1%nat; RateLimiter.Submit 2%nat]) + 1000)
  :: RateLimiter.dispatched
       (RateLimiter.run 5000
          [RateLimiter.Submit 1%nat; RateLimiter.Submit 2%nat]).
Proof.
  apply (queued_task_starts_within_a_second 5000
           [RateLimiter.Submit 1%nat; RateLimiter.Submit 2%nat] 2%nat []).
  reflexivity.
Defined.
